(** * Backlog Pilot: the board's ordering protocol and its secret check

    A shallow embedding of the persistence module that [server/src/app.js]
    requires as [./db] (its file-backed branch: the [...Sync] functions and
    the [async] functions it exports around them; and the reorder of its
    relational branch), of the Express handlers of [server/src/app.js] and
    of the handlers of the client's [App] component, followed by what the
    specification says of them: what holds, and where the program does
    otherwise.

    Conventions of the embedding.
    - A JavaScript string is a [string]: a sequence of code units below 256.
    - The JSON document behind [readData]/[writeData] is a [Data] value that
      every operation receives and returns; an operation that throws leaves
      the document as it was, since [writeData] is always its last step.
    - [randomUUID()] and [new Date().toISOString()] are inputs of the
      operation that reads them ([uuid], [now]); one clock reading is
      supplied per call.
    - An item's [position] is an integer: every write path stores one, so
      the [?? 0] fallbacks of the source never fire and are left out.
    - The functions [./db] exports are [async], and the handlers of
      [server/src/app.js] call them without [await]: a handler holds a
      promise, never the value the call computed nor the error it threw.
      A promise that is rejected with no one to handle it is reported by
      the runtime once the response is sent; that is outside the model. *)

From Stdlib Require Import ZArith Ascii.
From stdpp Require Import base option strings list gmap sorting.

Open Scope Z_scope.

(* ===================================================================== *)
(** * Strings                                                             *)
(* ===================================================================== *)

Module Js.

(** White space and line terminators of ECMAScript among the code units
    below 256: TAB, LF, VT, FF, CR, SPACE and NBSP. *)
Definition isWhiteSpace (c : ascii) : bool :=
  let n := N_of_ascii c in
  ((9 <=? n)%N && (n <=? 13)%N) || (n =? 32)%N || (n =? 160)%N.

Fixpoint trimStart (s : string) : string :=
  match s with
  | String c rest => if isWhiteSpace c then trimStart rest else s
  | EmptyString => EmptyString
  end.

Fixpoint reverse (s acc : string) : string :=
  match s with
  | String c rest => reverse rest (String c acc)
  | EmptyString => acc
  end.

Definition trimEnd (s : string) : string :=
  reverse (trimStart (reverse s EmptyString)) EmptyString.

(** [String.prototype.trim] *)
Definition trim (s : string) : string := trimEnd (trimStart s).

(** [value || ''] for a value that is a string, [undefined] or [null]. *)
Definition orEmpty (value : option string) : string :=
  default EmptyString value.

(** Truthiness of a string. *)
Definition truthy (s : string) : bool :=
  match s with EmptyString => false | _ => true end.

End Js.

(* ===================================================================== *)
(** * The persistence layer                                               *)
(* ===================================================================== *)

(** Outcome of a call that may [throw new Error(message)]. *)
Inductive Result (A : Type) : Type :=
| Ok (value : A)
| Throw (message : string).
Arguments Ok {A} value.
Arguments Throw {A} message.

(** Sequencing stops at the first [throw]. *)
#[global] Instance Result_bind : MBind Result := λ A B k r,
  match r with
  | Ok a => k a
  | Throw m => Throw m
  end.

Definition throwUnless (ok : bool) (message : string) : Result unit :=
  if ok then Ok tt else Throw message.

Record Project := {
  project_id : string;
  project_name : string;
  project_secretKey : string;
  project_createdAt : string
}.

Record Item := {
  item_id : string;
  item_projectId : string;
  item_title : string;
  item_description : string;
  item_status : string;
  item_position : Z;
  item_createdAt : string;
  item_updatedAt : string
}.

#[global] Instance Project_eq_dec : EqDecision Project.
Proof. solve_decision. Defined.

#[global] Instance Item_eq_dec : EqDecision Item.
Proof. solve_decision. Defined.

(** The document of the store: [{ projects: [...], items: [...] }]. *)
Record Data := {
  projects : list Project;
  items : list Item
}.

Definition DEFAULT_DATA : Data := {| projects := []; items := [] |}.

Definition VALID_STATUSES : list string :=
  ["backlog"; "in_progress"; "review"; "done"].

(** [validateStatus]: throws unless the status is one of the four. *)
Definition validateStatus (status : string) : Result unit :=
  throwUnless (bool_decide (status ∈ VALID_STATUSES)) ("Invalid status: " +:+ status).

(** ** Ordering of the items of a board *)

(** [statusOrder = new Map(VALID_STATUSES.map((status, index) => [status, index]))] *)
Definition statusOrder : gmap string Z :=
  list_to_map (imap (λ index status, (status, Z.of_nat index)) VALID_STATUSES).

(** The comparator passed to [sort]. *)
Definition compareItems (a b : Item) : Z :=
  let statusDiff :=
    default 0 (statusOrder !! item_status a) - default 0 (statusOrder !! item_status b) in
  if bool_decide (statusDiff ≠ 0) then statusDiff
  else item_position a - item_position b.

(** [Array.prototype.sort] is stable: an element moves in front of another
    only when the comparator is positive for the pair in their original
    order. Insertion from the right end realises exactly that. *)
Fixpoint insertSorted {A} (cmp : A → A → Z) (x : A) (l : list A) : list A :=
  match l with
  | [] => [x]
  | y :: rest => if (0 <? cmp x y) then y :: insertSorted cmp x rest else x :: l
  end.

Definition stableSort {A} (cmp : A → A → Z) (l : list A) : list A :=
  foldr (insertSorted cmp) [] l.

Definition sortItems (items : list Item) : list Item :=
  stableSort compareItems items.

(** ** Projects *)

Definition listProjectsSync (data : Data) : list Project := projects data.

Definition getProjectByIdSync (projectId : string) (data : Data) : option Project :=
  snd <$> list_find (λ project, project_id project = projectId) (projects data).

Definition getProjectBySecretSync (secretKey : option string) (data : Data)
  : option Project :=
  let normalizedKey := Js.trim (Js.orEmpty secretKey) in
  if Js.truthy normalizedKey then
    snd <$> list_find (λ project, project_secretKey project = normalizedKey) (projects data)
  else None.

Definition createProjectSync (uuid now : string) (name secretKey : option string)
    (data : Data) : Result (Data * Project) :=
  let normalizedName := Js.trim (Js.orEmpty name) in
  let normalizedKey := Js.trim (Js.orEmpty secretKey) in
  throwUnless (Js.truthy normalizedName) "Project name is required." ;;
  throwUnless (Js.truthy normalizedKey) "Secret key is required." ;;
  let existingKey :=
    list_find (λ project, project_secretKey project = normalizedKey) (projects data) in
  throwUnless (bool_decide (existingKey = None))
        "Secret key already exists. Choose a different one." ;;
  let newProject :=
    {| project_id := uuid;
       project_name := normalizedName;
       project_secretKey := normalizedKey;
       project_createdAt := now |} in
  Ok ({| projects := projects data ++ [newProject]; items := items data |}, newProject).

Definition deleteProjectSync (projectId : string) (data : Data) : Data * bool :=
  match list_find (λ project, project_id project = projectId) (projects data) with
  | None => (data, false)
  | Some (projectIndex, _) =>
      ({| projects := delete projectIndex (projects data);
          items := filter (λ item, item_projectId item ≠ projectId) (items data) |},
       true)
  end.

(** ** Items *)

Definition getItemsByProjectSync (projectId : string) (data : Data) : list Item :=
  sortItems (filter (λ item, item_projectId item = projectId) (items data)).

(** [Math.max(...values)] of a non-empty array of integers. *)
Definition maxOf (first : Z) (others : list Z) : Z := foldl Z.max first others.

Definition nextPositionForStatus (data : Data) (projectId status : string) : Z :=
  match filter (λ item, item_projectId item = projectId ∧ item_status item = status)
               (items data) with
  | [] => 1
  | first :: others => maxOf (item_position first) (item_position <$> others) + 1
  end.

Definition createItemSync (uuid now : string) (projectId : string)
    (title description status : option string) (data : Data) : Result (Data * Item) :=
  let description := default EmptyString description in
  let status := default "backlog" status in
  let normalizedTitle := Js.trim (Js.orEmpty title) in
  throwUnless (Js.truthy normalizedTitle) "Item title is required." ;;
  validateStatus status ;;
  let project := list_find (λ p, project_id p = projectId) (projects data) in
  throwUnless (bool_decide (project ≠ None)) "Project not found." ;;
  let newItem :=
    {| item_id := uuid;
       item_projectId := projectId;
       item_title := normalizedTitle;
       item_description := Js.trim description;
       item_status := status;
       item_position := nextPositionForStatus data projectId status;
       item_createdAt := now;
       item_updatedAt := now |} in
  Ok ({| projects := projects data; items := items data ++ [newItem] |}, newItem).

(** [(item) => item.id === itemId && item.projectId === projectId], as
    [findIndex] and [find] use it: the first match with its index. *)
Definition findItem (projectId itemId : string) (items : list Item)
  : option (nat * Item) :=
  list_find (λ item, item_id item = itemId ∧ item_projectId item = projectId) items.

(** The body of a PATCH: each key is present or [undefined]. *)
Record Updates := {
  updates_title : option string;
  updates_description : option string;
  updates_status : option string
}.

Definition withTitle (item : Item) (title : string) : Item :=
  {| item_id := item_id item; item_projectId := item_projectId item;
     item_title := title; item_description := item_description item;
     item_status := item_status item; item_position := item_position item;
     item_createdAt := item_createdAt item; item_updatedAt := item_updatedAt item |}.

Definition withDescription (item : Item) (description : string) : Item :=
  {| item_id := item_id item; item_projectId := item_projectId item;
     item_title := item_title item; item_description := description;
     item_status := item_status item; item_position := item_position item;
     item_createdAt := item_createdAt item; item_updatedAt := item_updatedAt item |}.

Definition withStatusPosition (item : Item) (status : string) (position : Z) : Item :=
  {| item_id := item_id item; item_projectId := item_projectId item;
     item_title := item_title item; item_description := item_description item;
     item_status := status; item_position := position;
     item_createdAt := item_createdAt item; item_updatedAt := item_updatedAt item |}.

Definition withUpdatedAt (item : Item) (now : string) : Item :=
  {| item_id := item_id item; item_projectId := item_projectId item;
     item_title := item_title item; item_description := item_description item;
     item_status := item_status item; item_position := item_position item;
     item_createdAt := item_createdAt item; item_updatedAt := now |}.

Definition updateItemSync (now : string) (projectId itemId : string)
    (updates : Updates) (data : Data) : Result (Data * Item) :=
  match findItem projectId itemId (items data) with
  | None => Throw "Item not found."
  | Some (itemIndex, item) =>
      let updatedItem := item in
      updatedItem ←
        match updates_title updates with
        | Some title =>
            let newTitle := Js.trim title in
            throwUnless (Js.truthy newTitle) "Item title cannot be empty." ;;
            Ok (withTitle updatedItem newTitle)
        | None => Ok updatedItem
        end;
      let updatedItem :=
        match updates_description updates with
        | Some description => withDescription updatedItem (Js.trim description)
        | None => updatedItem
        end in
      updatedItem ←
        match updates_status updates with
        | Some status =>
            validateStatus status ;;
            if bool_decide (status ≠ item_status item) then
              Ok (withStatusPosition updatedItem status
                    (nextPositionForStatus data projectId status))
            else Ok updatedItem
        | None => Ok updatedItem
        end;
      let updatedItem := withUpdatedAt updatedItem now in
      Ok ({| projects := projects data;
             items := <[itemIndex := updatedItem]> (items data) |}, updatedItem)
  end.

Definition deleteItemSync (projectId itemId : string) (data : Data)
  : Result (Data * Item) :=
  match findItem projectId itemId (items data) with
  | None => Throw "Item not found."
  | Some (itemIndex, removed) =>
      Ok ({| projects := projects data; items := delete itemIndex (items data) |},
          removed)
  end.

(** ** Bulk reorder *)

(** [Array.isArray(columns[status]) ? columns[status] : []]; the payload
    is kept as the map of its array-valued keys. *)
Definition orderedIdsOf (columns : gmap string (list string)) (status : string)
  : list string :=
  default [] (columns !! status).

(** [item.status = status; item.position = index + 1; item.updatedAt = ...] *)
Definition placed (now status : string) (index : nat) (item : Item) : Item :=
  withUpdatedAt (withStatusPosition item status (Z.of_nat index + 1)) now.

(** The body of the inner [forEach]: the first item of the project with
    that id, if any, is rewritten in place. *)
Definition placeItem (now : string) (projectId status : string)
    (items : list Item) (index : nat) (itemId : string) : list Item :=
  match findItem projectId itemId items with
  | Some (k, item) => <[k := placed now status index item]> items
  | None => items
  end.

(** [orderedIds.forEach((itemId, index) => ...)], indices counted from [from]. *)
Fixpoint placeAll (now : string) (projectId status : string) (from : nat)
    (orderedIds : list string) (items : list Item) : list Item :=
  match orderedIds with
  | [] => items
  | itemId :: rest =>
      placeAll now projectId status (S from) rest
        (placeItem now projectId status items from itemId)
  end.

Definition reorderItemsSync (now : string) (projectId : string)
    (columns : gmap string (list string)) (data : Data) : Result (Data * list Item) :=
  let projectExists :=
    bool_decide (Exists (λ project, project_id project = projectId) (projects data)) in
  throwUnless projectExists "Project not found." ;;
  let data' :=
    {| projects := projects data;
       items := foldl (λ items status,
                         placeAll now projectId status 0 (orderedIdsOf columns status) items)
                      (items data) VALID_STATUSES |} in
  Ok (data', getItemsByProjectSync projectId data').

(** ** The relational variant of the reorder *)

(** With [DATABASE_URL] set, projects and items are rows of two tables whose
    [id] and [project_id] columns have the type [UUID]. Text that is bound
    to a parameter compared with such a column is read as a UUID first: the
    statement raises an error when the text is none, and it compares
    UUIDs, not texts, when it is one. Which text is a UUID is the
    database's affair and is a parameter here: [uuid text] is [None] for
    text that is no UUID, and otherwise the UUID in the one form in which
    the database prints it, which is the form in which the rows hold their
    identifiers. [NOW()] is the start of the enclosing transaction, one
    clock reading. *)
Module Relational.
Section uuid.
Variable uuid : string → option string.

Definition invalidUuid (text : string) : string :=
  "invalid input syntax for type uuid: " +:+ text.

(** [UPDATE items SET status = $1, position = $2, updated_at = NOW()
     WHERE id = $3 AND project_id = $4]: every row that matches is
    rewritten. *)
Definition updateWhere (now : string) (projectId status : string)
    (rows : list Item) (index : nat) (itemId : string) : Result (list Item) :=
  match uuid itemId, uuid projectId with
  | Some itemUuid, Some projectUuid =>
      Ok ((λ row, if decide (item_id row = itemUuid ∧ item_projectId row = projectUuid)
                  then placed now status index row else row) <$> rows)
  | None, _ => Throw (invalidUuid itemId)
  | _, None => Throw (invalidUuid projectId)
  end.

(** [for (let index = 0; index < orderedIds.length; index += 1)], indices
    counted from [from]; the first statement that raises ends the loop. *)
Fixpoint updateAll (now : string) (projectId status : string) (from : nat)
    (orderedIds : list string) (rows : list Item) : Result (list Item) :=
  match orderedIds with
  | [] => Ok rows
  | itemId :: rest =>
      rows ← updateWhere now projectId status rows from itemId;
      updateAll now projectId status (S from) rest rows
  end.

(** [reorderItems] between [BEGIN] and [COMMIT]: the rows of [items] once
    committed. When a statement raises, or the project is not found,
    [ROLLBACK] leaves the table as it was and the error is thrown on. *)
Definition reorderItems (now : string) (projectId : string)
    (columns : gmap string (list string)) (data : Data) : Result (list Item) :=
  match uuid projectId with
  | None => Throw (invalidUuid projectId)
  | Some projectUuid =>
      let projectExists :=
        bool_decide (Exists (λ project, project_id project = projectUuid)
                            (projects data)) in
      throwUnless projectExists "Project not found." ;;
      foldl (λ rows status,
               rows ← rows;
               updateAll now projectId status 0 (orderedIdsOf columns status) rows)
            (Ok (items data)) VALID_STATUSES
  end.

End uuid.
End Relational.

(* ===================================================================== *)
(** * What [./db] exports                                                 *)
(* ===================================================================== *)

(** Each export of the file-backed branch is an [async] arrow around the
    [...Sync] function of its name, with no [await] in it: a call runs the
    [...Sync] function then and there, so that the document is written, or
    is not, by the time the call returns, and the caller gets a promise
    that what the [...Sync] function returned fulfils, or what it threw
    rejects. *)

(** A promise in the hands of code that does not await it: an object like
    any other. It is truthy; it has no property [id] or [secretKey]; it has
    no own enumerable property, so that [{ ...promise }] and
    [JSON.stringify(promise)] are the empty object; and it has none of the
    methods of an array. How it settles does not show. *)
Inductive Promise := APromise.

Definition promiseTruthy (promise : Promise) : bool := true.

Definition promiseProperty (promise : Promise) (name : string) : option string := None.

Definition promiseOwn (promise : Promise) : gmap string string := ∅.

(** The document after a call: what the [...Sync] function wrote, when it
    did not throw. *)
Definition written {A} (data : Data) (outcome : Result (Data * A)) : Data :=
  match outcome with
  | Ok (data', _) => data'
  | Throw _ => data
  end.

(** A project identifier handed to an export is a string or [undefined]
    ([None]). No stored project has the identifier [undefined] and no
    stored item the project [undefined], so a call with it finds nothing
    and writes nothing. *)
Definition listProjects (data : Data) : Data * Promise := (data, APromise).

Definition getProjectById (projectId : option string) (data : Data) : Data * Promise :=
  (data, APromise).

Definition getProjectBySecret (secretKey : option string) (data : Data)
  : Data * Promise :=
  (data, APromise).

Definition createProject (uuid now : string) (name secretKey : option string)
    (data : Data) : Data * Promise :=
  (written data (createProjectSync uuid now name secretKey data), APromise).

Definition deleteProject (projectId : option string) (data : Data) : Data * Promise :=
  (from_option (λ projectId, (deleteProjectSync projectId data).1) data projectId,
   APromise).

Definition getItemsByProject (projectId : option string) (data : Data)
  : Data * Promise :=
  (data, APromise).

Definition createItem (uuid now : string) (projectId : option string)
    (title description status : option string) (data : Data) : Data * Promise :=
  (from_option
     (λ projectId,
        written data (createItemSync uuid now projectId title description status data))
     data projectId,
   APromise).

Definition updateItem (now : string) (projectId : option string) (itemId : string)
    (updates : Updates) (data : Data) : Data * Promise :=
  (from_option
     (λ projectId, written data (updateItemSync now projectId itemId updates data))
     data projectId,
   APromise).

Definition deleteItem (projectId : option string) (itemId : string) (data : Data)
  : Data * Promise :=
  (from_option (λ projectId, written data (deleteItemSync projectId itemId data))
               data projectId,
   APromise).

Definition reorderItems (now : string) (projectId : option string)
    (columns : gmap string (list string)) (data : Data) : Data * Promise :=
  (from_option
     (λ projectId, written data (reorderItemsSync now projectId columns data))
     data projectId,
   APromise).

(** ** Calls *)

(** A call of an export, on a project identifier that is a string. *)
Inductive Call :=
| CallListProjects
| CallGetProjectById (projectId : string)
| CallGetProjectBySecret (secretKey : option string)
| CallCreateProject (name secretKey : option string)
| CallDeleteProject (projectId : string)
| CallGetItemsByProject (projectId : string)
| CallCreateItem (projectId : string) (title description status : option string)
| CallUpdateItem (projectId itemId : string) (updates : Updates)
| CallDeleteItem (projectId itemId : string)
| CallReorderItems (projectId : string) (columns : gmap string (list string)).

(** The document after a call, made with the identifier and the clock
    reading it draws. *)
Definition perform (uuid now : string) (call : Call) (data : Data) : Data :=
  fst match call with
      | CallListProjects => listProjects data
      | CallGetProjectById projectId => getProjectById (Some projectId) data
      | CallGetProjectBySecret secretKey => getProjectBySecret secretKey data
      | CallCreateProject name secretKey => createProject uuid now name secretKey data
      | CallDeleteProject projectId => deleteProject (Some projectId) data
      | CallGetItemsByProject projectId => getItemsByProject (Some projectId) data
      | CallCreateItem projectId title description status =>
          createItem uuid now (Some projectId) title description status data
      | CallUpdateItem projectId itemId updates =>
          updateItem now (Some projectId) itemId updates data
      | CallDeleteItem projectId itemId => deleteItem (Some projectId) itemId data
      | CallReorderItems projectId columns =>
          reorderItems now (Some projectId) columns data
      end.

(** Calls made one after the other, and the documents the exports can
    build from the empty one. *)
Definition serve (data : Data) (calls : list (string * string * Call)) : Data :=
  foldl (λ data call, let '(uuid, now, call) := call in perform uuid now call data)
        data calls.

Definition reachable (data : Data) : Prop :=
  ∃ calls, data = serve DEFAULT_DATA calls.

(* ===================================================================== *)
(** * The HTTP handlers                                                   *)
(* ===================================================================== *)

(** A project as a JSON object: its own properties by name. *)
Definition projectObject (project : Project) : gmap string string :=
  <["id" := project_id project]>
    (<["name" := project_name project]>
       (<["secretKey" := project_secretKey project]>
          (<["createdAt" := project_createdAt project]> ∅))).

(** [const { secretKey, ...rest } = project; return rest;]: an object is
    given by its own enumerable properties. *)
Definition sanitizeProject (project : option (gmap string string))
  : option (gmap string string) :=
  match project with
  | None => None
  | Some project => Some (delete "secretKey" project)
  end.

(** What the handlers send: [{ error }], [{ project }], [{ projects }],
    [{ item }] with the item as serialised, [{ columns }], nothing, or, for
    an error thrown out of a handler, the page Express's own error handler
    makes of it. *)
Inductive Body :=
| BodyError (error : string)
| BodyProject (project : option (gmap string string))
| BodyProjects (projects : list (option (gmap string string)))
| BodyItem (item : gmap string string)
| BodyColumns (columns : gmap string (list Item))
| BodyEmpty
| BodyUnhandled (message : string).

Record Response := {
  statusCode : Z;
  body : Body
}.

Definition respond (code : Z) (b : Body) : Response :=
  {| statusCode := code; body := b |}.

(** The names [columns[item.status]] finds on every object, a fresh one
    too: the members of [Object.prototype]. Each is a function or an
    object, hence truthy, and none has a [push]. *)
Definition objectPrototypeMembers : list string :=
  ["constructor"; "__defineGetter__"; "__defineSetter__"; "hasOwnProperty";
   "__lookupGetter__"; "__lookupSetter__"; "isPrototypeOf"; "propertyIsEnumerable";
   "toString"; "valueOf"; "__proto__"; "toLocaleString"].

(** [if (!columns[item.status]) columns[item.status] = [];
     columns[item.status].push(item);] *)
Definition pushItem (columns : gmap string (list Item)) (item : Item)
  : Result (gmap string (list Item)) :=
  match columns !! item_status item with
  | Some column => Ok (<[item_status item := column ++ [item]]> columns)
  | None =>
      if bool_decide (item_status item ∈ objectPrototypeMembers)
      then Throw "columns[item.status].push is not a function"
      else Ok (<[item_status item := [item]]> columns)
  end.

Definition groupItemsByStatus (items : list Item) : Result (gmap string (list Item)) :=
  let columns := foldl (λ acc status, <[status := []]> acc) ∅ VALID_STATUSES in
  foldl (λ acc item, columns ← acc; pushItem columns item) (Ok columns) items.

(** [groupItemsByStatus] handed a promise: [items.forEach] is no function. *)
Definition groupPromise (items : Promise) : Result (gmap string (list Item)) :=
  Throw "items.forEach is not a function".

(** [listProjects().map(sanitizeProject)] on a promise: [map] is no
    function. *)
Definition mapPromise (projects : Promise) : Result (list (option (gmap string string))) :=
  Throw "listProjects(...).map is not a function".

(** The requests of the API. A project-scoped request carries the
    [:projectId] of its path and the [x-project-secret] header, absent or
    a string. *)
Inductive Scoped :=
| GetProject
| DeleteProject
| GetItems
| PostItem (title description status : option string)
| PatchItem (itemId : string) (updates : Updates)
| DeleteItem (itemId : string)
| PostReorder (columns : gmap string (list string)).

Inductive Request :=
| PostProjects (name secretKey : option string)
| PostAccess (secretKey : option string)
| GetProjects
| OnProject (projectId : string) (secretHeader : option string) (route : Scoped).

(** What [requireProjectSecret] does: answer itself, or attach what
    [getProjectById] gave it as [req.project] and call [next]. *)
Inductive Admission :=
| Rejected (response : Response)
| Next (project : Promise).

(** [project] is the promise of [getProjectById]: [!project] is false, and
    [project.secretKey] is [undefined], which is [!==] to every string. *)
Definition requireProjectSecret (projectId : string) (secretHeader : option string)
    (data : Data) : Admission :=
  let providedSecret := Js.trim (Js.orEmpty secretHeader) in
  let '(_, project) := getProjectById (Some projectId) data in
  if negb (promiseTruthy project) then
    Rejected (respond 404 (BodyError "Project not found."))
  else if bool_decide (promiseProperty project "secretKey" ≠ Some providedSecret) then
    Rejected (respond 403 (BodyError "Invalid secret key for this project."))
  else Next project.

(** The handler that runs after the middleware, on [req.project]. Its
    [try] blocks catch what is thrown while they run: the [TypeError] of
    [groupItemsByStatus] on a promise, never the rejection of a promise. *)
Definition scopedHandler (uuid now : string) (project : Promise) (route : Scoped)
    (data : Data) : Data * Response :=
  let projectId := promiseProperty project "id" in
  match route with
  | GetProject =>
      (data, respond 200 (BodyProject (sanitizeProject (Some (promiseOwn project)))))
  | DeleteProject =>
      let '(data', success) := deleteProject projectId data in
      if negb (promiseTruthy success)
      then (data', respond 404 (BodyError "Project not found."))
      else (data', respond 204 BodyEmpty)
  | GetItems =>
      let '(data', items) := getItemsByProject projectId data in
      match groupPromise items with
      | Ok columns => (data', respond 200 (BodyColumns columns))
      | Throw message => (data', respond 500 (BodyUnhandled message))
      end
  | PostItem title description status =>
      let '(data', item) := createItem uuid now projectId title description status data in
      (data', respond 201 (BodyItem (promiseOwn item)))
  | PatchItem itemId updates =>
      let '(data', updated) := updateItem now projectId itemId updates data in
      (data', respond 200 (BodyItem (promiseOwn updated)))
  | DeleteItem itemId =>
      let '(data', _) := deleteItem projectId itemId data in
      (data', respond 204 BodyEmpty)
  | PostReorder columns =>
      let '(data', items) := reorderItems now projectId columns data in
      match groupPromise items with
      | Ok columns => (data', respond 200 (BodyColumns columns))
      | Throw message =>
          if bool_decide (message = "Project not found.")
          then (data', respond 404 (BodyError message))
          else (data', respond 400 (BodyError message))
      end
  end.

(** One request against the store: the new store and the response. *)
Definition handle (uuid now : string) (request : Request) (data : Data)
  : Data * Response :=
  match request with
  | PostProjects name secretKey =>
      let '(data', project) := createProject uuid now name secretKey data in
      (data', respond 201 (BodyProject (sanitizeProject (Some (promiseOwn project)))))
  | PostAccess secretKey =>
      let '(data', project) := getProjectBySecret secretKey data in
      if negb (promiseTruthy project)
      then (data', respond 404 (BodyError "Invalid secret key."))
      else (data', respond 200 (BodyProject (sanitizeProject (Some (promiseOwn project)))))
  | GetProjects =>
      let '(data', projects) := listProjects data in
      match mapPromise projects with
      | Ok projects => (data', respond 200 (BodyProjects projects))
      | Throw message => (data', respond 500 (BodyUnhandled message))
      end
  | OnProject projectId secretHeader route =>
      match requireProjectSecret projectId secretHeader data with
      | Rejected response => (data, response)
      | Next project => scopedHandler uuid now project route data
      end
  end.

(** A run of the service: the requests handled one after the other, each
    with the identifier and the clock reading it draws. *)
Definition run (data : Data) (requests : list (string * string * Request)) : Data :=
  foldl (λ data request,
           let '(uuid, now, request) := request in fst (handle uuid now request data))
        data requests.

(* ===================================================================== *)
(** * The client's drag-end handler                                       *)
(* ===================================================================== *)

Module Client.

(** Modelled from the spec: [COLUMN_ORDER] of [client/src/constants], a
    module that is not among the sources; the four fixed statuses in board
    order. *)
Definition COLUMN_ORDER : list string := VALID_STATUSES.

Definition createEmptyColumns : gmap string (list Item) :=
  foldl (λ acc status, <[status := []]> acc) ∅ COLUMN_ORDER.

(** [incoming] is [None] when falsy; a key is present when it holds an
    array. *)
Definition ensureColumns (incoming : option (gmap string (list Item)))
  : gmap string (list Item) :=
  match incoming with
  | None => createEmptyColumns
  | Some incoming =>
      foldl (λ base status,
               match incoming !! status with
               | Some column => <[status := column]> base
               | None => base
               end)
            createEmptyColumns COLUMN_ORDER
  end.

Definition cloneColumns (columns : gmap string (list Item)) : gmap string (list Item) :=
  foldl (λ cloned status, <[status := default [] (columns !! status)]> cloned)
        ∅ COLUMN_ORDER.

Definition columnsToIds (columns : gmap string (list Item)) : gmap string (list string) :=
  foldl (λ acc status, <[status := item_id <$> default [] (columns !! status)]> acc)
        ∅ COLUMN_ORDER.

(** The part of the component's state the handler closes over. *)
Record Board := {
  project : option string;        (* [project.id], when a project is open *)
  secretKey : string;
  columns : gmap string (list Item)
}.

Definition activeColumns (board : Board) : gmap string (list Item) :=
  ensureColumns (Some (columns board)).

Record Location := {
  droppableId : string;
  index : nat
}.

Record DropResult := {
  destination : option Location;
  source : Location;
  draggableId : string
}.

(** What the handler does to the world, in order. *)
Inductive Effect :=
| SetColumns (columns : gmap string (list Item))
| SetError (message : string)
| ApiReorderItems (projectId secretKey : string) (columns : gmap string (list string))
| RefreshBoard.

(** How the synchronous part of the handler ends. *)
Inductive Completion :=
| Returned
| TypeError
| Awaiting (previous : gmap string (list Item)).

(** [handleDragEnd] up to its [await]. *)
Definition handleDragEnd (board : Board) (result : DropResult)
  : list Effect * Completion :=
  match project board, Js.truthy (secretKey board) with
  | Some projectId, true =>
      match destination result with
      | None => ([], Returned)
      | Some destination =>
          if bool_decide (droppableId destination = droppableId (source result)
                          ∧ index destination = index (source result))
          then ([], Returned)
          else
            let previous := cloneColumns (activeColumns board) in
            let optimistic := cloneColumns (activeColumns board) in
            match optimistic !! droppableId (source result) with
            | None => ([], TypeError)
            | Some sourceItems =>
                let moved := sourceItems !! index (source result) in
                let optimistic :=
                  <[droppableId (source result) := delete (index (source result)) sourceItems]>
                    optimistic in
                match moved with
                | None => ([], Returned)
                | Some moved =>
                    let moved :=
                      withStatusPosition moved (droppableId destination) (item_position moved) in
                    match optimistic !! droppableId destination with
                    | None => ([], TypeError)
                    | Some destinationItems =>
                        let optimistic :=
                          <[droppableId destination :=
                              take (index destination) destinationItems
                              ++ moved :: drop (index destination) destinationItems]>
                            optimistic in
                        ([SetColumns optimistic;
                          SetError EmptyString;
                          ApiReorderItems projectId (secretKey board) (columnsToIds optimistic)],
                         Awaiting previous)
                    end
                end
            end
      end
  | _, _ => ([], Returned)
  end.

(** [handleDragEnd] after its [await]: the server's grouping, or the
    rejection's message. *)
Definition handleDragEndSettled (previous : gmap string (list Item))
    (response : Result (gmap string (list Item))) : list Effect :=
  match response with
  | Ok columns => [SetColumns (ensureColumns (Some columns))]
  | Throw message =>
      [SetColumns previous;
       SetError (if Js.truthy message then message else "Failed to update order.");
       RefreshBoard]
  end.

Definition mutatesColumns (e : Effect) : bool :=
  match e with SetColumns _ => true | _ => false end.

Definition isNetworkCall (e : Effect) : bool :=
  match e with ApiReorderItems _ _ _ | RefreshBoard => true | _ => false end.

End Client.

(* ===================================================================== *)
(** * Vocabulary of the properties                                        *)
(* ===================================================================== *)

(** ** Access *)

(** Secret keys are unique across the projects. *)
Definition secretsUnique (data : Data) : Prop :=
  NoDup (project_secretKey <$> projects data).

(** The project objects a response body carries. *)
Definition carriedProjects (b : Body) : list (option (gmap string string)) :=
  match b with
  | BodyProject project => [project]
  | BodyProjects projects => projects
  | _ => []
  end.

(** The sanitized object of a project: no secret key, the three other
    fields as stored, and nothing else. *)
Definition publicView (project : Project) (o : option (gmap string string)) : Prop :=
  ∃ fields, o = Some fields
    ∧ fields !! "secretKey" = None
    ∧ fields !! "id" = Some (project_id project)
    ∧ fields !! "name" = Some (project_name project)
    ∧ fields !! "createdAt" = Some (project_createdAt project)
    ∧ dom fields = ({["id"; "name"; "createdAt"]} : gset string).

(** ** Positions *)

(** The items of a project, as stored. *)
Definition projectItems (projectId : string) (data : Data) : list Item :=
  filter (λ item, item_projectId item = projectId) (items data).

(** The positions held in a project and status. *)
Definition positionsIn (data : Data) (projectId status : string) : list Z :=
  item_position <$>
    filter (λ item, item_projectId item = projectId ∧ item_status item = status)
           (items data).

(** No two items of one project and status share a position. *)
Definition positionsDistinct (data : Data) : Prop :=
  ∀ projectId status, NoDup (positionsIn data projectId status).

(** A column as the board shows it: the items of that status among the
    sorted items of the project. *)
Definition columnOf (data : Data) (projectId status : string) : list Item :=
  filter (λ item, item_status item = status) (getItemsByProjectSync projectId data).

(** Within every project and status the positions, in display order, are
    strictly increasing. *)
Definition positionsOrdered (data : Data) : Prop :=
  ∀ projectId status,
    StronglySorted Z.lt (item_position <$> columnOf data projectId status).

(** [m] is the greatest of the numbers of [l]. *)
Definition isMaxOf (m : Z) (l : list Z) : Prop :=
  m ∈ l ∧ Forall (λ x, x ≤ m) l.

(** [position] is 1 for an empty column and one more than the greatest
    existing position otherwise. *)
Definition appendedPosition (position : Z) (existing : list Z) : Prop :=
  (existing = [] ∧ position = 1) ∨ (∃ m, isMaxOf m existing ∧ position = m + 1).

(** The positions [1..n]. *)
Definition oneTo (n : nat) : list Z := (λ k, Z.of_nat k + 1) <$> seq 0 n.

(** ** Reorder payloads *)

(** The entries of a reorder payload in the order the two nested loops
    visit them: status, index in that status's sequence, identifier. *)
Definition payloadEntries (columns : gmap string (list string))
  : list (string * nat * string) :=
  status ← VALID_STATUSES;
  imap (λ index itemId, (status, index, itemId)) (orderedIdsOf columns status).

(** All identifiers of a payload, in that same order. *)
Definition payloadIds (columns : gmap string (list string)) : list string :=
  status ← VALID_STATUSES; orderedIdsOf columns status.

(** [itemId] stands at [index] of the sequence of [status] and nowhere
    later in the payload. *)
Definition lastOccurrence (columns : gmap string (list string))
    (status : string) (index : nat) (itemId : string) : Prop :=
  ∃ before after,
    payloadEntries columns = before ++ (status, index, itemId) :: after
    ∧ itemId ∉ (snd <$> after).

(** Every item of the project is the one some identifier of the payload
    designates. *)
Definition coversProject (columns : gmap string (list string)) (projectId : string)
    (data : Data) : Prop :=
  ∀ k item, items data !! k = Some item → item_projectId item = projectId →
    item_id item ∈ payloadIds columns
    ∧ findItem projectId (item_id item) (items data) = Some (k, item).

(** A request other than a reorder, or a reorder whose payload covers the
    project; and the same of a call. *)
Definition reorderCovers (request : Request) (data : Data) : Prop :=
  match request with
  | OnProject projectId _ (PostReorder columns) => coversProject columns projectId data
  | _ => True
  end.

Definition callCovers (call : Call) (data : Data) : Prop :=
  match call with
  | CallReorderItems projectId columns => coversProject columns projectId data
  | _ => True
  end.

(** The write of one payload entry, and the writes of a list of entries
    one after the other. *)
Definition applyEntry (now projectId : string) (items : list Item)
    (entry : string * nat * string) : list Item :=
  placeItem now projectId entry.1.1 items entry.1.2 entry.2.

Definition runEntries (now projectId : string) (items : list Item)
    (entries : list (string * nat * string)) : list Item :=
  foldl (applyEntry now projectId) items entries.

(** The payload with every identifier in the form in which the database
    prints it; text that is no UUID is kept as it is. *)
Definition canonicalColumns (uuid : string → option string)
    (columns : gmap string (list string)) : gmap string (list string) :=
  (λ orderedIds : list string,
     (λ itemId, default itemId (uuid itemId)) <$> orderedIds) <$> columns.

(** What a write never changes. *)
Definition itemFrame (item : Item) : string * string * string * string * string :=
  (item_id item, item_projectId item, item_title item, item_description item,
   item_createdAt item).

(** The index of the item an identifier designates, and the entries that
    designate the item at index [k]. *)
Definition target (projectId itemId : string) (items : list Item) : option nat :=
  fst <$> findItem projectId itemId items.

Definition aimsAt (projectId : string) (items : list Item) (k : nat)
    (entry : string * nat * string) : Prop :=
  target projectId entry.2 items = Some k.

#[global] Instance aimsAt_dec projectId items k entry :
  Decision (aimsAt projectId items k entry).
Proof. unfold aimsAt. apply _. Defined.

(** ** Modification times *)

(** An item, and what a grouping gives, without the modification times. *)
Definition withoutUpdatedAt (item : Item) : Item := withUpdatedAt item EmptyString.

Definition forgetUpdatedAt (grouping : Result (gmap string (list Item)))
  : Result (gmap string (list Item)) :=
  match grouping with
  | Ok columns => Ok ((λ column : list Item, withoutUpdatedAt <$> column) <$> columns)
  | Throw message => Throw message
  end.

(** ** Grouping *)

(** The columns [groupItemsByStatus] returns, when it returns: the four of
    the board, and one for any other status it meets, each with its items
    in the order of the list. *)
Definition appendItem (columns : gmap string (list Item)) (item : Item)
  : gmap string (list Item) :=
  <[item_status item := default [] (columns !! item_status item) ++ [item]]> columns.

Definition grouped (items : list Item) : gmap string (list Item) :=
  foldl appendItem (foldl (λ acc status, <[status := []]> acc) ∅ VALID_STATUSES) items.

(** No status that is the name of a member of [Object.prototype]. *)
Definition groupable (items : list Item) : Prop :=
  Forall (λ item, item_status item ∉ objectPrototypeMembers) items.

(* ===================================================================== *)
(** * A small board                                                       *)
(* ===================================================================== *)

(** One project with two cards in its backlog, built by three calls. *)
Definition demoCalls : list (string * string * Call) :=
  [("p1", "t0", CallCreateProject (Some "Ordering Board") (Some "order-me"));
   ("a", "t1", CallCreateItem "p1" (Some "Task 1") None None);
   ("b", "t2", CallCreateItem "p1" (Some "Task 2") None None)].

Definition demoData : Data := serve DEFAULT_DATA demoCalls.

Definition demoProject : Project :=
  {| project_id := "p1"; project_name := "Ordering Board";
     project_secretKey := "order-me"; project_createdAt := "t0" |}.

Definition taskA : Item :=
  {| item_id := "a"; item_projectId := "p1"; item_title := "Task 1";
     item_description := EmptyString; item_status := "backlog";
     item_position := 1; item_createdAt := "t1"; item_updatedAt := "t1" |}.

Definition taskB : Item :=
  {| item_id := "b"; item_projectId := "p1"; item_title := "Task 2";
     item_description := EmptyString; item_status := "backlog";
     item_position := 2; item_createdAt := "t2"; item_updatedAt := "t2" |}.

(** The secret of the board followed by a no-break space (code unit 160). *)
Definition paddedSecret : string := "order-me" +:+ String "160"%char EmptyString.

(** Reorder payloads: the two cards swapped; the first card named twice;
    the second card alone; an unknown identifier in front of the two. *)
Definition swapColumns : gmap string (list string) :=
  <["backlog" := ["b"; "a"]]> ∅.

Definition repeatedColumns : gmap string (list string) :=
  <["backlog" := ["a"; "a"]]> ∅.

Definition partialColumns : gmap string (list string) :=
  <["backlog" := ["b"]]> ∅.

Definition ghostColumns : gmap string (list string) :=
  <["backlog" := ["ghost"; "a"; "b"]]> ∅.

(** The first card named again behind an unknown identifier. *)
Definition ghostBetweenColumns : gmap string (list string) :=
  <["backlog" := ["a"; "ghost"; "a"]]> ∅.

(** ** The small board as rows *)

(** UUID text in its usual spelling: thirty-two hexadecimal digits in
    groups of 8, 4, 4, 4 and 12 with a hyphen between the groups, letters in
    either case; the database prints it in lower case. This reading serves
    the examples: the theorems on the relational variant hold for any
    reading. *)
Definition isHexDigit (c : ascii) : bool :=
  let n := nat_of_ascii c in
  ((48 <=? n) && (n <=? 57) || (65 <=? n) && (n <=? 70) || (97 <=? n) && (n <=? 102))%nat.

Definition lowerCase (c : ascii) : ascii :=
  let n := nat_of_ascii c in
  if ((65 <=? n) && (n <=? 90))%nat then ascii_of_nat (n + 32) else c.

Definition uuidText (text : string) : option string :=
  let chars := String.list_ascii_of_string text in
  let shaped :=
    imap (λ index c,
            if bool_decide (index ∈ [8; 13; 18; 23]%nat)
            then bool_decide (c = "-"%char) else isHexDigit c) chars in
  if bool_decide (length chars = 36%nat) && forallb id shaped
  then Some (String.string_of_list_ascii (lowerCase <$> chars))
  else None.

Definition rowsProject : string := "11111111-1111-4111-8111-111111111111".
Definition rowA : string := "aaaaaaaa-aaaa-4aaa-8aaa-aaaaaaaaaaaa".
Definition rowB : string := "bbbbbbbb-bbbb-4bbb-8bbb-bbbbbbbbbbbb".

(** The project and its two cards with identifiers of the database's
    making. *)
Definition rowsData : Data :=
  {| projects :=
       [{| project_id := rowsProject; project_name := "Ordering Board";
           project_secretKey := "order-me"; project_createdAt := "t0" |}];
     items :=
       [{| item_id := rowA; item_projectId := rowsProject; item_title := "Task 1";
           item_description := EmptyString; item_status := "backlog";
           item_position := 1; item_createdAt := "t1"; item_updatedAt := "t1" |};
        {| item_id := rowB; item_projectId := rowsProject; item_title := "Task 2";
           item_description := EmptyString; item_status := "backlog";
           item_position := 2; item_createdAt := "t2"; item_updatedAt := "t2" |}] |}.

(** Reorder payloads for the rows: an identifier of no row in front of
    the two cards, the second card spelled in upper case; and text that is
    no UUID in front of them. *)
Definition strangerRowsColumns : gmap string (list string) :=
  <["backlog" := ["cccccccc-cccc-4ccc-8ccc-cccccccccccc"; rowA;
                  "BBBBBBBB-BBBB-4BBB-8BBB-BBBBBBBBBBBB"]]> ∅.

Definition ghostRowsColumns : gmap string (list string) :=
  <["backlog" := ["ghost"; rowA; rowB]]> ∅.

(** A client showing the board. *)
Definition demoBoard : Client.Board :=
  {| Client.project := Some "p1";
     Client.secretKey := "order-me";
     Client.columns := grouped (getItemsByProjectSync "p1" demoData) |}.

(** The second card of the backlog dropped where it was. *)
Definition sameSpotDrop : Client.DropResult :=
  {| Client.destination := Some {| Client.droppableId := "backlog"; Client.index := 1 |};
     Client.source := {| Client.droppableId := "backlog"; Client.index := 1 |};
     Client.draggableId := "b" |}.

(** A drag from index 2 of the backlog, which holds two cards only. *)
Definition staleDrop : Client.DropResult :=
  {| Client.destination := Some {| Client.droppableId := "done"; Client.index := 0 |};
     Client.source := {| Client.droppableId := "backlog"; Client.index := 2 |};
     Client.draggableId := "c" |}.

(** The first card of the backlog dropped on top of "in progress". *)
Definition moveDrop : Client.DropResult :=
  {| Client.destination := Some {| Client.droppableId := "in_progress"; Client.index := 0 |};
     Client.source := {| Client.droppableId := "backlog"; Client.index := 0 |};
     Client.draggableId := "a" |}.

(* ===================================================================== *)
(** * Further vocabulary                                                  *)
(* ===================================================================== *)

(** ** The order of the board *)

(** The rank [sortItems] gives a status: its index among the four, and 0
    for any other string. *)
Definition statusRank (item : Item) : Z :=
  default 0 (statusOrder !! item_status item).

(** Not after, in the order of [sortItems]: by rank, then by position. *)
Definition boardOrder (a b : Item) : Prop :=
  statusRank a < statusRank b
  ∨ (statusRank a = statusRank b ∧ item_position a ≤ item_position b).

(** The comparison that is left of [compareItems] within one status. *)
Definition byPosition (a b : Item) : Z := item_position a - item_position b.

(** The board of a project: its items as [getItemsByProjectSync] returns
    them, grouped by status. *)
Definition boardOf (projectId : string) (data : Data) : gmap string (list Item) :=
  grouped (getItemsByProjectSync projectId data).

(** The stored items of a project and status, in stored order. *)
Definition storedIn (data : Data) (projectId status : string) : list Item :=
  filter (λ item, item_projectId item = projectId ∧ item_status item = status)
         (items data).

(** ** Stores the exports build *)

(** An item as the exports store it: a status of the board, a position from 1
    on, a title that is not empty, and a project that exists. *)
Definition itemWellFormed (data : Data) (item : Item) : Prop :=
  item_status item ∈ VALID_STATUSES
  ∧ 1 ≤ item_position item
  ∧ Js.truthy (item_title item) = true
  ∧ Exists (λ project, project_id project = item_projectId item) (projects data).

(** A project as the exports store it: a name and a secret that are not
    empty. *)
Definition projectWellFormed (project : Project) : Prop :=
  Js.truthy (project_name project) = true
  ∧ Js.truthy (project_secretKey project) = true.

Definition wellFormed (data : Data) : Prop :=
  Forall (itemWellFormed data) (items data)
  ∧ Forall projectWellFormed (projects data).

(** All identifiers of a store, and their uniqueness. *)
Definition allIds (data : Data) : list string :=
  (item_id <$> items data) ++ (project_id <$> projects data).

Definition idsUnique (data : Data) : Prop :=
  NoDup (item_id <$> items data) ∧ NoDup (project_id <$> projects data).

(** The requests that only read. *)
Definition readsOnly (request : Request) : bool :=
  match request with
  | PostAccess _ | GetProjects
  | OnProject _ _ GetProject | OnProject _ _ GetItems => true
  | _ => false
  end.

(** The project a call is made on, if it is made on one. *)
Definition callProject (call : Call) : option string :=
  match call with
  | CallListProjects | CallGetProjectBySecret _ | CallCreateProject _ _ => None
  | CallGetProjectById projectId | CallDeleteProject projectId
  | CallGetItemsByProject projectId | CallCreateItem projectId _ _ _
  | CallUpdateItem projectId _ _ | CallDeleteItem projectId _
  | CallReorderItems projectId _ => Some projectId
  end.

(** ** Outcomes *)

(** What the creation and the update of an item refuse with a validation
    error: for a creation a title that is missing or blank, or a status
    that is not one of the four; for an update a title that is given and
    blank, or a status that is given and not one of the four. *)
Definition refusedItem (title status : option string) : bool :=
  negb (Js.truthy (Js.trim (Js.orEmpty title)))
  || bool_decide (default "backlog" status ∉ VALID_STATUSES).

Definition refusedUpdates (updates : Updates) : bool :=
  match updates_title updates with
  | Some title => negb (Js.truthy (Js.trim title))
  | None => false
  end
  || match updates_status updates with
     | Some status => bool_decide (status ∉ VALID_STATUSES)
     | None => false
     end.

(** ** The relational variant of the next position *)

Module Postgres.

(** [MAX(position)] over the selected rows: [NULL] when there is none. *)
Definition maxPosition (rows : list Item) : option Z :=
  foldr (λ row acc, Some (match acc with
                          | None => item_position row
                          | Some m => Z.max (item_position row) m
                          end))
        None rows.

(** [SELECT COALESCE(MAX(position), 0) + 1 AS next_position FROM items
     WHERE project_id = $1 AND status = $2]: the aggregate always yields
    one row, so the [?? 1] of the source is never taken. *)
Definition computeNextPosition (rows : list Item) (projectId status : string) : Z :=
  let selected :=
    filter (λ row, item_projectId row = projectId ∧ item_status row = status) rows in
  default 0 (maxPosition selected) + 1.

End Postgres.

(** ** The client's other updates of the board *)

Module Updaters.

(** The function [handleAddItem] passes to [setColumns] once the item is
    created. [next[status]] is [undefined] for a status that is no column,
    and spreading it raises a TypeError: [None]. *)
Definition handleAddItem (status : string) (created : Item)
    (prev : gmap string (list Item)) : option (gmap string (list Item)) :=
  let next := Client.cloneColumns prev in
  column ← next !! status;
  Some (<[status := column ++ [created]]> next).

(** The function [handleUpdateItem] passes to [setColumns] once the item
    is updated; [undefined.map] raises a TypeError: [None]. *)
Definition handleUpdateItem (itemId : string) (updated : Item)
    (prev : gmap string (list Item)) : option (gmap string (list Item)) :=
  let next := Client.cloneColumns prev in
  let status := item_status updated in
  column ← next !! status;
  Some (<[status := (λ item, if decide (item_id item = itemId) then updated else item)
                      <$> column]> next).

(** The function [handleDeleteItem] passes to [setColumns] once the item
    is deleted. Every status of [COLUMN_ORDER] is a key of the clone, so
    that [next[status].filter] is always defined. *)
Definition handleDeleteItem (itemId : string) (prev : gmap string (list Item))
  : gmap string (list Item) :=
  let next := Client.cloneColumns prev in
  foldl (λ next status, alter (filter (λ item, item_id item ≠ itemId)) status next)
        next Client.COLUMN_ORDER.

End Updaters.

(** The cards of a board, column after column. *)
Definition cardsOf (columns : gmap string (list Item)) : list Item :=
  status ← Client.COLUMN_ORDER; default [] (columns !! status).

(** A client that shows the board of a project as the store holds it. *)
Definition inSync (board : Client.Board) (projectId : string) (data : Data) : Prop :=
  Client.project board = Some projectId
  ∧ Client.columns board = boardOf projectId data.

(* ===================================================================== *)
(** * Properties                                                          *)
(* ===================================================================== *)

(** ** Results *)

Lemma throwUnless_Ok ok message : throwUnless ok message = Ok tt ↔ ok = true.
Proof. destruct ok; simpl; split; intros; congruence. Qed.

Lemma bind_Ok {A B} (r : Result A) (k : A → Result B) b :
  r ≫= k = Ok b ↔ ∃ a, r = Ok a ∧ k a = Ok b.
Proof.
  destruct r as [a|m]; simpl.
  - split; [eauto|]. by intros (a' & [= ->] & ?).
  - split; [done|]. by intros (a' & ? & ?).
Qed.

(** ** What the operations store *)

Lemma getProjectByIdSync_Some projectId data project :
  getProjectByIdSync projectId data = Some project →
  project ∈ projects data ∧ project_id project = projectId.
Proof.
  unfold getProjectByIdSync. intros H.
  apply fmap_Some in H as ([k p] & Hfind & ->).
  apply list_find_Some in Hfind as (Hk & Hp & _).
  split; [by eapply list_elem_of_lookup_2 | done].
Qed.

Lemma getProjectBySecretSync_Some secretKey data project :
  getProjectBySecretSync secretKey data = Some project →
  project ∈ projects data
  ∧ project_secretKey project = Js.trim (Js.orEmpty secretKey).
Proof.
  unfold getProjectBySecretSync. destruct (Js.truthy _); [|done].
  intros ([k p] & Hfind & ->)%fmap_Some.
  apply list_find_Some in Hfind as (Hk & Hp & _).
  split; [by eapply list_elem_of_lookup_2 | done].
Qed.

Lemma createProjectSync_Ok uuid now name secretKey data data' project :
  createProjectSync uuid now name secretKey data = Ok (data', project) →
  Js.truthy (Js.trim (Js.orEmpty name)) = true
  ∧ Js.truthy (Js.trim (Js.orEmpty secretKey)) = true
  ∧ Forall (λ p, project_secretKey p ≠ Js.trim (Js.orEmpty secretKey)) (projects data)
  ∧ project = {| project_id := uuid;
                 project_name := Js.trim (Js.orEmpty name);
                 project_secretKey := Js.trim (Js.orEmpty secretKey);
                 project_createdAt := now |}
  ∧ data' = {| projects := projects data ++ [project]; items := items data |}.
Proof.
  unfold createProjectSync. intros H.
  apply bind_Ok in H as ([] & Hname%throwUnless_Ok & H).
  apply bind_Ok in H as ([] & Hkey%throwUnless_Ok & H).
  apply bind_Ok in H as ([] & Hfree%throwUnless_Ok & H).
  apply bool_decide_eq_true in Hfree. apply list_find_None in Hfree.
  injection H as <- <-. done.
Qed.

Lemma createItemSync_Ok uuid now projectId title description status data data' item :
  createItemSync uuid now projectId title description status data = Ok (data', item) →
  default "backlog" status ∈ VALID_STATUSES
  ∧ item = {| item_id := uuid;
              item_projectId := projectId;
              item_title := Js.trim (Js.orEmpty title);
              item_description := Js.trim (default EmptyString description);
              item_status := default "backlog" status;
              item_position :=
                nextPositionForStatus data projectId (default "backlog" status);
              item_createdAt := now;
              item_updatedAt := now |}
  ∧ data' = {| projects := projects data; items := items data ++ [item] |}.
Proof.
  unfold createItemSync. intros H.
  apply bind_Ok in H as ([] & _ & H).
  apply bind_Ok in H as ([] & Hvalid%throwUnless_Ok & H).
  apply bind_Ok in H as ([] & _ & H).
  apply bool_decide_eq_true in Hvalid. injection H as <- <-. done.
Qed.

Lemma deleteItemSync_Ok projectId itemId data data' removed :
  deleteItemSync projectId itemId data = Ok (data', removed) →
  ∃ k, findItem projectId itemId (items data) = Some (k, removed)
       ∧ data' = {| projects := projects data; items := delete k (items data) |}.
Proof.
  unfold deleteItemSync. destruct (findItem _ _ _) as [[k x]|]; [|done].
  intros [= <- <-]. eauto.
Qed.

(** What a successful PATCH stores: the item found, with the new title and
    description when given, and moved to the end of the destination column
    when the status changes. *)
Lemma updateItemSync_Ok now projectId itemId updates data data' updated :
  updateItemSync now projectId itemId updates data = Ok (data', updated) →
  ∃ k item,
    findItem projectId itemId (items data) = Some (k, item)
    ∧ data' = {| projects := projects data; items := <[k := updated]> (items data) |}
    ∧ item_id updated = item_id item
    ∧ item_projectId updated = item_projectId item
    ∧ match updates_status updates with
      | Some status =>
          status ∈ VALID_STATUSES
          ∧ item_status updated = status
          ∧ item_position updated =
              (if decide (status = item_status item) then item_position item
               else nextPositionForStatus data projectId status)
      | None => item_status updated = item_status item
                ∧ item_position updated = item_position item
      end.
Proof.
  unfold updateItemSync. destruct (findItem _ _ _) as [[k item]|]; [|done].
  intros H. exists k, item. split; [done|].
  apply bind_Ok in H as (item1 & H1 & H).
  apply bind_Ok in H as (item2 & H2 & H).
  injection H as <- <-.
  assert (item_id item1 = item_id item ∧ item_projectId item1 = item_projectId item
          ∧ item_status item1 = item_status item
          ∧ item_position item1 = item_position item) as (Hi & Hp & Hs & Hpos).
  { destruct (updates_title updates); [|by simplify_eq].
    apply bind_Ok in H1 as ([] & _ & [= <-]). done. }
  set (item1' := match updates_description updates with
                 | Some d => withDescription item1 (Js.trim d) | None => item1 end) in *.
  assert (item_id item1' = item_id item ∧ item_projectId item1' = item_projectId item
          ∧ item_status item1' = item_status item
          ∧ item_position item1' = item_position item) as (Hi' & Hp' & Hs' & Hpos').
  { subst item1'. by destruct (updates_description updates). }
  clearbody item1'. clear H1.
  split; [done|].
  destruct (updates_status updates) as [status|].
  - apply bind_Ok in H2 as ([] & Hvalid%throwUnless_Ok & H2).
    apply bool_decide_eq_true in Hvalid.
    case_bool_decide; simplify_eq; simpl; rewrite ?decide_False, ?decide_True by done;
      split_and!; try done.
  - simplify_eq. simpl. done.
Qed.

Lemma reorderItemsSync_Ok now projectId columns data data' response :
  reorderItemsSync now projectId columns data = Ok (data', response) →
  Exists (λ project, project_id project = projectId) (projects data)
  ∧ data' = {| projects := projects data;
               items := foldl (λ items status,
                                 placeAll now projectId status 0
                                          (orderedIdsOf columns status) items)
                              (items data) VALID_STATUSES |}
  ∧ response = getItemsByProjectSync projectId data'.
Proof.
  unfold reorderItemsSync. intros H.
  apply bind_Ok in H as ([] & Hex%throwUnless_Ok & H).
  apply bool_decide_eq_true in Hex. injection H as <- <-. done.
Qed.

Lemma reorderItemsSync_exists now projectId columns data :
  Exists (λ project, project_id project = projectId) (projects data) →
  ∃ data' response, reorderItemsSync now projectId columns data = Ok (data', response).
Proof.
  intros Hex. unfold reorderItemsSync. rewrite bool_decide_eq_true_2 by done.
  simpl. eauto.
Qed.

(** ** What a call writes *)

Lemma written_Ok {A} data (outcome : Result (Data * A)) data' (a : A) :
  outcome = Ok (data', a) → written data outcome = data'.
Proof. by intros ->. Qed.

(** The document after a call, by cases. *)
Lemma perform_cases uuid now call data data' :
  perform uuid now call data = data' →
  data' = data
  ∨ (∃ name secretKey project,
       call = CallCreateProject name secretKey
       ∧ createProjectSync uuid now name secretKey data = Ok (data', project))
  ∨ (∃ projectId,
       call = CallDeleteProject projectId
       ∧ deleteProjectSync projectId data = (data', true))
  ∨ (∃ projectId title description status item,
       call = CallCreateItem projectId title description status
       ∧ createItemSync uuid now projectId title description status data
         = Ok (data', item))
  ∨ (∃ projectId itemId updates item,
       call = CallUpdateItem projectId itemId updates
       ∧ updateItemSync now projectId itemId updates data = Ok (data', item))
  ∨ (∃ projectId itemId item,
       call = CallDeleteItem projectId itemId
       ∧ deleteItemSync projectId itemId data = Ok (data', item))
  ∨ (∃ projectId columns items',
       call = CallReorderItems projectId columns
       ∧ reorderItemsSync now projectId columns data = Ok (data', items')).
Proof.
  intros <-.
  destruct call; unfold perform, listProjects, getProjectById, getProjectBySecret,
    createProject, deleteProject, getItemsByProject, createItem, updateItem,
    deleteItem, reorderItems; simpl; try (by left).
  - destruct (createProjectSync _ _ _ _ _) as [[data' project]|] eqn:H; [|by left].
    right; left. by exists name, secretKey, project.
  - destruct (deleteProjectSync projectId data) as [data' []] eqn:H; simpl.
    + right; right; left. by exists projectId.
    + left. unfold deleteProjectSync in H.
      destruct (list_find _ _) as [[]|]; by simplify_eq.
  - destruct (createItemSync _ _ _ _ _ _ _) as [[data' item]|] eqn:H; [|by left].
    do 3 right; left. by exists projectId, title, description, status, item.
  - destruct (updateItemSync _ _ _ _ _) as [[data' item]|] eqn:H; [|by left].
    do 4 right; left. by exists projectId, itemId, updates, item.
  - destruct (deleteItemSync _ _ _) as [[data' item]|] eqn:H; [|by left].
    do 5 right; left. by exists projectId, itemId, item.
  - destruct (reorderItemsSync _ _ _ _) as [[data' items']|] eqn:H; [|by left].
    do 6 right. by exists projectId, columns, items'.
Qed.

(** What holds of the empty document and is kept by every call holds of
    every document the exports build. *)
Lemma reachable_ind (P : Data → Prop) :
  P DEFAULT_DATA →
  (∀ uuid now call data, P data → P (perform uuid now call data)) →
  ∀ data, reachable data → P data.
Proof.
  intros Hinit Hstep data [calls ->]. unfold serve.
  revert Hinit. generalize DEFAULT_DATA.
  induction calls as [|[[uuid now] call] calls IH]; intros data Hdata; [done|].
  simpl. apply IH. by apply Hstep.
Qed.

(** ** What the program answers *)

(** The middleware never finds the project missing and never lets a
    request through. *)
Lemma requireProjectSecret_rejects projectId secretHeader data :
  requireProjectSecret projectId secretHeader data
  = Rejected (respond 403 (BodyError "Invalid secret key for this project.")).
Proof. done. Qed.

(** Each answer, and the store it leaves. *)
Lemma handle_answers uuid now request data :
  handle uuid now request data
  = match request with
    | PostProjects name secretKey =>
        (perform uuid now (CallCreateProject name secretKey) data,
         respond 201 (BodyProject (Some ∅)))
    | PostAccess _ => (data, respond 200 (BodyProject (Some ∅)))
    | GetProjects =>
        (data, respond 500 (BodyUnhandled "listProjects(...).map is not a function"))
    | OnProject _ _ _ =>
        (data, respond 403 (BodyError "Invalid secret key for this project."))
    end.
Proof. destruct request; done. Qed.

(** A request writes what one call writes, or nothing. *)
Lemma handle_performs uuid now request data :
  (handle uuid now request data).1 = data
  ∨ ∃ call, (handle uuid now request data).1 = perform uuid now call data.
Proof.
  rewrite handle_answers. destruct request; simpl; eauto.
Qed.

Lemma handle_keeps (P : Data → Prop) uuid now request data :
  (∀ call, P data → P (perform uuid now call data)) →
  P data → P (handle uuid now request data).1.
Proof.
  intros Hcall Hdata.
  destruct (handle_performs uuid now request data) as [->|[call ->]]; auto.
Qed.

(** ** The secret check *)

(** C5 (the program does otherwise). Whatever the project of its path and
    whatever its secret header, a project-scoped request is answered 403
    and leaves the store alone. A request for a project that does not
    exist therefore gets the status of a wrong secret, not 404: on the
    small board, so it is for the project [no-such-project], which
    [getProjectByIdSync] does not find. *)
Theorem missing_project_is_answered_403 :
  (∀ uuid now projectId secretHeader route data,
     handle uuid now (OnProject projectId secretHeader route) data
     = (data, respond 403 (BodyError "Invalid secret key for this project.")))
  ∧ getProjectByIdSync "no-such-project" demoData = None
  ∧ statusCode (handle "u" "t3" (OnProject "no-such-project" (Some "order-me") GetProject)
                       demoData).2 = 403
  ∧ statusCode (handle "u" "t3" (OnProject "p1" (Some "wrong-key") GetProject)
                       demoData).2 = 403.
Proof. split_and!; [intros; by rewrite handle_answers|done..]. Qed.

(** C6 (the program does otherwise). A request that presents the stored
    secret of the project of its path, byte for byte, is denied like any
    other: on the small board the project [p1] holds the secret
    [order-me], and a request for it with that secret is answered 403. *)
Theorem exact_secret_is_denied :
  (∀ uuid now project route data,
     project ∈ projects data →
     handle uuid now (OnProject (project_id project) (Some (project_secretKey project))
                                route) data
     = (data, respond 403 (BodyError "Invalid secret key for this project.")))
  ∧ getProjectByIdSync "p1" demoData = Some demoProject
  ∧ project_secretKey demoProject = "order-me"
  ∧ handle "u" "t3" (OnProject "p1" (Some "order-me") GetProject) demoData
    = (demoData, respond 403 (BodyError "Invalid secret key for this project.")).
Proof. split_and!; [intros; by rewrite handle_answers|done..]. Qed.

Lemma exact_secret_is_denied_witness :
  handle "u" "t3" (OnProject "p1" (Some "order-me") (DeleteItem "a")) demoData
  = (demoData, respond 403 (BodyError "Invalid secret key for this project.")).
Proof.
  refine (proj1 exact_secret_is_denied "u" "t3" demoProject (DeleteItem "a") demoData _).
  vm_compute. by left.
Defined.

(** ** Project objects in responses *)

Lemma sanitizeProject_spec o :
  ∃ o', sanitizeProject (Some o) = Some o'
        ∧ o' !! "secretKey" = None
        ∧ ∀ key, key ≠ "secretKey" → o' !! key = o !! key.
Proof.
  exists (delete "secretKey" o). split_and!; [done| |].
  - apply lookup_delete_eq.
  - intros key Hkey. by apply lookup_delete_ne.
Qed.

Lemma sanitized_publicView project :
  publicView project (sanitizeProject (Some (projectObject project))).
Proof.
  eexists. split; [done|]. unfold projectObject.
  split_and!; by simplify_map_eq.
Qed.

(** C7 (the program does otherwise). [sanitizeProject] takes the secret
    key off a project object and keeps the rest. But no handler hands it
    a project object: each hands it a promise, whose own properties are
    none, so that every project object a response carries is empty. It
    holds no secret key, and no [id], [name] or [createdAt] either: the
    answer to the creation of the first project of the small board is 201
    with an empty project, while the project is stored. *)
Theorem sent_project_is_empty :
  (∀ project, publicView project (sanitizeProject (Some (projectObject project))))
  ∧ (∀ uuid now request data,
       Forall (λ o, o = Some ∅)
              (carriedProjects (body (handle uuid now request data).2)))
  ∧ handle "p1" "t0" (PostProjects (Some "Ordering Board") (Some "order-me")) DEFAULT_DATA
    = ({| projects := [demoProject]; items := [] |}, respond 201 (BodyProject (Some ∅)))
  ∧ ¬ publicView demoProject (Some ∅).
Proof.
  split_and!.
  - apply sanitized_publicView.
  - intros. rewrite handle_answers. destruct request; simpl; by repeat constructor.
  - done.
  - intros (fields & [= <-] & _ & Hid & _). by rewrite lookup_empty in Hid.
Qed.

(** ** Secret keys *)

(** Only the creation and the deletion of a project change the projects. *)
Lemma perform_projects uuid now call data :
  projects (perform uuid now call data) = projects data
  ∨ (∃ project, projects (perform uuid now call data) = projects data ++ [project]
                ∧ Forall (λ p, project_secretKey p ≠ project_secretKey project)
                         (projects data))
  ∨ (∃ k, projects (perform uuid now call data) = delete k (projects data)).
Proof.
  remember (perform uuid now call data) as data' eqn:Hdata'. symmetry in Hdata'.
  destruct (perform_cases _ _ _ _ _ Hdata')
    as [->|[(name & secretKey & project & _ & H)
           |[(projectId & _ & H)
            |[(projectId & title & description & status & item & _ & H)
             |[(projectId & itemId & updates & item & _ & H)
              |[(projectId & itemId & item & _ & H)
               |(projectId & columns & items' & _ & H)]]]]]].
  - by left.
  - apply createProjectSync_Ok in H as (_ & _ & Hfree & Hp & ->).
    right; left. exists project. split; [done|]. by rewrite Hp.
  - unfold deleteProjectSync in H. destruct (list_find _ _) as [[k p]|]; [|done].
    injection H as <-. right; right. by exists k.
  - apply createItemSync_Ok in H as (_ & _ & ->). by left.
  - apply updateItemSync_Ok in H as (k & old & _ & -> & _). by left.
  - apply deleteItemSync_Ok in H as (k & _ & ->). by left.
  - apply reorderItemsSync_Ok in H as (_ & -> & _). by left.
Qed.

Lemma perform_secretsUnique uuid now call data :
  secretsUnique data → secretsUnique (perform uuid now call data).
Proof.
  unfold secretsUnique. intros Hunique.
  destruct (perform_projects uuid now call data)
    as [-> | [(project & -> & Hfree) | (k & ->)]]; [done| |].
  - rewrite fmap_app. apply NoDup_app. split_and!; [done| |apply NoDup_singleton].
    intros key Hkey [= ->]%list_elem_of_singleton.
    apply list_elem_of_fmap in Hkey as (p & Heq & Hin).
    rewrite Forall_forall in Hfree. by apply (Hfree p).
  - apply (sublist_NoDup _ (project_secretKey <$> projects data)); [exact Hunique|].
    apply fmap_sublist, sublist_delete.
Qed.

Lemma reachable_secretsUnique data : reachable data → secretsUnique data.
Proof.
  apply reachable_ind; [apply NoDup_nil_2|]. intros. by apply perform_secretsUnique.
Qed.

Lemma secretsUnique_lookup data secretKey found other :
  secretsUnique data →
  getProjectBySecretSync secretKey data = Some found →
  other ∈ projects data →
  project_secretKey other = project_secretKey found →
  other = found.
Proof.
  intros Hunique [Hin _]%getProjectBySecretSync_Some Hother Hkey.
  apply list_elem_of_lookup in Hin as [i Hi].
  apply list_elem_of_lookup in Hother as [j Hj].
  assert (i = j) as ->; [|congruence].
  eapply NoDup_lookup; [exact Hunique| |]; rewrite list_lookup_fmap.
  - by rewrite Hi.
  - rewrite Hj. simpl. by rewrite Hkey.
Qed.



(** ** Lists *)

Section lists.
Context {A B : Type}.
Implicit Types l : list A.

(** Distinctness of the images of the selected elements, by indices. *)
Lemma NoDup_fmap_filter_lookup (f : A → B) (P : A → Prop) `{!∀ x, Decision (P x)} l :
  NoDup (f <$> filter P l)
  ↔ ∀ i j x y, l !! i = Some x → l !! j = Some y → P x → P y → f x = f y → i = j.
Proof.
  induction l as [|a l IH].
  - split; [by intros _ i j x y [=]|]. intros _. constructor.
  - rewrite filter_cons. split.
    + intros Hnd i j x y Hi Hj Px Py Hf.
      assert (NoDup (f <$> filter P l)) as Hnd'.
      { case_decide; [by apply NoDup_cons in Hnd as [_ ?]|done]. }
      assert (∀ k z, l !! k = Some z → P z → f z = f a → P a → False) as Hhead.
      { intros k z Hk Pz Hfz Pa. rewrite decide_True in Hnd by done.
        apply NoDup_cons in Hnd as [Hnotin _]. apply Hnotin.
        rewrite <- Hfz. apply list_elem_of_fmap_2, list_elem_of_filter.
        split; [done|]. by eapply list_elem_of_lookup_2. }
      destruct i as [|i], j as [|j]; simplify_eq/=; [done|..].
      * exfalso. by eapply Hhead.
      * exfalso. by eapply Hhead.
      * f_equal. by eapply (proj1 IH Hnd').
    + intros Hidx.
      assert (NoDup (f <$> filter P l)) as Hnd'.
      { apply IH. intros i j x y Hi Hj Px Py Hf.
        assert (S i = S j) as [=]; [|done]. by eapply Hidx. }
      case_decide as Pa; [|done]. rewrite fmap_cons. apply NoDup_cons. split; [|done].
      intros (z & Hfz & [Pz Hin]%list_elem_of_filter)%list_elem_of_fmap.
      apply list_elem_of_lookup in Hin as [k Hk].
      assert (0%nat = S k) as [=]. by eapply (Hidx 0%nat (S k) a z).
Qed.

(** Selecting from two lists that agree wherever one of them is selected. *)
Lemma filter_agree (P : A → Prop) `{!∀ x, Decision (P x)} l l' :
  Forall2 (λ x y, (P x ∨ P y) → x = y) l l' → filter P l = filter P l'.
Proof.
  induction 1 as [|x y l l' Hxy _ IH]; [done|].
  rewrite !filter_cons, IH.
  destruct (decide (P x)) as [Px|Px], (decide (P y)) as [Py|Py]; try done.
  - by rewrite Hxy by auto.
  - exfalso. apply Py. by rewrite <- Hxy by auto.
  - exfalso. apply Px. by rewrite Hxy by auto.
Qed.

Lemma StronglySorted_filter (R : relation A) (P : A → Prop) `{!∀ x, Decision (P x)} l :
  StronglySorted R l → StronglySorted R (filter P l).
Proof.
  induction 1 as [|x l Hl IH Hx]; [constructor|].
  rewrite filter_cons. case_decide; [|done]. constructor; [done|].
  apply Forall_forall. intros y [_ Hy]%list_elem_of_filter.
  rewrite Forall_forall in Hx. auto.
Qed.

End lists.

Lemma StronglySorted_le_NoDup_lt (l : list Z) :
  StronglySorted Z.le l → NoDup l → StronglySorted Z.lt l.
Proof.
  induction 1 as [|x l Hl IH Hx]; intros Hnd; [constructor|].
  apply NoDup_cons in Hnd as [Hnotin Hnd]. constructor; [auto|].
  rewrite Forall_forall in Hx |- *. intros y Hy.
  specialize (Hx y Hy). assert (x ≠ y) by (intros ->; done). lia.
Qed.

Lemma StronglySorted_lt_NoDup (l : list Z) : StronglySorted Z.lt l → NoDup l.
Proof.
  induction 1 as [|x l Hl IH Hx]; constructor; [|done].
  intros Hin. rewrite Forall_forall in Hx. specialize (Hx x Hin). lia.
Qed.

Lemma StronglySorted_lt_le (l : list Z) : StronglySorted Z.lt l → StronglySorted Z.le l.
Proof.
  induction 1 as [|x l Hl IH Hx]; constructor; [done|].
  eapply Forall_impl; [done|]. simpl. lia.
Qed.

(** ** The stable sort *)

Section stableSort.
Context {A : Type} (cmp : A → A → Z).

Lemma insertSorted_Permutation x l : insertSorted cmp x l ≡ₚ x :: l.
Proof.
  induction l as [|y l IH]; [done|]. simpl.
  destruct (0 <? cmp x y); [|done]. rewrite IH. apply Permutation_swap.
Qed.

Lemma stableSort_Permutation l : stableSort cmp l ≡ₚ l.
Proof.
  induction l as [|x l IH]; [done|]. unfold stableSort in *. simpl.
  by rewrite insertSorted_Permutation, IH.
Qed.

Hypothesis cmp_trans : ∀ a b c, cmp a b ≤ 0 → cmp b c ≤ 0 → cmp a c ≤ 0.
Hypothesis cmp_total : ∀ a b, 0 < cmp a b → cmp b a ≤ 0.

Lemma insertSorted_sorted x l :
  StronglySorted (λ a b, cmp a b ≤ 0) l →
  StronglySorted (λ a b, cmp a b ≤ 0) (insertSorted cmp x l).
Proof.
  induction 1 as [|y l Hl IH Hy]; simpl.
  - repeat constructor.
  - destruct (0 <? cmp x y) eqn:Hxy.
    + apply Z.ltb_lt in Hxy. constructor; [done|].
      rewrite insertSorted_Permutation. constructor; [auto|done].
    + apply Z.ltb_ge in Hxy. constructor; [by constructor|].
      constructor; [done|]. eapply Forall_impl; [done|]. simpl. eauto.
Qed.

Lemma stableSort_sorted l : StronglySorted (λ a b, cmp a b ≤ 0) (stableSort cmp l).
Proof.
  induction l as [|x l IH]; [constructor|]. by apply insertSorted_sorted.
Qed.

End stableSort.

Lemma compareItems_trans a b c :
  compareItems a b ≤ 0 → compareItems b c ≤ 0 → compareItems a c ≤ 0.
Proof.
  unfold compareItems.
  generalize (default 0 (statusOrder !! item_status a)),
             (default 0 (statusOrder !! item_status b)),
             (default 0 (statusOrder !! item_status c)).
  intros. repeat case_bool_decide; lia.
Qed.

Lemma compareItems_total a b : 0 < compareItems a b → compareItems b a ≤ 0.
Proof.
  unfold compareItems.
  generalize (default 0 (statusOrder !! item_status a)),
             (default 0 (statusOrder !! item_status b)).
  intros. repeat case_bool_decide; lia.
Qed.

Lemma compareItems_same_status a b :
  item_status a = item_status b → compareItems a b = item_position a - item_position b.
Proof.
  unfold compareItems. intros ->. rewrite bool_decide_eq_false_2; [done|]. lia.
Qed.

Lemma sortItems_Permutation l : sortItems l ≡ₚ l.
Proof. apply stableSort_Permutation. Qed.

Lemma sortItems_sorted l : StronglySorted (λ a b, compareItems a b ≤ 0) (sortItems l).
Proof. apply stableSort_sorted; [apply compareItems_trans|apply compareItems_total]. Qed.

(** ** Columns of the board *)

Lemma columnOf_Permutation data projectId status :
  columnOf data projectId status
  ≡ₚ filter (λ item, item_projectId item = projectId ∧ item_status item = status)
            (items data).
Proof.
  unfold columnOf, getItemsByProjectSync. rewrite sortItems_Permutation.
  rewrite list_filter_filter. apply reflexive_eq, list_filter_iff. tauto.
Qed.

Lemma columnOf_sorted data projectId status :
  StronglySorted Z.le (item_position <$> columnOf data projectId status).
Proof.
  unfold columnOf.
  assert (Forall (λ item, item_status item = status)
            (filter (λ item, item_status item = status)
                    (getItemsByProjectSync projectId data))) as Hall.
  { apply Forall_forall. by intros x [? _]%list_elem_of_filter. }
  pose proof (StronglySorted_filter _ (λ item, item_status item = status) _
                (sortItems_sorted (filter (λ item, item_projectId item = projectId)
                                          (items data)))) as Hsorted.
  fold (getItemsByProjectSync projectId data) in Hsorted.
  induction Hsorted as [|x l Hl IH Hx]; [constructor|].
  apply Forall_cons in Hall as [Hxs Hall]. rewrite fmap_cons. constructor; [auto|].
  apply Forall_fmap, Forall_forall. intros y Hy. simpl.
  rewrite Forall_forall in Hx, Hall. specialize (Hx y Hy). specialize (Hall y Hy).
  rewrite compareItems_same_status in Hx by congruence. lia.
Qed.

Lemma positionsDistinct_iff_ordered data :
  positionsDistinct data ↔ positionsOrdered data.
Proof.
  unfold positionsDistinct, positionsOrdered. split; intros H projectId status.
  - apply StronglySorted_le_NoDup_lt; [apply columnOf_sorted|].
    rewrite columnOf_Permutation. apply H.
  - unfold positionsIn. rewrite <- columnOf_Permutation.
    apply StronglySorted_lt_NoDup, H.
Qed.

(** ** Appending to a column *)

Lemma maxOf_spec first others : isMaxOf (maxOf first others) (first :: others).
Proof.
  unfold maxOf, isMaxOf. revert first.
  induction others as [|x others IH]; intros first; simpl.
  - split; [by left|]. by repeat constructor.
  - destruct (IH (Z.max first x)) as [Hin Hall]. split.
    + apply elem_of_cons in Hin as [->|Hin]; [|by do 2 right].
      destruct (Z.max_spec first x) as [[_ ->]|[_ ->]]; [right; left|left].
    + apply Forall_cons in Hall as [Hmax Hall].
      repeat constructor; [lia|lia|done].
Qed.

Lemma nextPositionForStatus_appended data projectId status :
  appendedPosition (nextPositionForStatus data projectId status)
                   (positionsIn data projectId status).
Proof.
  unfold nextPositionForStatus, positionsIn.
  destruct (filter _ _) as [|first others]; [by left|].
  right. eexists. split; [apply maxOf_spec|done].
Qed.

Lemma appendedPosition_above position existing :
  appendedPosition position existing → Forall (λ x, x < position) existing.
Proof.
  intros [[-> _]|(m & [_ Hall] & ->)]; [constructor|].
  eapply Forall_impl; [done|]. simpl. lia.
Qed.

Lemma nextPositionForStatus_above data projectId status item :
  item ∈ items data → item_projectId item = projectId → item_status item = status →
  item_position item < nextPositionForStatus data projectId status.
Proof.
  intros Hin Hp Hs.
  pose proof (appendedPosition_above _ _
                (nextPositionForStatus_appended data projectId status)) as Hall.
  rewrite Forall_forall in Hall. apply Hall. unfold positionsIn.
  apply list_elem_of_fmap_2, list_elem_of_filter. done.
Qed.

Lemma findItem_Some projectId itemId l k item :
  findItem projectId itemId l = Some (k, item) →
  l !! k = Some item ∧ item_id item = itemId ∧ item_projectId item = projectId.
Proof. unfold findItem. intros (? & [? ?] & _)%list_find_Some. done. Qed.

(** C3. A creation that is not refused (a title that is not blank, a
    status of the board, a project that exists) succeeds, and the created
    item gets position 1 in an empty column and one more than the greatest
    position of its project and status otherwise. An update of an item
    that is found, and that is not refused (no blank title, no unknown
    status), succeeds; when it changes the status it gives the item the
    position obtained by that same rule in the destination column and
    rewrites no other item, so the source column keeps its positions and
    its gap; when it carries no status, or the item's own status, it
    leaves status and position as they were. *)
Theorem create_and_update_positions :
  (∀ uuid now projectId title description status data,
     refusedItem title status = false →
     Exists (λ project, project_id project = projectId) (projects data) →
     ∃ data' item,
       createItemSync uuid now projectId title description status data
       = Ok (data', item))
  ∧ (∀ uuid now projectId title description status data data' item,
     createItemSync uuid now projectId title description status data = Ok (data', item) →
     item_projectId item = projectId
     ∧ item_status item = default "backlog" status
     ∧ appendedPosition (item_position item)
                        (positionsIn data projectId (default "backlog" status))
     ∧ items data' = items data ++ [item])
  ∧ (∀ now projectId itemId updates data k item,
       findItem projectId itemId (items data) = Some (k, item) →
       refusedUpdates updates = false →
       ∃ data' updated,
         updateItemSync now projectId itemId updates data = Ok (data', updated))
  ∧ (∀ now projectId itemId updates data data' updated,
       updateItemSync now projectId itemId updates data = Ok (data', updated) →
       ∃ k item,
         findItem projectId itemId (items data) = Some (k, item)
         ∧ items data' !! k = Some updated
         ∧ length (items data') = length (items data)
         ∧ (∀ j, j ≠ k → items data' !! j = items data !! j)
         ∧ (∀ status, updates_status updates = Some status → status ≠ item_status item →
              item_status updated = status
              ∧ appendedPosition (item_position updated)
                                 (positionsIn data projectId status)
              ∧ positionsIn data' projectId (item_status item)
                `sublist_of` positionsIn data projectId (item_status item))
         ∧ (updates_status updates = None
            ∨ updates_status updates = Some (item_status item) →
              item_status updated = item_status item
              ∧ item_position updated = item_position item)).
Proof.
  split_and!.
  - intros * Hrefused Hproject. unfold refusedItem in Hrefused.
    apply orb_false_elim in Hrefused as [Htitle%negb_false_iff Hstatus].
    apply bool_decide_eq_false, dec_stable in Hstatus.
    unfold createItemSync, validateStatus. rewrite Htitle. simpl.
    rewrite (bool_decide_eq_true_2 _ Hstatus). simpl. rewrite bool_decide_eq_true_2; [simpl; eauto|].
    apply Exists_exists in Hproject as (p & Hin & Hid).
    intros Hnone%list_find_None. rewrite Forall_forall in Hnone. by apply (Hnone p).
  - intros * H. apply createItemSync_Ok in H as (_ & -> & ->). simpl.
    split_and!; try done. apply nextPositionForStatus_appended.
  - intros * Hfind Hrefused. unfold refusedUpdates in Hrefused.
    apply orb_false_elim in Hrefused as [Htitle Hstatus].
    unfold updateItemSync, validateStatus. rewrite Hfind.
    destruct (updates_title updates) as [title|];
      [apply negb_false_iff in Htitle; rewrite Htitle|]; simpl;
    (destruct (updates_status updates) as [status|];
      [apply bool_decide_eq_false, dec_stable in Hstatus;
       rewrite (bool_decide_eq_true_2 _ Hstatus)|]);
    simpl; try case_bool_decide; simpl; eauto.
  - intros * H. apply updateItemSync_Ok in H as (k & item & Hfind & -> & _ & Hp & Hst).
    pose proof (findItem_Some _ _ _ _ _ Hfind) as (Hk & _ & Hproject).
    exists k, item. simpl. split_and!; try done.
    + apply list_lookup_insert_eq. by eapply lookup_lt_Some.
    + apply length_insert.
    + intros j Hj. by apply list_lookup_insert_ne.
    + intros status Hstatus Hne. rewrite Hstatus in Hst.
      destruct Hst as (_ & Hs & Hpos). rewrite decide_False in Hpos by done.
      split_and!; [done|rewrite Hpos; apply nextPositionForStatus_appended|].
      unfold positionsIn. simpl. apply fmap_sublist.
      rewrite <- (take_drop_middle _ _ _ Hk) at 2.
      rewrite insert_take_drop by (by eapply lookup_lt_Some).
      rewrite !filter_app, !filter_cons.
      rewrite decide_False by (intros [_ ?]; congruence).
      apply sublist_app; [done|]. case_decide; [by apply sublist_cons|done].
    + intros [Hnone|Hsame].
      * rewrite Hnone in Hst. done.
      * rewrite Hsame in Hst. destruct Hst as (_ & Hs & Hpos).
        by rewrite decide_True in Hpos.
Qed.

(** On the small board: a third card is created at position 3 of the
    backlog; the first card, moved to "done", gets position 1 there and
    leaves the backlog with position 2 alone; retitled, it stays at
    position 1 of the backlog. *)
Lemma create_and_update_positions_witness :
  (∃ data' item,
     createItemSync "c" "t3" "p1" (Some "Task 3") None None demoData = Ok (data', item)
     ∧ appendedPosition (item_position item) (positionsIn demoData "p1" "backlog")
     ∧ item_position item = 3)
  ∧ (∃ data' updated,
       updateItemSync "t3" "p1" "a"
         {| updates_title := None; updates_description := None;
            updates_status := Some "done" |} demoData = Ok (data', updated)
       ∧ appendedPosition (item_position updated) (positionsIn demoData "p1" "done")
       ∧ item_position updated = 1
       ∧ positionsIn data' "p1" "backlog" = [2])
  ∧ (∃ data' updated,
       updateItemSync "t3" "p1" "a"
         {| updates_title := Some "Task one"; updates_description := None;
            updates_status := None |} demoData = Ok (data', updated)
       ∧ item_status updated = "backlog" ∧ item_position updated = 1).
Proof.
  destruct create_and_update_positions as (Hcreates & Hcreated & Hupdates & Hupdated).
  split_and!.
  - destruct (Hcreates "c" "t3" "p1" (Some "Task 3") None None demoData eq_refl)
      as (data' & item & Hok).
    { vm_compute. by left. }
    exists data', item. split; [exact Hok|].
    destruct (Hcreated _ _ _ _ _ _ _ _ _ Hok) as (_ & _ & Hposition & _).
    split; [exact Hposition|].
    vm_compute in Hok. by injection Hok as _ <-.
  - destruct (Hupdates "t3" "p1" "a"
                {| updates_title := None; updates_description := None;
                   updates_status := Some "done" |} demoData 0%nat taskA eq_refl eq_refl)
      as (data' & updated & Hok).
    exists data', updated. split; [exact Hok|].
    destruct (Hupdated _ _ _ _ _ _ _ Hok) as (k & item & Hfind & _ & _ & _ & Hmoved & _).
    vm_compute in Hfind. injection Hfind as <- <-.
    destruct (Hmoved "done" eq_refl ltac:(discriminate)) as (_ & Hposition & _).
    split; [exact Hposition|].
    vm_compute in Hok. by injection Hok as <- <-.
  - destruct (Hupdates "t3" "p1" "a"
                {| updates_title := Some "Task one"; updates_description := None;
                   updates_status := None |} demoData 0%nat taskA eq_refl eq_refl)
      as (data' & updated & Hok).
    exists data', updated. split; [exact Hok|].
    destruct (Hupdated _ _ _ _ _ _ _ Hok) as (k & item & Hfind & _ & _ & _ & _ & Hkept).
    vm_compute in Hfind. injection Hfind as <- <-.
    exact (Hkept (or_introl eq_refl)).
Defined.

(** ** Distinct positions under the single-item operations *)

Lemma filter_sublist_mono {A} (P : A → Prop) `{!∀ x, Decision (P x)} (l1 l2 : list A) :
  l1 `sublist_of` l2 → filter P l1 `sublist_of` filter P l2.
Proof.
  induction 1 as [|x l1 l2 _ IH|x l1 l2 _ IH]; [done|..]; rewrite !filter_cons.
  - case_decide; [by apply sublist_skip|done].
  - case_decide; [by apply sublist_cons|done].
Qed.

Lemma positionsDistinct_sublist data data' :
  items data' `sublist_of` items data → positionsDistinct data → positionsDistinct data'.
Proof.
  intros Hsub H projectId status.
  apply (sublist_NoDup _ (positionsIn data projectId status)); [apply H|].
  by apply fmap_sublist, filter_sublist_mono.
Qed.

Lemma createItemSync_distinct uuid now projectId title description status data data' item :
  createItemSync uuid now projectId title description status data = Ok (data', item) →
  positionsDistinct data → positionsDistinct data'.
Proof.
  intros (_ & Hitem & ->)%createItemSync_Ok H projectId' status'.
  unfold positionsIn. simpl. rewrite filter_app, fmap_app. apply NoDup_app.
  split_and!; [apply H| |].
  - intros position Hold Hnew. rewrite filter_cons in Hnew.
    case_decide as Hsel; [|by apply elem_of_nil in Hnew].
    apply list_elem_of_singleton in Hnew as ->.
    apply list_elem_of_fmap in Hold as (x & Hpos & [[Hp Hs] Hin]%list_elem_of_filter).
    destruct Hsel as [Hp' Hs']. rewrite Hitem in Hp', Hs', Hpos. simpl in *.
    pose proof (nextPositionForStatus_above data projectId (default "backlog" status) x
                  Hin ltac:(congruence) ltac:(congruence)). lia.
  - rewrite filter_cons. case_decide; [apply NoDup_singleton|apply NoDup_nil_2].
Qed.

Lemma updateItemSync_distinct now projectId itemId updates data data' updated :
  updateItemSync now projectId itemId updates data = Ok (data', updated) →
  positionsDistinct data → positionsDistinct data'.
Proof.
  intros (k & item & Hfind & -> & _ & Hp & Hst)%updateItemSync_Ok H projectId' status'.
  pose proof (findItem_Some _ _ _ _ _ Hfind) as (Hk & _ & Hproject).
  assert (item_status updated = item_status item ∧ item_position updated = item_position item
          ∨ item_status updated ≠ item_status item
            ∧ item_position updated
              = nextPositionForStatus data projectId (item_status updated)) as Hcases.
  { destruct (updates_status updates) as [status|]; [|by left].
    destruct Hst as (_ & Hs & Hpos). case_decide; [left|right]; by subst. }
  clear Hst. unfold positionsIn. simpl.
  apply NoDup_fmap_filter_lookup. intros i j x y Hi Hj [Hxp Hxs] [Hyp Hys] Hpos.
  specialize (H projectId' status'). unfold positionsIn in H.
  rewrite NoDup_fmap_filter_lookup in H.
  assert (∀ j y, j ≠ k → items data !! j = Some y →
                 item_projectId y = projectId' → item_status y = status' →
                 item_projectId updated = projectId' → item_status updated = status' →
                 item_position updated = item_position y → False) as Hclash.
  { intros j' y' Hne Hj' Hyp' Hys' Hup Hus Hpos'.
    destruct Hcases as [[Hs Hpo]|[Hs Hpo]].
    - apply Hne. symmetry. apply (H k j' item y'); try done; [split..|]; congruence.
    - pose proof (nextPositionForStatus_above data projectId (item_status updated) y'
                    ltac:(by eapply list_elem_of_lookup_2) ltac:(congruence)
                    ltac:(congruence)). lia. }
  destruct (decide (i = k)) as [->|Hik], (decide (j = k)) as [->|Hjk]; [done|..].
  - rewrite list_lookup_insert_eq in Hi by (by eapply lookup_lt_Some).
    rewrite list_lookup_insert_ne in Hj by done. simplify_eq.
    exfalso. by eapply (Hclash j y).
  - rewrite list_lookup_insert_eq in Hj by (by eapply lookup_lt_Some).
    rewrite list_lookup_insert_ne in Hi by done. simplify_eq.
    exfalso. by eapply (Hclash i x).
  - rewrite list_lookup_insert_ne in Hi, Hj by done. by eapply (H i j x y).
Qed.

Lemma deleteItemSync_distinct projectId itemId data data' removed :
  deleteItemSync projectId itemId data = Ok (data', removed) →
  positionsDistinct data → positionsDistinct data'.
Proof.
  intros (k & _ & ->)%deleteItemSync_Ok. apply positionsDistinct_sublist.
  apply sublist_delete.
Qed.

Lemma deleteProjectSync_distinct projectId data :
  positionsDistinct data → positionsDistinct (deleteProjectSync projectId data).1.
Proof.
  unfold deleteProjectSync. destruct (list_find _ _) as [[k p]|]; [|done].
  apply positionsDistinct_sublist. apply sublist_filter.
Qed.

(** ** The bulk reorder as a sequence of writes *)

Lemma placeAll_entries now projectId status from orderedIds l :
  placeAll now projectId status from orderedIds l
  = foldl (applyEntry now projectId) l
          (imap (λ index itemId, (status, (from + index)%nat, itemId)) orderedIds).
Proof.
  revert from l. induction orderedIds as [|itemId rest IH]; intros from l; [done|].
  simpl. rewrite IH. unfold applyEntry at 3. simpl. rewrite Nat.add_0_r.
  f_equal. apply imap_ext. intros index x _. simpl. do 2 f_equal. lia.
Qed.

Lemma reorder_entries now projectId columns l :
  foldl (λ items status,
           placeAll now projectId status 0 (orderedIdsOf columns status) items)
        l VALID_STATUSES
  = foldl (applyEntry now projectId) l (payloadEntries columns).
Proof.
  unfold payloadEntries, VALID_STATUSES. simpl.
  rewrite !foldl_app, !placeAll_entries. done.
Qed.

Lemma reorderItemsSync_items now projectId columns data data' response :
  reorderItemsSync now projectId columns data = Ok (data', response) →
  items data' = runEntries now projectId (items data) (payloadEntries columns)
  ∧ projects data' = projects data
  ∧ response = getItemsByProjectSync projectId data'.
Proof.
  intros (_ & -> & ->)%reorderItemsSync_Ok.
  split_and!; [exact (reorder_entries _ _ _ _)|done..].
Qed.

Lemma elem_of_payloadEntries columns status index itemId :
  (status, index, itemId) ∈ payloadEntries columns
  ↔ status ∈ VALID_STATUSES ∧ orderedIdsOf columns status !! index = Some itemId.
Proof.
  unfold payloadEntries. rewrite list_elem_of_bind. split.
  - intros (s & Hin & Hs). apply list_elem_of_lookup in Hin as [i Hi].
    apply list_lookup_imap_Some in Hi as (x & Hx & [= -> -> ->]). done.
  - intros [Hs Hi]. exists status. split; [|done].
    apply list_elem_of_lookup. exists index. by rewrite list_lookup_imap, Hi.
Qed.

Lemma payloadEntries_ids columns : snd <$> payloadEntries columns = payloadIds columns.
Proof.
  unfold payloadEntries, payloadIds, VALID_STATUSES. simpl.
  rewrite !fmap_app, !fmap_imap. simpl.
  assert (∀ l : list string, imap (λ _ : nat, id) l = l) as Himap.
  { intros l. apply list_eq. intros i. rewrite list_lookup_imap.
    by destruct (l !! i). }
  unfold compose. simpl. rewrite !Himap. done.
Qed.

Lemma lastOccurrence_NoDup columns status index itemId :
  NoDup (payloadIds columns) →
  status ∈ VALID_STATUSES → orderedIdsOf columns status !! index = Some itemId →
  lastOccurrence columns status index itemId.
Proof.
  intros Hnd Hs Hi.
  assert ((status, index, itemId) ∈ payloadEntries columns) as Hin
    by by apply elem_of_payloadEntries.
  apply list_elem_of_split in Hin as (before & after & Heq).
  exists before, after. split; [done|].
  rewrite <- payloadEntries_ids, Heq, fmap_app, fmap_cons in Hnd. simpl in Hnd.
  apply NoDup_app in Hnd as (_ & _ & Hnd). by apply NoDup_cons in Hnd as [? _].
Qed.

(** ** One write *)

Lemma target_Some projectId itemId l k :
  target projectId itemId l = Some k →
  ∃ x, findItem projectId itemId l = Some (k, x)
       ∧ l !! k = Some x ∧ item_id x = itemId ∧ item_projectId x = projectId.
Proof.
  unfold target. intros ([k' x] & Hfind & ->)%fmap_Some. exists x.
  split; [done|]. by apply findItem_Some in Hfind.
Qed.

Lemma target_frame projectId itemId l l' :
  itemFrame <$> l = itemFrame <$> l' →
  target projectId itemId l = target projectId itemId l'.
Proof.
  revert l'. induction l as [|x l IH]; intros [|y l'] Heq; try done.
  rewrite !fmap_cons in Heq. apply (inj2 cons) in Heq as [Hxy Hrest].
  specialize (IH l' Hrest).
  unfold target, findItem in *. simpl.
  assert (item_id x = item_id y ∧ item_projectId x = item_projectId y) as [Hi Hp].
  { unfold itemFrame in Hxy. by simplify_eq. }
  rewrite Hi, Hp. case_decide; [done|].
  destruct (list_find _ l) as [[]|], (list_find _ l') as [[]|]; simplify_eq/=; done.
Qed.

Lemma placed_frame now status index x y :
  itemFrame x = itemFrame y → placed now status index x = placed now status index y.
Proof.
  destruct x, y. unfold itemFrame, placed, withUpdatedAt, withStatusPosition. simpl.
  intros [= -> -> -> -> ->]. done.
Qed.

Lemma itemFrame_placed now status index x :
  itemFrame (placed now status index x) = itemFrame x.
Proof. done. Qed.

Lemma frame_lookup (l l' : list Item) (k : nat) :
  itemFrame <$> l = itemFrame <$> l' → itemFrame <$> l !! k = itemFrame <$> l' !! k.
Proof. intros Heq. by rewrite <- !list_lookup_fmap, Heq. Qed.

Lemma applyEntry_frame now projectId l entry :
  itemFrame <$> applyEntry now projectId l entry = itemFrame <$> l.
Proof.
  unfold applyEntry, placeItem.
  destruct (findItem _ _ _) as [[k x]|] eqn:Hfind; [|done].
  apply findItem_Some in Hfind as (Hk & _).
  rewrite list_fmap_insert. apply list_insert_id.
  by rewrite list_lookup_fmap, Hk.
Qed.

Lemma applyEntry_lookup now projectId l entry k :
  applyEntry now projectId l entry !! k
  = if decide (aimsAt projectId l k entry)
    then placed now entry.1.1 entry.1.2 <$> l !! k
    else l !! k.
Proof.
  destruct (decide _) as [Haim|Hnot].
  - apply target_Some in Haim as (x & Hfind & Hk & _).
    unfold applyEntry, placeItem. rewrite Hfind, Hk. simpl.
    apply list_lookup_insert_eq. by eapply lookup_lt_Some.
  - unfold applyEntry, placeItem.
    destruct (findItem _ _ _) as [[k' x]|] eqn:Hfind; [|done].
    apply list_lookup_insert_ne. intros ->. apply Hnot.
    unfold aimsAt, target. by rewrite Hfind.
Qed.

(** An identifier that matches no item of the project is passed over. *)
Lemma placeItem_unknown now projectId status l index itemId :
  findItem projectId itemId l = None →
  placeItem now projectId status l index itemId = l.
Proof. unfold placeItem. by intros ->. Qed.

(** ** A sequence of writes *)

Section writes.
Context (now projectId : string).

Lemma runEntries_app l entries1 entries2 :
  runEntries now projectId l (entries1 ++ entries2)
  = runEntries now projectId (runEntries now projectId l entries1) entries2.
Proof. apply foldl_app. Qed.

Lemma runEntries_frame entries l :
  itemFrame <$> runEntries now projectId l entries = itemFrame <$> l.
Proof.
  revert l. induction entries as [|entry entries IH]; intros l; [done|].
  unfold runEntries in *. simpl. by rewrite IH, applyEntry_frame.
Qed.

Lemma runEntries_length entries l :
  length (runEntries now projectId l entries) = length l.
Proof.
  rewrite <- (length_fmap itemFrame), runEntries_frame. apply length_fmap.
Qed.

Lemma aimsAt_frame l l' k entry :
  itemFrame <$> l = itemFrame <$> l' →
  aimsAt projectId l k entry ↔ aimsAt projectId l' k entry.
Proof. unfold aimsAt. intros Heq. by rewrite (target_frame _ _ l l'). Qed.

Lemma runEntries_untouched entries l k :
  Forall (λ entry, ¬ aimsAt projectId l k entry) entries →
  runEntries now projectId l entries !! k = l !! k.
Proof.
  revert l. induction entries as [|entry entries IH]; intros l Hall; [done|].
  apply Forall_cons in Hall as [Hentry Hall]. unfold runEntries in *. simpl.
  rewrite IH.
  - rewrite applyEntry_lookup. by rewrite decide_False.
  - eapply Forall_impl; [done|]. cbv beta. intros e He.
    by rewrite (aimsAt_frame _ l) by apply applyEntry_frame.
Qed.

(** The last write aimed at an item decides what it ends as. *)
Lemma runEntries_last before entry after l k x :
  aimsAt projectId l k entry → l !! k = Some x →
  Forall (λ entry, ¬ aimsAt projectId l k entry) after →
  runEntries now projectId l (before ++ entry :: after) !! k
  = Some (placed now entry.1.1 entry.1.2 x).
Proof.
  intros Htarget Hk Hafter.
  rewrite runEntries_app. change (entry :: after) with ([entry] ++ after).
  rewrite runEntries_app, runEntries_untouched.
  - unfold runEntries at 1. simpl.
    rewrite applyEntry_lookup, decide_True
      by by apply (aimsAt_frame _ l); [apply runEntries_frame|].
    pose proof (frame_lookup (runEntries now projectId l before) l k
                  (runEntries_frame _ _)) as Hframe.
    rewrite Hk in Hframe.
    destruct (runEntries now projectId l before !! k) as [x'|]; [|done].
    simpl in *. f_equal. apply placed_frame. congruence.
  - eapply Forall_impl; [done|]. cbv beta. intros e He.
    rewrite (aimsAt_frame _ l); [done|].
    by rewrite !runEntries_frame.
Qed.

Lemma last_aiming entries l k :
  Exists (aimsAt projectId l k) entries →
  ∃ before entry after,
    entries = before ++ entry :: after ∧ aimsAt projectId l k entry
    ∧ Forall (λ entry, ¬ aimsAt projectId l k entry) after.
Proof.
  induction entries as [|e entries IH]; intros Hex; [by apply Exists_nil in Hex|].
  destruct (decide (Exists (aimsAt projectId l k) entries)) as [Hlater|Hnone].
  - destruct (IH Hlater) as (before & entry & after & -> & ? & ?).
    by exists (e :: before), entry, after.
  - apply Exists_cons in Hex as [He|?]; [|done].
    exists [], e, entries. split_and!; [done..|].
    apply Forall_forall. intros e' Hin Haim. apply Hnone, Exists_exists. eauto.
Qed.

(** An item that some entry aims at ends as the last such entry writes it. *)
Lemma runEntries_written entries l k x :
  Exists (aimsAt projectId l k) entries → l !! k = Some x →
  ∃ entry, entry ∈ entries ∧ aimsAt projectId l k entry
           ∧ runEntries now projectId l entries !! k
             = Some (placed now entry.1.1 entry.1.2 x).
Proof.
  intros (before & entry & after & -> & Haim & Hafter)%last_aiming Hk.
  exists entry. split_and!; [|done|by apply runEntries_last].
  apply elem_of_app. right. by left.
Qed.

End writes.

(** Running the same entries on two stores with the same frames gives the
    same item wherever an entry aims, and wherever the stores agreed. *)
Lemma runEntries_agree now projectId entries l l' k :
  itemFrame <$> l = itemFrame <$> l' →
  Exists (aimsAt projectId l k) entries ∨ l !! k = l' !! k →
  runEntries now projectId l entries !! k = runEntries now projectId l' entries !! k.
Proof.
  intros Hframe [Hex|Hsame].
  - destruct (l !! k) as [x|] eqn:Hk.
    + pose proof (frame_lookup l l' k Hframe) as Hfk. rewrite Hk in Hfk.
      destruct (l' !! k) as [x'|] eqn:Hk'; [|done]. simpl in Hfk.
      apply last_aiming in Hex as (before & entry & after & -> & Haim & Hafter).
      rewrite (runEntries_last _ _ _ _ _ _ _ x Haim Hk Hafter).
      rewrite (runEntries_last _ _ _ _ _ _ _ x').
      * f_equal. apply placed_frame. congruence.
      * by apply (aimsAt_frame _ l l').
      * done.
      * eapply Forall_impl; [done|]. cbv beta. intros e.
        by rewrite (aimsAt_frame _ l l').
    + apply Exists_exists in Hex as (e & _ & Haim).
      apply target_Some in Haim as (x & _ & Hx & _). congruence.
  - destruct (decide (Exists (aimsAt projectId l k) entries)) as [Hex|Hnone].
    + destruct (l !! k) as [x|] eqn:Hk.
      * apply last_aiming in Hex as (before & entry & after & -> & Haim & Hafter).
        rewrite (runEntries_last _ _ _ _ _ _ _ x Haim Hk Hafter).
        rewrite (runEntries_last _ _ _ _ _ _ _ x); [done| |done|].
        -- by apply (aimsAt_frame _ l l').
        -- eapply Forall_impl; [done|]. cbv beta. intros e.
           by rewrite (aimsAt_frame _ l l').
      * apply Exists_exists in Hex as (e & _ & Haim).
        apply target_Some in Haim as (x & _ & Hx & _). congruence.
    + assert (Forall (λ entry, ¬ aimsAt projectId l k entry) entries) as Hall.
      { apply Forall_forall. intros e Hin Haim. apply Hnone, Exists_exists. eauto. }
      rewrite !runEntries_untouched; [done| |done].
      eapply Forall_impl; [done|]. cbv beta. intros e.
      by rewrite (aimsAt_frame _ l l').
Qed.

(** Writing the same payload again changes nothing but the time stamps,
    and nothing at all under the same clock reading. *)
Lemma runEntries_twice now1 now2 projectId entries l :
  runEntries now2 projectId (runEntries now1 projectId l entries) entries
  = runEntries now2 projectId l entries.
Proof.
  apply list_eq. intros k. apply runEntries_agree; [apply runEntries_frame|].
  destruct (decide (Exists (aimsAt projectId l k) entries)) as [Hex|Hnone].
  - left. eapply Exists_impl; [done|]. cbv beta. intros e He.
    by apply (aimsAt_frame projectId _ l); [apply runEntries_frame|].
  - right. apply runEntries_untouched.
    apply Forall_forall. intros e Hin Haim. apply Hnone, Exists_exists. eauto.
Qed.

(** ** Grouping by status *)

Lemma appendItem_lookup (columns : gmap string (list Item)) item status :
  appendItem columns item !! status
  = if decide (item_status item = status)
    then Some (default [] (columns !! status) ++ [item])
    else columns !! status.
Proof.
  unfold appendItem. case_decide as Hs.
  - subst status. by rewrite lookup_insert_eq.
  - by rewrite lookup_insert_ne.
Qed.

Lemma foldl_appendItem_lookup l (columns : gmap string (list Item)) status :
  foldl appendItem columns l !! status
  = match columns !! status with
    | Some column => Some (column ++ filter (λ item, item_status item = status) l)
    | None =>
        match filter (λ item, item_status item = status) l with
        | [] => None
        | column => Some column
        end
    end.
Proof.
  revert columns. induction l as [|x l IH]; intros columns; simpl.
  - destruct (columns !! status); [by rewrite app_nil_r|done].
  - rewrite IH, appendItem_lookup, filter_cons. case_decide as Hs.
    + destruct (columns !! status); simpl; [by rewrite <- app_assoc|done].
    + done.
Qed.

(** A column holds the items of that status in the order of the list that
    was grouped. *)
Lemma grouped_lookup l status :
  status ∈ VALID_STATUSES →
  grouped l !! status = Some (filter (λ item, item_status item = status) l).
Proof.
  intros Hin. unfold grouped. rewrite foldl_appendItem_lookup.
  unfold VALID_STATUSES in *. simpl.
  repeat (apply elem_of_cons in Hin as [->|Hin]; [by simplify_map_eq|]).
  by apply elem_of_nil in Hin.
Qed.

Lemma grouped_lookup_other l status :
  status ∉ VALID_STATUSES →
  grouped l !! status
  = match filter (λ item, item_status item = status) l with
    | [] => None
    | column => Some column
    end.
Proof.
  intros Hin. unfold grouped. rewrite foldl_appendItem_lookup.
  unfold VALID_STATUSES in *. simpl.
  rewrite !lookup_insert_ne, lookup_empty; [done|..];
    intros <-; apply Hin; repeat constructor.
Qed.

Lemma board_column projectId data status :
  status ∈ VALID_STATUSES →
  grouped (getItemsByProjectSync projectId data) !! status
  = Some (columnOf data projectId status).
Proof. apply grouped_lookup. Qed.

(** On columns none of which is named like a member of [Object.prototype],
    an item is appended to the column of its status, unless its status
    names such a member: then [push] is missing and a [TypeError] is
    thrown. *)
Lemma pushItem_appendItem (columns : gmap string (list Item)) item :
  (∀ name, name ∈ objectPrototypeMembers → columns !! name = None) →
  pushItem columns item
  = if decide (item_status item ∈ objectPrototypeMembers)
    then Throw "columns[item.status].push is not a function"
    else Ok (appendItem columns item).
Proof.
  intros Hown. unfold pushItem, appendItem. case_decide as Hmember.
  - by rewrite (Hown _ Hmember), bool_decide_eq_true_2.
  - destruct (columns !! item_status item); [done|].
    by rewrite bool_decide_eq_false_2.
Qed.

Lemma foldl_pushItem l (columns : gmap string (list Item)) :
  (∀ name, name ∈ objectPrototypeMembers → columns !! name = None) →
  foldl (λ acc item, columns ← acc; pushItem columns item) (Ok columns) l
  = if decide (groupable l) then Ok (foldl appendItem columns l)
    else Throw "columns[item.status].push is not a function".
Proof.
  unfold groupable. revert columns. induction l as [|x l IH]; intros columns Hown.
  - by rewrite decide_True by constructor.
  - cbn [foldl mbind Result_bind]. rewrite pushItem_appendItem by done.
    destruct (decide (item_status x ∈ objectPrototypeMembers)) as [Hmember|Hmember].
    + rewrite decide_False by (by intros [? _]%Forall_cons).
      clear. induction l as [|y l IH]; [done|]. by cbn [foldl mbind Result_bind].
    + rewrite IH.
      * destruct (decide (Forall _ l)) as [Hl|Hl].
        -- by rewrite decide_True by by constructor.
        -- by rewrite decide_False by by intros [_ ?]%Forall_cons.
      * intros name Hname. rewrite appendItem_lookup.
        rewrite decide_False by (by intros <-). by apply Hown.
Qed.

(** [groupItemsByStatus] returns the grouping, unless a status names a
    member of [Object.prototype]. *)
Lemma groupItemsByStatus_grouped l :
  groupItemsByStatus l
  = if decide (groupable l) then Ok (grouped l)
    else Throw "columns[item.status].push is not a function".
Proof.
  unfold groupItemsByStatus, grouped. apply foldl_pushItem.
  intros name Hname. unfold VALID_STATUSES. simpl.
  rewrite !lookup_insert_ne, lookup_empty; [done|..]; intros <-; revert Hname;
    by apply (bool_decide_unpack (_ ∉ _)).
Qed.

Lemma groupItemsByStatus_Ok l : groupable l → groupItemsByStatus l = Ok (grouped l).
Proof. intros Hl. by rewrite groupItemsByStatus_grouped, decide_True. Qed.

Lemma groupable_valid l :
  Forall (λ item, item_status item ∈ VALID_STATUSES) l → groupable l.
Proof.
  intros Hl. eapply Forall_impl; [done|]. intros item Hvalid Hmember. revert Hmember.
  unfold VALID_STATUSES in Hvalid.
  repeat (apply elem_of_cons in Hvalid as [->|Hvalid];
          [by apply (bool_decide_unpack (_ ∉ _))|]).
  by apply elem_of_nil in Hvalid.
Qed.

(** ** Forgetting the modification times *)

Lemma insertSorted_fmap {A} (cmp : A → A → Z) (f : A → A) x l :
  (∀ a b, cmp (f a) (f b) = cmp a b) →
  insertSorted cmp (f x) (f <$> l) = f <$> insertSorted cmp x l.
Proof.
  intros Hcmp. induction l as [|y l IH]; [done|].
  rewrite fmap_cons. cbn [insertSorted]. rewrite Hcmp.
  destruct (0 <? cmp x y); [|done]. by rewrite fmap_cons, IH.
Qed.

Lemma sortItems_forget l :
  sortItems (withoutUpdatedAt <$> l) = withoutUpdatedAt <$> sortItems l.
Proof.
  unfold sortItems, stableSort. induction l as [|x l IH]; [done|].
  rewrite fmap_cons. cbn [foldr]. rewrite IH. by apply insertSorted_fmap.
Qed.

Lemma filter_forget (P : Item → Prop) `{!∀ x, Decision (P x)} (l : list Item) :
  (∀ x, P (withoutUpdatedAt x) ↔ P x) →
  filter P (withoutUpdatedAt <$> l) = withoutUpdatedAt <$> filter P l.
Proof.
  intros HP. induction l as [|x l IH]; [done|].
  rewrite fmap_cons, !filter_cons, IH.
  destruct (decide (P x)) as [Px|Px]; [by rewrite decide_True by by apply HP|].
  rewrite decide_False; [done|]. by rewrite HP.
Qed.

Lemma getItemsByProjectSync_forget projectId data data' :
  withoutUpdatedAt <$> items data = withoutUpdatedAt <$> items data' →
  withoutUpdatedAt <$> getItemsByProjectSync projectId data
  = withoutUpdatedAt <$> getItemsByProjectSync projectId data'.
Proof.
  intros Heq. unfold getItemsByProjectSync.
  by rewrite <- !sortItems_forget, <- !filter_forget, Heq.
Qed.

Lemma grouped_forget l :
  grouped (withoutUpdatedAt <$> l)
  = (λ column : list Item, withoutUpdatedAt <$> column) <$> grouped l.
Proof.
  apply map_eq. intros status. rewrite lookup_fmap.
  destruct (decide (status ∈ VALID_STATUSES)) as [Hin|Hout].
  - rewrite !grouped_lookup by done. simpl. f_equal.
    by apply filter_forget.
  - rewrite !grouped_lookup_other by done.
    rewrite filter_forget by done. by destruct (filter _ l).
Qed.

Lemma groupItemsByStatus_forget l :
  groupItemsByStatus (withoutUpdatedAt <$> l) = forgetUpdatedAt (groupItemsByStatus l).
Proof.
  rewrite !groupItemsByStatus_grouped.
  assert (groupable (withoutUpdatedAt <$> l) ↔ groupable l) as Hiff.
  { unfold groupable. by rewrite Forall_fmap. }
  destruct (decide (groupable l)) as [Hl|Hl].
  - rewrite decide_True by by apply Hiff. simpl. by rewrite grouped_forget.
  - by rewrite decide_False by by rewrite Hiff.
Qed.

Lemma placed_forget now1 now2 status index x :
  withoutUpdatedAt (placed now1 status index x)
  = withoutUpdatedAt (placed now2 status index x).
Proof. done. Qed.

(** The clock reading shows in the modification times only. *)
Lemma runEntries_forget now1 now2 projectId entries l :
  withoutUpdatedAt <$> runEntries now1 projectId l entries
  = withoutUpdatedAt <$> runEntries now2 projectId l entries.
Proof.
  apply list_eq. intros k. rewrite !list_lookup_fmap.
  destruct (decide (Exists (aimsAt projectId l k) entries)) as [Hex|Hnone].
  - destruct (l !! k) as [x|] eqn:Hk.
    + apply last_aiming in Hex as (before & entry & after & -> & Haim & Hafter).
      by rewrite !(runEntries_last _ _ _ _ _ _ _ x Haim Hk Hafter).
    + apply Exists_exists in Hex as (e & _ & Haim).
      apply target_Some in Haim as (x & _ & Hx & _). congruence.
  - rewrite !runEntries_untouched; [done|..];
      apply Forall_forall; intros e Hin Haim; apply Hnone, Exists_exists; eauto.
Qed.

Lemma reorderItemsSync_Throw now now' projectId columns data message :
  reorderItemsSync now projectId columns data = Throw message →
  reorderItemsSync now' projectId columns data = Throw message.
Proof. unfold reorderItemsSync. by destruct (bool_decide _). Qed.

(** The same payload a second time. *)
Lemma reorderItemsSync_twice now1 now2 projectId columns data data1 first :
  reorderItemsSync now1 projectId columns data = Ok (data1, first) →
  ∃ data2 second,
    reorderItemsSync now2 projectId columns data1 = Ok (data2, second)
    ∧ reorderItemsSync now2 projectId columns data = Ok (data2, second)
    ∧ withoutUpdatedAt <$> second = withoutUpdatedAt <$> first.
Proof.
  intros H1.
  pose proof (reorderItemsSync_items _ _ _ _ _ _ H1) as (Hitems1 & Hprojects1 & Hr1).
  pose proof (reorderItemsSync_Ok _ _ _ _ _ _ H1) as (Hex & _ & _).
  destruct (reorderItemsSync_exists now2 projectId columns data Hex)
    as (data2 & response2 & H2).
  destruct (reorderItemsSync_exists now2 projectId columns data1
              ltac:(by rewrite Hprojects1)) as (data2' & response2' & H2').
  pose proof (reorderItemsSync_items _ _ _ _ _ _ H2) as (Hitems2 & Hprojects2 & Hr2).
  pose proof (reorderItemsSync_items _ _ _ _ _ _ H2') as (Hitems2' & Hprojects2' & Hr2').
  assert (data2' = data2) as ->.
  { destruct data2, data2'. simpl in *. f_equal; [congruence|].
    by rewrite Hitems2', Hitems1, runEntries_twice, Hitems2. }
  assert (response2' = response2) as -> by congruence.
  exists data2, response2. split_and!; [done..|].
  subst first response2. apply getItemsByProjectSync_forget.
  rewrite Hitems1, Hitems2. apply runEntries_forget.
Qed.

(** C4. Submitting the same reorder payload a second time gives what it
    gave the first time. In the store: when the first reorder throws, so
    does the second, with the same error; when it returns, the second
    returns the same items in the same order with the same statuses and
    positions, so that grouping them by status gives the same columns, or
    fails alike; only the modification times follow the clock, and the
    store after the two is the store a single reorder at the second clock
    reading gives. So it is for the calls of the export, and for the
    requests: the second answer is the first, and the store after both is
    the store after one. *)
Theorem reorder_twice_same_grouping :
  (∀ now1 now2 projectId columns data,
     match reorderItemsSync now1 projectId columns data with
     | Ok (data1, first) =>
         ∃ data2 second,
           reorderItemsSync now2 projectId columns data1 = Ok (data2, second)
           ∧ withoutUpdatedAt <$> second = withoutUpdatedAt <$> first
           ∧ forgetUpdatedAt (groupItemsByStatus second)
             = forgetUpdatedAt (groupItemsByStatus first)
           ∧ reorderItemsSync now2 projectId columns data = Ok (data2, second)
     | Throw message =>
         reorderItemsSync now2 projectId columns data = Throw message
     end)
  ∧ (∀ uuid1 now1 uuid2 now2 projectId columns data,
       let call := CallReorderItems projectId columns in
       perform uuid2 now2 call (perform uuid1 now1 call data)
       = perform uuid2 now2 call data)
  ∧ (∀ uuid1 now1 uuid2 now2 projectId secretHeader columns data,
       let request := OnProject projectId secretHeader (PostReorder columns) in
       let first := handle uuid1 now1 request data in
       let second := handle uuid2 now2 request first.1 in
       second.2 = first.2 ∧ second = handle uuid2 now2 request data).
Proof.
  split_and!.
  - intros now1 now2 projectId columns data.
    destruct (reorderItemsSync now1 _ columns data) as [[data1 first]|message] eqn:H1;
      [|by eapply reorderItemsSync_Throw].
    destruct (reorderItemsSync_twice _ now2 _ _ _ _ _ H1)
      as (data2 & second & H2' & H2 & Hsame).
    exists data2, second. split_and!; [done..| |done].
    by rewrite <- !groupItemsByStatus_forget, Hsame.
  - intros uuid1 now1 uuid2 now2 projectId columns data. cbv zeta.
    unfold perform, reorderItems. cbn [fst from_option].
    destruct (reorderItemsSync now1 _ columns data) as [[data1 first]|message] eqn:H1;
      cbn [written]; [|done].
    destruct (reorderItemsSync_twice _ now2 _ _ _ _ _ H1)
      as (data2 & second & H2' & H2 & _).
    by rewrite H2', H2.
  - intros. cbv zeta. by rewrite !handle_answers.
Qed.

(** ** The relational variant *)

Lemma placeItem_ids now projectId status rows index itemId :
  item_id <$> placeItem now projectId status rows index itemId = item_id <$> rows.
Proof.
  unfold placeItem. destruct (findItem _ _ _) as [[k x]|] eqn:Hfind; [|done].
  apply findItem_Some in Hfind as (Hk & _).
  rewrite list_fmap_insert. apply list_insert_id. by rewrite list_lookup_fmap, Hk.
Qed.

Lemma placeAll_ids now projectId status from orderedIds rows :
  item_id <$> placeAll now projectId status from orderedIds rows = item_id <$> rows.
Proof.
  revert from rows. induction orderedIds as [|itemId rest IH]; intros from rows; [done|].
  simpl. by rewrite IH, placeItem_ids.
Qed.

Lemma orderedIdsOf_canonicalColumns uuid columns status :
  orderedIdsOf (canonicalColumns uuid columns) status
  = (λ itemId, default itemId (uuid itemId)) <$> orderedIdsOf columns status.
Proof.
  unfold orderedIdsOf, canonicalColumns. rewrite lookup_fmap.
  by destruct (columns !! status).
Qed.

Section relational.
Context (uuid : string → option string).

(** On a table whose identifiers are pairwise distinct the [UPDATE] rewrites
    the row that [find] returns for the identifier as the database prints
    it, and no other. *)
Lemma updateWhere_placeItem now projectId projectUuid status rows index itemId itemUuid :
  NoDup (item_id <$> rows) →
  uuid projectId = Some projectUuid → uuid itemId = Some itemUuid →
  Relational.updateWhere uuid now projectId status rows index itemId
  = Ok (placeItem now projectUuid status rows index itemUuid).
Proof.
  intros Hnd Hproject Hitem. unfold Relational.updateWhere. rewrite Hproject, Hitem.
  f_equal. apply list_eq. intros k.
  unfold placeItem. rewrite list_lookup_fmap.
  destruct (findItem _ _ _) as [[j x]|] eqn:Hfind.
  - apply findItem_Some in Hfind as (Hj & Hid & Hp).
    destruct (decide (k = j)) as [->|Hne].
    + rewrite list_lookup_insert_eq by (by eapply lookup_lt_Some).
      rewrite Hj. simpl. by rewrite decide_True.
    + rewrite list_lookup_insert_ne by done.
      destruct (rows !! k) as [y|] eqn:Hk; [|done]. simpl.
      rewrite decide_False; [done|]. intros [Hy _]. apply Hne.
      eapply NoDup_lookup; [exact Hnd|..]; rewrite list_lookup_fmap.
      * by rewrite Hk.
      * rewrite Hj. simpl. congruence.
  - apply list_find_None in Hfind. rewrite Forall_forall in Hfind.
    destruct (rows !! k) as [y|] eqn:Hk; [|done]. simpl.
    rewrite decide_False; [done|]. apply Hfind. by eapply list_elem_of_lookup_2.
Qed.

Lemma updateAll_placeAll now projectId projectUuid status from orderedIds rows :
  NoDup (item_id <$> rows) →
  uuid projectId = Some projectUuid →
  Forall (λ itemId, is_Some (uuid itemId)) orderedIds →
  Relational.updateAll uuid now projectId status from orderedIds rows
  = Ok (placeAll now projectUuid status from
          ((λ itemId, default itemId (uuid itemId)) <$> orderedIds) rows).
Proof.
  intros Hnd Hproject Hall. revert from rows Hnd.
  induction Hall as [|itemId rest [itemUuid Hitem] _ IH]; intros from rows Hnd; [done|].
  cbn [Relational.updateAll fmap list_fmap placeAll].
  rewrite (updateWhere_placeItem _ _ projectUuid _ _ _ _ itemUuid) by done.
  cbn [mbind Result_bind]. rewrite Hitem. simpl default.
  apply IH. by rewrite placeItem_ids.
Qed.

(** Text that is no UUID ends the loop with the database's error. *)
Lemma updateAll_invalid now projectId status from orderedIds rows :
  Exists (λ itemId, uuid itemId = None) orderedIds →
  ∃ message, Relational.updateAll uuid now projectId status from orderedIds rows
             = Throw message.
Proof.
  intros Hex. revert from rows.
  induction orderedIds as [|itemId rest IH]; intros from rows.
  { by apply Exists_nil in Hex. }
  cbn [Relational.updateAll].
  destruct (Relational.updateWhere uuid now projectId status rows from itemId)
    as [rows'|message] eqn:Hwhere; cbn [mbind Result_bind]; [|by eexists].
  apply Exists_cons in Hex as [Hitem|Hrest]; [|by apply IH].
  unfold Relational.updateWhere in Hwhere. by rewrite Hitem in Hwhere.
Qed.

Lemma reorderItems_thrown (statuses : list string) now projectId columns message :
  foldl (λ rows status,
           rows ← rows;
           Relational.updateAll uuid now projectId status 0
             (orderedIdsOf columns status) rows)
        (Throw message) statuses
  = Throw message.
Proof. by induction statuses. Qed.

(** The relational reorder commits what the loop over the JSON document
    writes for the payload as the database reads it. *)
Lemma reorderItems_runEntries now projectId projectUuid columns data :
  uuid projectId = Some projectUuid →
  Exists (λ project, project_id project = projectUuid) (projects data) →
  NoDup (item_id <$> items data) →
  Forall (λ itemId, is_Some (uuid itemId)) (payloadIds columns) →
  Relational.reorderItems uuid now projectId columns data
  = Ok (runEntries now projectUuid (items data)
          (payloadEntries (canonicalColumns uuid columns))).
Proof.
  intros Hproject Hex Hnd Hall. unfold Relational.reorderItems.
  rewrite Hproject, bool_decide_eq_true_2 by done. cbn [throwUnless mbind Result_bind].
  unfold runEntries. rewrite <- reorder_entries.
  unfold payloadIds in Hall. apply Forall_bind in Hall.
  revert Hall. generalize VALID_STATUSES. intros statuses Hall.
  generalize dependent (items data). induction Hall as [|status statuses Hs _ IH];
    intros rows Hnd; [done|].
  cbn [foldl mbind Result_bind].
  rewrite (updateAll_placeAll _ _ projectUuid) by done.
  rewrite orderedIdsOf_canonicalColumns. apply IH. by rewrite placeAll_ids.
Qed.

Lemma reorderItems_invalid now projectId columns data :
  Exists (λ itemId, uuid itemId = None) (payloadIds columns) →
  ∃ message, Relational.reorderItems uuid now projectId columns data = Throw message.
Proof.
  intros Hex. unfold Relational.reorderItems.
  destruct (uuid projectId) as [projectUuid|]; [|by eexists].
  destruct (bool_decide _); cbn [throwUnless mbind Result_bind]; [|by eexists].
  assert (Exists (λ status, Exists (λ itemId, uuid itemId = None)
                                   (orderedIdsOf columns status)) VALID_STATUSES) as Hex'.
  { apply Exists_exists in Hex as (itemId & Hin & Hnone).
    apply list_elem_of_bind in Hin as (status & Hin & Hstatus).
    apply Exists_exists. exists status. split; [done|].
    apply Exists_exists. eauto. }
  clear Hex. revert Hex'. generalize VALID_STATUSES. intros statuses Hex.
  generalize (items data). induction statuses as [|status statuses IH]; intros rows.
  { by apply Exists_nil in Hex. }
  cbn [foldl mbind Result_bind].
  apply Exists_cons in Hex as [Hstatus|Hrest].
  - destruct (updateAll_invalid now projectId status 0 _ rows Hstatus) as [message ->].
    exists message. apply reorderItems_thrown.
  - destruct (Relational.updateAll uuid now projectId status 0 _ rows) as [rows'|message].
    + by apply IH.
    + exists message. apply reorderItems_thrown.
Qed.

End relational.

(** ** What a bulk reorder writes *)

Lemma aimsAt_item projectId l k entry x :
  aimsAt projectId l k entry → l !! k = Some x →
  item_id x = entry.2 ∧ item_projectId x = projectId.
Proof.
  intros (x' & _ & Hk & Hid & Hp)%target_Some Hx. by simplify_eq.
Qed.

(** The item an identifier designates ends as its last occurrence in the
    payload writes it. *)
Lemma reorder_last_occurrence now projectId columns data data' response
    status index itemId k item :
  reorderItemsSync now projectId columns data = Ok (data', response) →
  lastOccurrence columns status index itemId →
  findItem projectId itemId (items data) = Some (k, item) →
  items data' !! k = Some (placed now status index item).
Proof.
  intros (Hitems & _)%reorderItemsSync_items (before & after & Hentries & Hlast) Hfind.
  pose proof (findItem_Some _ _ _ _ _ Hfind) as (Hk & Hid & _).
  rewrite Hitems, Hentries.
  apply (runEntries_last now projectId before (status, index, itemId) after
           (items data) k item).
  - unfold aimsAt, target. simpl. by rewrite Hfind.
  - done.
  - apply Forall_forall. intros e Hin Haim.
    apply (aimsAt_item _ _ _ _ item) in Haim as [He _]; [|done].
    apply Hlast. rewrite <- Hid, He. by apply list_elem_of_fmap_2.
Qed.

(** An item that no identifier of the payload designates stays as it is. *)
Lemma reorder_unnamed now projectId columns data data' response k item :
  reorderItemsSync now projectId columns data = Ok (data', response) →
  items data !! k = Some item →
  item_projectId item ≠ projectId ∨ item_id item ∉ payloadIds columns →
  items data' !! k = Some item.
Proof.
  intros (Hitems & _)%reorderItemsSync_items Hk Hunnamed.
  rewrite Hitems, runEntries_untouched; [done|].
  apply Forall_forall. intros e Hin Haim.
  apply (aimsAt_item _ _ _ _ item) in Haim as [He Hp]; [|done].
  destruct Hunnamed as [?|Hout]; [done|]. apply Hout.
  rewrite <- payloadEntries_ids, He. by apply list_elem_of_fmap_2.
Qed.
(** A closed decidable statement, by evaluation. *)
Ltac decide_closed := refine (bool_decide_unpack _ _); vm_compute; exact I.

(** C10 (amended). A bulk reorder of the file-backed store on an existing
    project succeeds whatever the identifiers of its payload are; an
    identifier that matches no item of the project changes nothing; an
    identifier that does match is written with the index it has in its
    sequence plus one, identifiers passed over before it counting like the
    others, and the item keeps that position unless the payload names the
    same identifier again later. So positions of the column can stay
    unoccupied: with the payload [ghost, a, b] for the backlog of the small
    board, the column ends with the positions 2 and 3 and nothing at 1.
    The relational variant reads each identifier as a UUID. On a table
    whose identifiers are pairwise distinct, when every identifier of the
    payload is UUID text, it commits the rows that the file-backed reorder
    leaves for the payload as the database reads it, unknown identifiers
    passed over in the same way; when some identifier of the payload, or
    that of the project, is no UUID text, it throws, and nothing is
    committed. *)
Theorem reorder_skips_unknown_ids now projectId data :
  Exists (λ project, project_id project = projectId) (projects data) →
  (∀ columns, ∃ data' response,
     reorderItemsSync now projectId columns data = Ok (data', response)
     ∧ (∀ status index itemId l,
          findItem projectId itemId l = None →
          placeItem now projectId status l index itemId = l)
     ∧ (∀ before status index itemId after k item,
          payloadEntries columns = before ++ (status, index, itemId) :: after →
          findItem projectId itemId (items data) = Some (k, item) →
          orderedIdsOf columns status !! index = Some itemId
          ∧ runEntries now projectId (items data) (before ++ [(status, index, itemId)]) !! k
            = Some (placed now status index item)
          ∧ (itemId ∉ (snd <$> after) →
             items data' !! k = Some (placed now status index item))))
  ∧ (∀ uuid requested columns,
       uuid requested = Some projectId →
       NoDup (item_id <$> items data) →
       (Forall (λ itemId, is_Some (uuid itemId)) (payloadIds columns) →
        ∃ data' response,
          reorderItemsSync now projectId (canonicalColumns uuid columns) data
          = Ok (data', response)
          ∧ Relational.reorderItems uuid now requested columns data = Ok (items data'))
       ∧ (Exists (λ itemId, uuid itemId = None) (payloadIds columns) →
          ∃ message,
            Relational.reorderItems uuid now requested columns data = Throw message))
  ∧ (∀ uuid requested columns,
       uuid requested = None →
       Relational.reorderItems uuid now requested columns data
       = Throw (Relational.invalidUuid requested))
  ∧ (∃ ghostData ghostResponse,
       reorderItemsSync "t3" "p1" ghostColumns demoData = Ok (ghostData, ghostResponse)
       ∧ positionsIn ghostData "p1" "backlog" = [2; 3]).
Proof.
  intros Hex. split_and!; [| | |by do 2 eexists].
  - intros columns.
    destruct (reorderItemsSync_exists now projectId columns data Hex)
      as (data' & response & Hok).
    exists data', response. split_and!; [done| |].
    + intros. by apply placeItem_unknown.
    + intros before status index itemId after k item Hentries Hfind.
      pose proof (findItem_Some _ _ _ _ _ Hfind) as (Hk & Hid & _).
      assert (aimsAt projectId (items data) k (status, index, itemId)) as Haim.
      { unfold aimsAt, target. simpl. by rewrite Hfind. }
      split_and!.
      * assert ((status, index, itemId) ∈ payloadEntries columns) as Hin.
        { rewrite Hentries. apply elem_of_app. right. by left. }
        by apply elem_of_payloadEntries in Hin as [_ ?].
      * by apply (runEntries_last now projectId before (status, index, itemId) []).
      * intros Hlast. eapply reorder_last_occurrence; [done| |done].
        by exists before, after.
  - intros uuid requested columns Hrequested Hnd. split.
    + intros Hall.
      destruct (reorderItemsSync_exists now projectId (canonicalColumns uuid columns)
                  data Hex) as (data' & response & Hok).
      exists data', response. split; [done|].
      apply reorderItemsSync_items in Hok as (-> & _).
      by apply reorderItems_runEntries.
    + apply reorderItems_invalid.
  - intros uuid requested columns Hrequested.
    unfold Relational.reorderItems. by rewrite Hrequested.
Qed.

Lemma reorder_skips_unknown_ids_witness :
  (∃ data' response,
     reorderItemsSync "t3" "p1" ghostColumns demoData = Ok (data', response))
  ∧ (∃ data',
       positionsIn data' rowsProject "backlog" = [2; 3]
       ∧ Relational.reorderItems uuidText "t3" rowsProject strangerRowsColumns rowsData
         = Ok (items data'))
  ∧ (∃ message,
       Relational.reorderItems uuidText "t3" rowsProject ghostRowsColumns rowsData
       = Throw message).
Proof.
  split_and!.
  - destruct (reorder_skips_unknown_ids "t3" "p1" demoData ltac:(decide_closed))
      as (Hfile & _).
    destruct (Hfile ghostColumns) as (data' & response & Hok & _).
    by exists data', response.
  - destruct (reorder_skips_unknown_ids "t3" rowsProject rowsData ltac:(decide_closed))
      as (_ & Hrows & _).
    destruct (Hrows uuidText rowsProject strangerRowsColumns eq_refl
                ltac:(decide_closed)) as (Hcommit & _).
    destruct (Hcommit ltac:(decide_closed)) as (data' & response & Hok & Hrelational).
    exists data'. split; [|exact Hrelational].
    vm_compute in Hok. injection Hok as <- _. reflexivity.
  - destruct (reorder_skips_unknown_ids "t3" rowsProject rowsData ltac:(decide_closed))
      as (_ & Hrows & _).
    destruct (Hrows uuidText rowsProject ghostRowsColumns eq_refl
                ltac:(decide_closed)) as (_ & Hthrow).
    exact (Hthrow ltac:(decide_closed)).
Defined.

(** An identifier named again behind an unknown one is written twice, and
    the second write stays: with the backlog of the small board given as
    [a, ghost, a], the operation succeeds and the item [a], matched at
    index 0, ends at position 3, not 1. And an unknown identifier is not
    always passed over: the relational reorder with the payload
    [ghost, a, b] throws, the text [ghost] being no UUID. *)
Lemma reorder_renamed_id_counterexample :
  ¬ (∀ now projectId columns data status index itemId k item,
       Exists (λ project, project_id project = projectId) (projects data) →
       status ∈ VALID_STATUSES →
       orderedIdsOf columns status !! index = Some itemId →
       findItem projectId itemId (items data) = Some (k, item) →
       ∃ data' response item',
         reorderItemsSync now projectId columns data = Ok (data', response)
         ∧ items data' !! k = Some item'
         ∧ item_position item' = Z.of_nat index + 1)
  ∧ ¬ (∀ now projectId columns data,
         Exists (λ project, project_id project = projectId) (projects data) →
         ∃ rows, Relational.reorderItems uuidText now projectId columns data = Ok rows).
Proof.
  split.
  - intros Hall.
    destruct (Hall "t3" "p1" ghostBetweenColumns demoData "backlog" 0%nat "a" 0%nat taskA
                ltac:(decide_closed) ltac:(decide_closed) eq_refl eq_refl)
      as (data' & response & item' & Hok & Hk & Hposition).
    vm_compute in Hok. injection Hok as <- _.
    vm_compute in Hk. injection Hk as <-. vm_compute in Hposition. discriminate.
  - intros Hall.
    destruct (Hall "t3" rowsProject ghostRowsColumns rowsData ltac:(decide_closed))
      as (rows & Hrows).
    vm_compute in Hrows. discriminate.
Qed.

(** ** Distinct positions under the bulk reorder *)

(** Under a payload that covers the project, every item of the project
    ends as some entry of the payload writes it. *)
Lemma reorder_covered_item now projectId columns data data' response k item :
  reorderItemsSync now projectId columns data = Ok (data', response) →
  coversProject columns projectId data →
  items data !! k = Some item → item_projectId item = projectId →
  ∃ status index itemId,
    status ∈ VALID_STATUSES
    ∧ orderedIdsOf columns status !! index = Some itemId
    ∧ target projectId itemId (items data) = Some k
    ∧ items data' !! k = Some (placed now status index item).
Proof.
  intros (Hitems & _)%reorderItemsSync_items Hcover Hk Hp.
  destruct (Hcover k item Hk Hp) as [Hnamed Hfind].
  rewrite <- payloadEntries_ids in Hnamed.
  apply list_elem_of_fmap in Hnamed as (e & He & Hin).
  assert (Exists (aimsAt projectId (items data) k) (payloadEntries columns)) as Hex.
  { apply Exists_exists. exists e. split; [done|].
    unfold aimsAt, target. by rewrite <- He, Hfind. }
  destruct (runEntries_written now projectId _ _ _ _ Hex Hk)
    as ([[status index] itemId] & Hentry & Haim & Hresult).
  exists status, index, itemId.
  apply elem_of_payloadEntries in Hentry as [? ?]. rewrite Hitems.
  split_and!; [done|done|apply Haim|apply Hresult].
Qed.

Lemma reorderItemsSync_distinct now projectId columns data data' response :
  reorderItemsSync now projectId columns data = Ok (data', response) →
  coversProject columns projectId data →
  positionsDistinct data → positionsDistinct data'.
Proof.
  intros Hok Hcover Hdistinct projectId' status'.
  pose proof (reorderItemsSync_items _ _ _ _ _ _ Hok) as (Hitems & _).
  assert (itemFrame <$> items data' = itemFrame <$> items data) as Hframe.
  { rewrite Hitems. apply runEntries_frame. }
  destruct (decide (projectId' = projectId)) as [->|Hother].
  - unfold positionsIn. apply NoDup_fmap_filter_lookup.
    intros i j x y Hi Hj [Hxp Hxs] [Hyp Hys] Hpos.
    assert (∀ k z, items data' !! k = Some z → item_projectId z = projectId →
                   ∃ status index itemId,
                     orderedIdsOf columns status !! index = Some itemId
                     ∧ target projectId itemId (items data) = Some k
                     ∧ item_status z = status
                     ∧ item_position z = Z.of_nat index + 1) as Hwritten.
    { intros k z Hk Hz.
      pose proof (frame_lookup _ _ k Hframe) as Hfk. rewrite Hk in Hfk.
      destruct (items data !! k) as [z0|] eqn:Hk0; [|done].
      assert (item_projectId z0 = projectId) as Hz0.
      { simpl in Hfk. unfold itemFrame in Hfk. injection Hfk as _ Hp' _ _ _.
        congruence. }
      destruct (reorder_covered_item _ _ _ _ _ _ _ _ Hok Hcover Hk0 Hz0)
        as (status & index & itemId & _ & Hentry & Htarget & Hresult).
      exists status, index, itemId. rewrite Hk in Hresult.
      injection Hresult as ->. done. }
    destruct (Hwritten i x Hi Hxp) as (si & ni & idi & Hei & Hti & Hsi & Hpi).
    destruct (Hwritten j y Hj Hyp) as (sj & nj & idj & Hej & Htj & Hsj & Hpj).
    assert (ni = nj) as -> by lia. assert (si = sj) as -> by congruence.
    assert (idi = idj) as -> by congruence. congruence.
  - unfold positionsIn.
    rewrite (filter_agree _ (items data') (items data)); [apply Hdistinct|].
    apply Forall2_same_length_lookup. split.
    { by rewrite <- (length_fmap itemFrame), Hframe, length_fmap. }
    intros k x y Hx Hy Hsel.
    assert (item_projectId y ≠ projectId) as Hy'.
    { pose proof (frame_lookup _ _ k Hframe) as Hfk. rewrite Hx, Hy in Hfk.
      simpl in Hfk. unfold itemFrame in Hfk. injection Hfk as _ Hp _ _ _.
      destruct Hsel as [[? _]|[? _]]; congruence. }
    pose proof (reorder_unnamed _ _ _ _ _ _ _ _ Hok Hy (or_introl Hy')). congruence.
Qed.
(** What the document keeps under each call that writes, it keeps under
    every call. *)
Lemma perform_keeps (P : Data → Prop) uuid now call data :
  P data →
  (∀ name secretKey data' project,
     createProjectSync uuid now name secretKey data = Ok (data', project) → P data') →
  (∀ projectId data', deleteProjectSync projectId data = (data', true) → P data') →
  (∀ projectId title description status data' item,
     createItemSync uuid now projectId title description status data = Ok (data', item) →
     P data') →
  (∀ projectId itemId updates data' item,
     updateItemSync now projectId itemId updates data = Ok (data', item) → P data') →
  (∀ projectId itemId data' item,
     deleteItemSync projectId itemId data = Ok (data', item) → P data') →
  (∀ projectId columns data' items',
     call = CallReorderItems projectId columns →
     reorderItemsSync now projectId columns data = Ok (data', items') → P data') →
  P (perform uuid now call data).
Proof.
  intros Hdata HcreateProject HdeleteProject HcreateItem HupdateItem HdeleteItem Hreorder.
  destruct (perform_cases uuid now call data _ eq_refl)
    as [->|[(name & secretKey & project & _ & H)
           |[(projectId & _ & H)
            |[(projectId & title & description & status & item & _ & H)
             |[(projectId & itemId & updates & item & _ & H)
              |[(projectId & itemId & item & _ & H)
               |(projectId & columns & items' & Hcall & H)]]]]]]; eauto.
Qed.

(** Every call other than a reorder that leaves items aside keeps the
    positions of each project and status distinct. *)
Lemma perform_distinct uuid now call data :
  positionsDistinct data → callCovers call data →
  positionsDistinct (perform uuid now call data).
Proof.
  intros Hdistinct Hcovers. apply perform_keeps; [done|..].
  - intros name secretKey data' project H.
    by apply createProjectSync_Ok in H as (_ & _ & _ & _ & ->).
  - intros projectId data' H.
    pose proof (deleteProjectSync_distinct projectId data Hdistinct) as Hd.
    by rewrite H in Hd.
  - intros. by eapply createItemSync_distinct.
  - intros. by eapply updateItemSync_distinct.
  - intros. by eapply deleteItemSync_distinct.
  - intros projectId columns data' items' -> H.
    by eapply reorderItemsSync_distinct.
Qed.

(** C2 (amended). The creation, the update and the deletion of an item, the
    deletion of a project, and every request that is not a reorder, keep
    the positions of each project and status strictly increasing in display
    order, that is, pairwise distinct; a bulk reorder keeps them so when
    every item of the project is designated by an identifier of its
    payload. So it is for the requests, and for each call of an export,
    whether a request makes it or not. *)
Theorem positions_stay_ordered uuid now request data :
  positionsOrdered data → reorderCovers request data →
  positionsOrdered (handle uuid now request data).1
  ∧ positionsDistinct (handle uuid now request data).1
  ∧ (∀ call, callCovers call data →
       positionsOrdered (perform uuid now call data)
       ∧ positionsDistinct (perform uuid now call data)).
Proof.
  intros Hordered%positionsDistinct_iff_ordered Hcovers.
  assert (∀ call, callCovers call data → positionsDistinct (perform uuid now call data))
    as Hcall by (intros; by apply perform_distinct).
  assert (positionsDistinct (handle uuid now request data).1) as Hrequest.
  { rewrite handle_answers. destruct request; cbn [fst]; [|done..].
    by apply Hcall. }
  split_and!; [by apply positionsDistinct_iff_ordered|done|].
  intros call Hcall'. split; [apply positionsDistinct_iff_ordered|]; by apply Hcall.
Qed.

(** ** The board after a full reorder *)

(** A list with non-decreasing keys that is a rearrangement of a list with
    increasing keys is that list. *)
Lemma sorted_by_key_unique {A} (key : A → Z) (l1 l2 : list A) :
  StronglySorted Z.le (key <$> l1) → StronglySorted Z.lt (key <$> l2) →
  l1 ≡ₚ l2 → l1 = l2.
Proof.
  revert l1. induction l2 as [|y l2 IH]; intros l1 H1 H2 Hperm.
  { by apply Permutation_nil_r in Hperm. }
  destruct l1 as [|x l1]; [by apply Permutation_nil_cons in Hperm|].
  rewrite fmap_cons in H1, H2.
  apply StronglySorted_inv in H1 as [H1 Hx]. apply StronglySorted_inv in H2 as [H2 Hy].
  rewrite Forall_fmap, Forall_forall in Hx, Hy.
  assert (x = y) as ->.
  { assert (x ∈ y :: l2) as [->|Hxin]%elem_of_cons by (rewrite <- Hperm; by left);
      [done|].
    assert (y ∈ x :: l1) as [->|Hyin]%elem_of_cons by (rewrite Hperm; by left);
      [done|].
    specialize (Hx y Hyin). specialize (Hy x Hxin). simpl in *. lia. }
  f_equal. apply IH; [done..|]. by apply Permutation_cons_inv in Hperm.
Qed.

(** A list built index by index. *)
Lemma choose_list {A B} (Q : nat → A → B → Prop) (l : list A) :
  (∀ i a, l !! i = Some a → ∃ b, Q i a b) →
  ∃ L : list B,
    length L = length l ∧ ∀ i a b, l !! i = Some a → L !! i = Some b → Q i a b.
Proof.
  induction l as [|a l IH] using rev_ind; intros Hall.
  { exists []. split; [done|]. by intros i a b [=]. }
  destruct IH as (L & Hlen & HL).
  { intros i a' Hi. apply (Hall i a'). by apply lookup_app_l_Some. }
  destruct (Hall (length l) a) as [b Hb].
  { by rewrite lookup_app_r, Nat.sub_diag by lia. }
  exists (L ++ [b]). split; [by rewrite !length_app, Hlen|].
  intros i a' b' Hi Hi'.
  destruct (decide (i < length l)%nat) as [Hlt|Hge].
  - rewrite lookup_app_l in Hi by done. rewrite lookup_app_l in Hi' by lia. eauto.
  - rewrite lookup_app_r in Hi by lia. rewrite lookup_app_r in Hi' by lia.
    rewrite Hlen in Hi'.
    destruct (i - length l)%nat as [|n] eqn:Hn; [|done].
    assert (i = length l) as -> by lia. by simplify_eq/=.
Qed.

Lemma oneTo_lookup n i : (i < n)%nat → oneTo n !! i = Some (Z.of_nat i + 1).
Proof.
  intros Hi. unfold oneTo. by rewrite list_lookup_fmap, lookup_seq_lt.
Qed.

Lemma oneTo_sorted n : StronglySorted Z.lt (oneTo n).
Proof.
  unfold oneTo. generalize 0%nat. induction n as [|n IH]; intros from; [constructor|].
  simpl. constructor; [apply IH|].
  apply Forall_fmap, Forall_forall. intros k [? _]%elem_of_seq. simpl. lia.
Qed.

Lemma findItem_of_unique projectId l k x :
  NoDup (item_id <$> filter (λ item, item_projectId item = projectId) l) →
  l !! k = Some x → item_projectId x = projectId →
  findItem projectId (item_id x) l = Some (k, x).
Proof.
  intros Hnd Hk Hp. unfold findItem. apply list_find_Some. split_and!; [done..|].
  intros j y Hj Hlt [Hid Hyp].
  rewrite NoDup_fmap_filter_lookup in Hnd.
  assert (j = k) by by eapply (Hnd j k y x). lia.
Qed.

Lemma NoDup_orderedIdsOf columns status :
  NoDup (payloadIds columns) → status ∈ VALID_STATUSES →
  NoDup (orderedIdsOf columns status).
Proof.
  intros Hnd Hs. unfold payloadIds, VALID_STATUSES in *. simpl in Hnd.
  rewrite app_nil_r in Hnd.
  apply NoDup_app in Hnd as (H1 & _ & Hnd). apply NoDup_app in Hnd as (H2 & _ & Hnd).
  apply NoDup_app in Hnd as (H3 & _ & H4).
  repeat (apply elem_of_cons in Hs as [->|Hs]; [done|]). by apply elem_of_nil in Hs.
Qed.

(** When the payload lists each item of the project once, the column of
    a status shows the items its sequence names, in that order, at the
    positions 1, 2, ... *)
Lemma reorder_full_board now projectId columns data data' response status :
  reorderItemsSync now projectId columns data = Ok (data', response) →
  NoDup (item_id <$> projectItems projectId data) →
  payloadIds columns ≡ₚ item_id <$> projectItems projectId data →
  status ∈ VALID_STATUSES →
  ∃ column,
    grouped response !! status = Some column
    ∧ item_id <$> column = orderedIdsOf columns status
    ∧ item_position <$> column = oneTo (length (orderedIdsOf columns status))
    ∧ Forall (λ item, item_status item = status) column.
Proof.
  intros Hok Hunique Hperm Hstatus.
  pose proof (reorderItemsSync_items _ _ _ _ _ _ Hok) as (Hitems & _ & Hresponse).
  assert (itemFrame <$> items data' = itemFrame <$> items data) as Hframe.
  { rewrite Hitems. apply runEntries_frame. }
  assert (NoDup (payloadIds columns)) as Hnd by by rewrite Hperm.
  assert (coversProject columns projectId data) as Hcover.
  { intros k x Hk Hp. split; [|by apply findItem_of_unique].
    rewrite Hperm. apply list_elem_of_fmap_2, list_elem_of_filter.
    split; [done|]. by eapply list_elem_of_lookup_2. }
  set (ids := orderedIdsOf columns status).
  (* the items the sequence names, as they end *)
  destruct (choose_list
              (λ index itemId y,
                 ∃ k x, findItem projectId itemId (items data) = Some (k, x)
                        ∧ items data' !! k = Some y
                        ∧ y = placed now status index x) ids) as (L & Hlen & HL).
  { intros index itemId Hindex.
    assert (itemId ∈ item_id <$> projectItems projectId data) as Hin.
    { rewrite <- Hperm. unfold payloadIds. apply list_elem_of_bind.
      exists status. split; [by eapply list_elem_of_lookup_2|done]. }
    apply list_elem_of_fmap in Hin as (x & -> & [Hp Hin]%list_elem_of_filter).
    apply list_elem_of_lookup in Hin as [k Hk].
    pose proof (findItem_of_unique _ _ _ _ Hunique Hk Hp) as Hfind.
    exists (placed now status index x), k, x. split_and!; [done| |done].
    eapply reorder_last_occurrence; [done| |done].
    by apply lastOccurrence_NoDup. }
  assert (∀ index y, L !! index = Some y →
            ∃ itemId k x, ids !! index = Some itemId
                          ∧ findItem projectId itemId (items data) = Some (k, x)
                          ∧ items data' !! k = Some y
                          ∧ y = placed now status index x) as HL'.
  { intros index y Hy.
    destruct (ids !! index) as [itemId|] eqn:Hid.
    - destruct (HL index itemId y Hid Hy) as (k & x & ?). by exists itemId, k, x.
    - apply lookup_ge_None in Hid. apply lookup_lt_Some in Hy. lia. }
  assert (item_id <$> L = ids) as Hids.
  { apply list_eq. intros index. rewrite list_lookup_fmap.
    destruct (L !! index) as [y|] eqn:Hy; simpl.
    - destruct (HL' index y Hy) as (itemId & k & x & -> & Hfind & _ & ->).
      by apply findItem_Some in Hfind as (_ & <- & _).
    - symmetry. apply lookup_ge_None. apply lookup_ge_None in Hy. lia. }
  assert (item_position <$> L = oneTo (length ids)) as Hpositions.
  { apply list_eq. intros index. rewrite list_lookup_fmap.
    destruct (L !! index) as [y|] eqn:Hy; simpl.
    - destruct (HL' index y Hy) as (itemId & k & x & Hid & _ & _ & ->).
      rewrite oneTo_lookup by (by eapply lookup_lt_Some). done.
    - symmetry. apply lookup_ge_None. apply lookup_ge_None in Hy.
      unfold oneTo. rewrite length_fmap, length_seq. lia. }
  assert (Forall (λ item, item_status item = status) L) as Hstatuses.
  { apply Forall_lookup. intros index y Hy.
    by destruct (HL' index y Hy) as (itemId & k & x & _ & _ & _ & ->). }
  (* they are the items of the project in that status *)
  assert (L ≡ₚ filter (λ item, item_projectId item = projectId ∧ item_status item = status)
                      (items data')) as HLperm.
  { apply NoDup_Permutation.
    - apply (NoDup_fmap_1 item_id). rewrite Hids. by apply NoDup_orderedIdsOf.
    - apply (NoDup_fmap_1 item_id). apply NoDup_fmap_filter_lookup.
      intros i j x y Hi Hj [Hxp _] [Hyp _] Hid.
      pose proof (frame_lookup _ _ i Hframe) as Hfi. rewrite Hi in Hfi.
      pose proof (frame_lookup _ _ j Hframe) as Hfj. rewrite Hj in Hfj.
      destruct (items data !! i) as [x0|] eqn:Hi0; [|done].
      destruct (items data !! j) as [y0|] eqn:Hj0; [|done].
      simpl in Hfi, Hfj. unfold itemFrame in Hfi, Hfj.
      injection Hfi as Hxi Hxp0 _ _ _. injection Hfj as Hyi Hyp0 _ _ _.
      destruct (Hcover i x0 Hi0 ltac:(congruence)) as [_ Hfx].
      destruct (Hcover j y0 Hj0 ltac:(congruence)) as [_ Hfy].
      assert (item_id x0 = item_id y0) as Heq by congruence.
      rewrite Heq in Hfx. congruence.
    - intros y. rewrite list_elem_of_filter. split.
      + intros [index Hy]%list_elem_of_lookup.
        destruct (HL' index y Hy) as (itemId & k & x & _ & Hfind & Hk & ->).
        apply findItem_Some in Hfind as (_ & _ & Hp).
        split; [done|]. by eapply list_elem_of_lookup_2.
      + intros [[Hp Hs] [k Hk]%list_elem_of_lookup].
        pose proof (frame_lookup _ _ k Hframe) as Hfk. rewrite Hk in Hfk.
        destruct (items data !! k) as [y0|] eqn:Hk0; [|done].
        simpl in Hfk. unfold itemFrame in Hfk. injection Hfk as _ Hp0 _ _ _.
        destruct (reorder_covered_item _ _ _ _ _ _ _ _ Hok Hcover Hk0
                    ltac:(congruence))
          as (status' & index & itemId & _ & Hentry & Htarget & Hresult).
        rewrite Hk in Hresult. injection Hresult as ->.
        simpl in Hs. subst status'.
        destruct (L !! index) as [b|] eqn:Hb.
        * destruct (HL index itemId b Hentry Hb) as (k' & x' & Hfind & Hk' & ->).
          unfold target in Htarget. rewrite Hfind in Htarget.
          injection Htarget as ->. apply list_elem_of_lookup. exists index.
          rewrite Hb. by rewrite <- Hk, <- Hk'.
        * apply lookup_ge_None in Hb. apply lookup_lt_Some in Hentry.
          fold ids in Hentry. lia. }
  exists L. split_and!; [|done..].
  rewrite Hresponse, board_column by done. f_equal.
  apply (sorted_by_key_unique item_position).
  - apply columnOf_sorted.
  - rewrite Hpositions. apply oneTo_sorted.
  - by rewrite columnOf_Permutation, HLperm.
Qed.
(** Under a payload that covers the project, the items of the response
    have statuses among the four. *)
Lemma reorder_covered_statuses now projectId columns data data' response :
  reorderItemsSync now projectId columns data = Ok (data', response) →
  coversProject columns projectId data →
  Forall (λ item, item_status item ∈ VALID_STATUSES) response.
Proof.
  intros Hok Hcover.
  pose proof (reorderItemsSync_items _ _ _ _ _ _ Hok) as (Hitems & _ & ->).
  assert (itemFrame <$> items data' = itemFrame <$> items data) as Hframe.
  { rewrite Hitems. apply runEntries_frame. }
  unfold getItemsByProjectSync. rewrite sortItems_Permutation.
  apply Forall_forall. intros y [Hp [k Hk]%list_elem_of_lookup]%list_elem_of_filter.
  pose proof (frame_lookup _ _ k Hframe) as Hfk. rewrite Hk in Hfk.
  destruct (items data !! k) as [y0|] eqn:Hk0; [|done].
  simpl in Hfk. unfold itemFrame in Hfk. injection Hfk as _ Hp0 _ _ _.
  destruct (reorder_covered_item _ _ _ _ _ _ _ _ Hok Hcover Hk0 ltac:(congruence))
    as (status & index & itemId & Hstatus & _ & _ & Hresult).
  rewrite Hk in Hresult. by injection Hresult as ->.
Qed.

Lemma full_payload_covers projectId columns data :
  NoDup (item_id <$> projectItems projectId data) →
  payloadIds columns ≡ₚ item_id <$> projectItems projectId data →
  coversProject columns projectId data.
Proof.
  intros Hunique Hperm k x Hk Hp. split; [|by apply findItem_of_unique].
  rewrite Hperm. apply list_elem_of_fmap_2, list_elem_of_filter.
  split; [done|]. by eapply list_elem_of_lookup_2.
Qed.

(** ** The bulk reorder, in full *)

Lemma placed_fields now status index item :
  item_status (placed now status index item) = status
  ∧ item_position (placed now status index item) = Z.of_nat index + 1
  ∧ item_updatedAt (placed now status index item) = now
  ∧ itemFrame (placed now status index item) = itemFrame item.
Proof. done. Qed.

Lemma lastOccurrence_entry columns status index itemId :
  lastOccurrence columns status index itemId →
  status ∈ VALID_STATUSES ∧ orderedIdsOf columns status !! index = Some itemId.
Proof.
  intros (before & after & Hentries & _). apply elem_of_payloadEntries.
  rewrite Hentries. apply elem_of_app. right. by left.
Qed.

(** C1 (amended). After a bulk reorder, the item designated by an
    identifier that stands at some index of the sequence of a status, and
    nowhere later in the payload, has that status and the position
    index + 1, and is otherwise as before but for its modification time;
    every item that is not of the project or that no sequence names is
    left as it is; and when the sequences form a full permutation of the
    identifiers of the project's items, grouping the response by status
    succeeds and shows, for each of the four statuses, the items its
    sequence names, in that order, at the positions 1..N. *)
Theorem reorder_places_named_items now projectId columns data data' response :
  reorderItemsSync now projectId columns data = Ok (data', response) →
  (∀ status index itemId k item,
     lastOccurrence columns status index itemId →
     findItem projectId itemId (items data) = Some (k, item) →
     ∃ item', items data' !! k = Some item'
              ∧ item' = placed now status index item
              ∧ item_status item' = status
              ∧ item_position item' = Z.of_nat index + 1)
  ∧ (∀ status index itemId,
       NoDup (payloadIds columns) → status ∈ VALID_STATUSES →
       orderedIdsOf columns status !! index = Some itemId →
       lastOccurrence columns status index itemId)
  ∧ (∀ k item,
       items data !! k = Some item →
       item_projectId item ≠ projectId ∨ item_id item ∉ payloadIds columns →
       items data' !! k = Some item)
  ∧ length (items data') = length (items data)
  ∧ projects data' = projects data
  ∧ (NoDup (item_id <$> projectItems projectId data) →
     payloadIds columns ≡ₚ item_id <$> projectItems projectId data →
     ∃ board,
       groupItemsByStatus response = Ok board
       ∧ ∀ status, status ∈ VALID_STATUSES →
           ∃ column,
             board !! status = Some column
             ∧ item_id <$> column = orderedIdsOf columns status
             ∧ item_position <$> column = oneTo (length (orderedIdsOf columns status))
             ∧ Forall (λ item, item_status item = status) column).
Proof.
  intros Hok.
  pose proof (reorderItemsSync_items _ _ _ _ _ _ Hok) as (Hitems & Hprojects & _).
  split_and!.
  - intros status index itemId k item Hlast Hfind.
    exists (placed now status index item).
    split_and!; [|done..]. by eapply reorder_last_occurrence.
  - intros. by apply lastOccurrence_NoDup.
  - intros. by eapply reorder_unnamed.
  - rewrite Hitems. apply runEntries_length.
  - done.
  - intros Hunique Hperm. exists (grouped response). split.
    + apply groupItemsByStatus_Ok, groupable_valid.
      eapply reorder_covered_statuses; [done|]. by apply full_payload_covers.
    + intros. by eapply reorder_full_board.
Qed.

Lemma reorder_places_named_items_witness :
  ∃ board column,
    groupItemsByStatus
      (getItemsByProjectSync "p1"
         (perform "u" "t3" (CallReorderItems "p1" swapColumns) demoData)) = Ok board
    ∧ board !! "backlog" = Some column
    ∧ item_id <$> column = ["b"; "a"]
    ∧ item_position <$> column = [1; 2].
Proof.
  destruct (reorder_places_named_items "t3" "p1" swapColumns demoData _ _ eq_refl)
    as (_ & _ & _ & _ & _ & Hfull).
  destruct (Hfull ltac:(decide_closed) (Permutation_swap "a" "b" []))
    as (board & Hboard & Hcolumns).
  destruct (Hcolumns "backlog" ltac:(decide_closed))
    as (column & Hcolumn & Hids & Hpositions & _).
  exists board, column.
  split_and!; [exact Hboard|exact Hcolumn|exact Hids|exact Hpositions].
Defined.

(** An identifier named twice is written twice, and the second write
    stays: with the backlog given as [a, a], the item [a] ends at position
    2, not at the position 1 that its first occurrence asks for. *)
Lemma reorder_repeated_id_counterexample :
  ¬ (∀ now projectId columns data data' response status index itemId k item,
       reorderItemsSync now projectId columns data = Ok (data', response) →
       status ∈ VALID_STATUSES →
       orderedIdsOf columns status !! index = Some itemId →
       findItem projectId itemId (items data) = Some (k, item) →
       ∃ item', items data' !! k = Some item'
                ∧ item_status item' = status
                ∧ item_position item' = Z.of_nat index + 1).
Proof.
  intros Hall.
  destruct (reorderItemsSync "t3" "p1" repeatedColumns demoData)
    as [[data' response]|] eqn:Hok; [|by vm_compute in Hok].
  destruct (Hall "t3" "p1" repeatedColumns demoData data' response
              "backlog" 0%nat "a" 0%nat
              taskA
              Hok ltac:(decide_closed) eq_refl eq_refl)
    as (item' & Hk & _ & Hposition).
  vm_compute in Hok. injection Hok as <- _.
  vm_compute in Hk. injection Hk as <-. vm_compute in Hposition. discriminate.
Qed.

(** ** The small board *)

Lemma demoData_distinct : positionsDistinct demoData.
Proof.
  intros projectId status. unfold positionsIn.
  apply (sublist_NoDup _ (item_position <$> items demoData)); [decide_closed|].
  apply fmap_sublist, sublist_filter.
Qed.

Lemma demoData_ordered : positionsOrdered demoData.
Proof. apply positionsDistinct_iff_ordered, demoData_distinct. Qed.

Lemma swapColumns_covers : coversProject swapColumns "p1" demoData.
Proof.
  intros [|[|k]] item; simpl; intros Hk Hp; simplify_eq; split;
    first [by vm_compute | decide_closed].
Qed.

Lemma positions_stay_ordered_witness :
  positionsOrdered (perform "u" "t3" (CallReorderItems "p1" swapColumns) demoData)
  ∧ positionsOrdered
      (handle "u" "t3" (OnProject "p1" (Some "order-me") (PostReorder swapColumns))
              demoData).1.
Proof.
  destruct (positions_stay_ordered "u" "t3"
              (OnProject "p1" (Some "order-me") (PostReorder swapColumns))
              demoData demoData_ordered swapColumns_covers) as (Hrequest & _ & Hcalls).
  split; [|exact Hrequest].
  exact (proj1 (Hcalls (CallReorderItems "p1" swapColumns) swapColumns_covers)).
Defined.

(** A reorder that names only a part of a column writes positions that
    the items it leaves aside may hold already: on the small board, built
    by calls of the exports, the backlog given as [b] puts [b] at position
    1, where [a] is. *)
Lemma partial_reorder_collides :
  ¬ (∀ data, reachable data → positionsOrdered data).
Proof.
  intros Hall.
  pose proof (Hall
    (serve DEFAULT_DATA
       (demoCalls ++ [("u", "t3", CallReorderItems "p1" partialColumns)]))
    (ex_intro _ _ eq_refl) "p1" "backlog") as Hsorted.
  assert (item_position <$>
            columnOf (serve DEFAULT_DATA
                        (demoCalls ++ [("u", "t3", CallReorderItems "p1" partialColumns)]))
                     "p1" "backlog" = [1; 1]) as Hpositions by by vm_compute.
  rewrite Hpositions in Hsorted.
  apply StronglySorted_inv in Hsorted as [_ Hfirst].
  apply Forall_cons in Hfirst as [Hlt _]. lia.
Qed.

(** ** The scenarios of the server's test suite *)

(** As the program answers them. A project is created and stored, and the
    answer carries an empty project; a second project with the same secret
    is not stored, and is answered alike; the secret is answered an empty
    project; a request on the project is answered 403 with the right
    secret. *)
Example scenario_requests :
  let created :=
    handle "p1" "t0" (PostProjects (Some "Test Project") (Some "super-secret"))
           DEFAULT_DATA in
  let second :=
    handle "p2" "t1" (PostProjects (Some "Other") (Some "super-secret")) created.1 in
  let opened := handle "u" "t2" (PostAccess (Some "super-secret")) second.1 in
  let item :=
    handle "c1" "t3"
           (OnProject "p1" (Some "super-secret") (PostItem (Some "First task") None None))
           opened.1 in
  created.2 = respond 201 (BodyProject (Some ∅))
  ∧ project_id <$> projects created.1 = ["p1"]
  ∧ second = (created.1, respond 201 (BodyProject (Some ∅)))
  ∧ opened = (created.1, respond 200 (BodyProject (Some ∅)))
  ∧ item = (created.1, respond 403 (BodyError "Invalid secret key for this project.")).
Proof. by vm_compute. Qed.

(** What the exports write in them. A card is created at position 1 of
    the backlog and moved to position 1 of "in progress" by an update;
    its deletion empties the board. *)
Example scenario_calls :
  let created :=
    serve DEFAULT_DATA
      [("p1", "t0", CallCreateProject (Some "Work Board") (Some "letmein"));
       ("c1", "t1", CallCreateItem "p1" (Some "First task") (Some "Do the thing") None)] in
  let moved :=
    perform "u" "t2"
      (CallUpdateItem "p1" "c1"
         {| updates_title := None; updates_description := None;
            updates_status := Some "in_progress" |}) created in
  let deleted := perform "u" "t3" (CallDeleteItem "p1" "c1") moved in
  (λ item, (item_status item, item_position item)) <$> items created = [("backlog", 1)]
  ∧ (λ item, (item_status item, item_position item)) <$> items moved
    = [("in_progress", 1)]
  ∧ items deleted = [].
Proof. by vm_compute. Qed.

(** ** The drag-end handler *)

Section client.
Import Client.

Lemma cloneColumns_lookup (columns : gmap string (list Item)) status :
  cloneColumns columns !! status
  = if decide (status ∈ COLUMN_ORDER) then Some (default [] (columns !! status)) else None.
Proof.
  unfold cloneColumns, COLUMN_ORDER, VALID_STATUSES. simpl.
  case_decide as Hin.
  - repeat (apply elem_of_cons in Hin as [->|Hin]; [by simplify_map_eq|]).
    by apply elem_of_nil in Hin.
  - rewrite !lookup_insert_ne, lookup_empty; [done|..];
      intros <-; apply Hin; repeat constructor.
Qed.

Lemma ensureColumns_lookup (columns : gmap string (list Item)) status :
  ensureColumns (Some columns) !! status
  = if decide (status ∈ COLUMN_ORDER) then Some (default [] (columns !! status)) else None.
Proof.
  unfold ensureColumns, createEmptyColumns, COLUMN_ORDER, VALID_STATUSES. simpl.
  case_decide as Hin.
  - repeat (apply elem_of_cons in Hin as [->|Hin];
            [by repeat case_match; simplify_map_eq|]).
    by apply elem_of_nil in Hin.
  - repeat case_match; rewrite ?lookup_insert_ne, ?lookup_empty; try done;
      intros <-; apply Hin; repeat constructor.
Qed.

(** The snapshot the handler works on holds, for each column of the board,
    what the state holds for it. *)
Lemma snapshot_lookup board status :
  cloneColumns (activeColumns board) !! status
  = if decide (status ∈ COLUMN_ORDER) then Some (default [] (columns board !! status))
    else None.
Proof.
  rewrite cloneColumns_lookup. unfold activeColumns.
  case_decide as Hin; [|done]. rewrite ensureColumns_lookup.
  by rewrite decide_True.
Qed.

(** C9. A drop whose destination is the source column at the source index
    makes the handler return at once: no setter is called and no request is
    sent. A drop for which the source column holds no item at the source
    index has no effect either, and on a column of the board the handler
    simply returns. *)
Theorem drop_in_place_and_missing_item_do_nothing board result :
  (∀ place, destination result = Some place →
            droppableId place = droppableId (source result) →
            index place = index (source result) →
            handleDragEnd board result = ([], Returned))
  ∧ (default [] (columns board !! droppableId (source result)) !! index (source result)
     = None →
     fst (handleDragEnd board result) = []
     ∧ (droppableId (source result) ∈ COLUMN_ORDER →
        handleDragEnd board result = ([], Returned))).
Proof.
  split.
  - intros place Hdest Hcol Hidx. unfold handleDragEnd. rewrite Hdest.
    rewrite bool_decide_eq_true_2 by done.
    by destruct (project board), (Js.truthy (secretKey board)).
  - intros Hmissing. unfold handleDragEnd.
    destruct (project board) as [projectId|]; [|done].
    destruct (Js.truthy (secretKey board)); [|done].
    destruct (destination result) as [place|]; [|done].
    case_bool_decide; [done|].
    rewrite snapshot_lookup. case_decide as Hin; [|done].
    rewrite Hmissing. done.
Qed.

Lemma drop_in_place_and_missing_item_do_nothing_witness :
  handleDragEnd demoBoard sameSpotDrop = ([], Returned)
  ∧ handleDragEnd demoBoard staleDrop = ([], Returned).
Proof.
  split.
  - exact (proj1 (drop_in_place_and_missing_item_do_nothing demoBoard sameSpotDrop)
                 {| droppableId := "backlog"; index := 1 |} eq_refl eq_refl eq_refl).
  - refine (proj2 (proj2 (drop_in_place_and_missing_item_do_nothing demoBoard staleDrop)
                         eq_refl) _).
    vm_compute. repeat constructor.
Defined.

(** An ordinary drop does reach the setter and the network: the first card
    of the backlog dropped on top of "in progress". *)
Example moveDrop_is_submitted :
  ∃ optimistic previous,
    handleDragEnd demoBoard moveDrop
    = ([SetColumns optimistic; SetError EmptyString;
        ApiReorderItems "p1" "order-me"
          (<["backlog" := ["b"]]> (<["in_progress" := ["a"]]>
             (<["review" := []]> (<["done" := []]> ∅))))],
       Awaiting previous)
    ∧ item_status <$> (optimistic !! "in_progress") ≫= (.!! 0%nat) = Some "in_progress".
Proof. do 2 eexists. split; vm_compute; reflexivity. Qed.

End client.

(* ===================================================================== *)
(** * Further properties                                                  *)
(* ===================================================================== *)

(** ** More on the stable sort *)

Section stableSort_more.
Context {A : Type} (cmp : A → A → Z).

(** A sorted list is left as it is. *)
Lemma stableSort_sorted_id l :
  StronglySorted (λ a b, cmp a b ≤ 0) l → stableSort cmp l = l.
Proof.
  induction 1 as [|x l Hl IH Hx]; [done|].
  unfold stableSort in *. simpl. rewrite IH.
  destruct l as [|y l']; [done|]. simpl.
  apply Forall_cons in Hx as [Hxy _].
  by rewrite (proj2 (Z.ltb_ge _ _) Hxy).
Qed.

(** An element that nothing of the list has to follow goes last. *)
Lemma insertSorted_snoc x y l :
  cmp x y ≤ 0 → insertSorted cmp x (l ++ [y]) = insertSorted cmp x l ++ [y].
Proof.
  intros Hxy. induction l as [|z l IH]; simpl.
  - by rewrite (proj2 (Z.ltb_ge _ _) Hxy).
  - destruct (0 <? cmp x z); [by rewrite IH|done].
Qed.

Lemma stableSort_snoc l y :
  Forall (λ x, cmp x y ≤ 0) l → stableSort cmp (l ++ [y]) = stableSort cmp l ++ [y].
Proof.
  induction 1 as [|x l Hx _ IH]; [done|].
  unfold stableSort in *. simpl. rewrite IH. by apply insertSorted_snoc.
Qed.

(** Only the comparisons between elements of the list matter. *)
Lemma insertSorted_ext (cmp' : A → A → Z) x l :
  Forall (λ y, cmp x y = cmp' x y) l → insertSorted cmp x l = insertSorted cmp' x l.
Proof.
  induction 1 as [|y l Hy _ IH]; [done|]. simpl. by rewrite Hy, IH.
Qed.

Lemma stableSort_ext (cmp' : A → A → Z) l :
  (∀ x y, x ∈ l → y ∈ l → cmp x y = cmp' x y) →
  stableSort cmp l = stableSort cmp' l.
Proof.
  induction l as [|x l IH]; intros Hext; [done|].
  unfold stableSort in *. simpl. rewrite IH.
  - apply insertSorted_ext, Forall_forall. intros y Hy. apply Hext; [by left|].
    right. fold (stableSort cmp' l) in Hy. by rewrite stableSort_Permutation in Hy.
  - intros y z Hy Hz. apply Hext; by right.
Qed.

Hypothesis cmp_trans : ∀ a b c, cmp a b ≤ 0 → cmp b c ≤ 0 → cmp a c ≤ 0.
Hypothesis cmp_total : ∀ a b, 0 < cmp a b → cmp b a ≤ 0.

(** Selecting before or after sorting gives the same list. *)
Lemma filter_insertSorted (P : A → Prop) `{!∀ x, Decision (P x)} x l :
  StronglySorted (λ a b, cmp a b ≤ 0) l →
  filter P (insertSorted cmp x l)
  = if decide (P x) then insertSorted cmp x (filter P l) else filter P l.
Proof.
  induction 1 as [|y l Hl IH Hy]; simpl.
  - rewrite filter_cons, filter_nil. by case_decide.
  - destruct (0 <? cmp x y) eqn:Hxy.
    + rewrite !filter_cons, IH.
      destruct (decide (P x)), (decide (P y)); simpl; try done. by rewrite Hxy.
    + rewrite (filter_cons _ x). destruct (decide (P x)) as [Px|Px]; [|done].
      apply Z.ltb_ge in Hxy.
      destruct (filter P (y :: l)) as [|z rest] eqn:Hfilter; [done|]. simpl.
      assert (z ∈ y :: l) as Hz.
      { assert (z ∈ filter P (y :: l)) as Hin by (rewrite Hfilter; by left).
        by apply list_elem_of_filter in Hin as [_ ?]. }
      assert (cmp x z ≤ 0) as Hxz.
      { apply elem_of_cons in Hz as [->|Hz]; [done|].
        rewrite Forall_forall in Hy. eauto. }
      by rewrite (proj2 (Z.ltb_ge _ _) Hxz).
Qed.

Lemma filter_stableSort (P : A → Prop) `{!∀ x, Decision (P x)} l :
  filter P (stableSort cmp l) = stableSort cmp (filter P l).
Proof.
  induction l as [|x l IH]; [done|].
  unfold stableSort in *. simpl.
  rewrite filter_insertSorted by by apply stableSort_sorted.
  rewrite filter_cons, IH. by case_decide.
Qed.

End stableSort_more.

(** ** The order of the board *)

Lemma compareItems_boardOrder a b : compareItems a b ≤ 0 ↔ boardOrder a b.
Proof.
  unfold compareItems, boardOrder, statusRank. case_bool_decide; lia.
Qed.

Lemma filter_sortItems (P : Item → Prop) `{!∀ x, Decision (P x)} l :
  filter P (sortItems l) = sortItems (filter P l).
Proof.
  apply filter_stableSort; [apply compareItems_trans|apply compareItems_total].
Qed.

(** A column is the stored items of the project and status, sorted by
    position, ties in stored order. *)
Lemma columnOf_storedIn data projectId status :
  columnOf data projectId status
  = stableSort byPosition (storedIn data projectId status).
Proof.
  unfold columnOf, getItemsByProjectSync, storedIn.
  rewrite filter_sortItems, list_filter_filter.
  rewrite (list_filter_iff _ (λ item, item_projectId item = projectId
                                      ∧ item_status item = status)) by tauto.
  apply stableSort_ext. intros x y [[_ Hx] _]%list_elem_of_filter
                                 [[_ Hy] _]%list_elem_of_filter.
  apply compareItems_same_status. congruence.
Qed.

Lemma StronglySorted_impl {A} (R R' : relation A) l :
  (∀ x y, R x y → R' x y) → StronglySorted R l → StronglySorted R' l.
Proof.
  intros HR. induction 1 as [|x l _ IH Hx]; constructor; [done|].
  eapply Forall_impl; [done|]. auto.
Qed.

Lemma StronglySorted_all {A} (R : relation A) l :
  (∀ x y, x ∈ l → y ∈ l → R x y) → StronglySorted R l.
Proof.
  induction l as [|x l IH]; intros HR; constructor.
  - apply IH. intros y z Hy Hz. apply HR; by right.
  - apply Forall_forall. intros y Hy. apply HR; [by left|by right].
Qed.

(** X1. [sortItems] rearranges its input into the order of the board: by
    the rank of the status, then by position; items of one status and
    position stay in the order they had; sorting a second time changes
    nothing. *)
Theorem sortItems_orders_board l :
  sortItems l ≡ₚ l
  ∧ StronglySorted boardOrder (sortItems l)
  ∧ (∀ status position,
       filter (λ item, item_status item = status ∧ item_position item = position)
              (sortItems l)
       = filter (λ item, item_status item = status ∧ item_position item = position) l)
  ∧ sortItems (sortItems l) = sortItems l.
Proof.
  split_and!.
  - apply sortItems_Permutation.
  - eapply StronglySorted_impl; [|apply sortItems_sorted].
    intros x y. apply compareItems_boardOrder.
  - intros status position. rewrite filter_sortItems.
    apply stableSort_sorted_id, StronglySorted_all.
    intros x y [[Hxs Hxp] _]%list_elem_of_filter [[Hys Hyp] _]%list_elem_of_filter.
    rewrite compareItems_same_status by congruence. lia.
  - apply stableSort_sorted_id, sortItems_sorted.
Qed.

(** ** The items of a project, listed *)

Lemma boardOf_lookup projectId data status :
  status ∈ VALID_STATUSES →
  boardOf projectId data !! status
  = Some (stableSort byPosition (storedIn data projectId status)).
Proof.
  intros Hin. unfold boardOf. rewrite board_column by done.
  by rewrite columnOf_storedIn.
Qed.

(** X2. The items of a project as [getItemsByProjectSync] returns them,
    grouped by status: when none of their statuses names a member of
    [Object.prototype], [groupItemsByStatus] returns a board, and each of
    its four columns is the stored items of that project and status, and
    no others, sorted by position, with ties in stored order. *)
Theorem listed_columns_are_the_stored_items projectId data :
  groupable (getItemsByProjectSync projectId data) →
  groupItemsByStatus (getItemsByProjectSync projectId data) = Ok (boardOf projectId data)
  ∧ ∀ status, status ∈ VALID_STATUSES →
      boardOf projectId data !! status
      = Some (stableSort byPosition (storedIn data projectId status)).
Proof.
  intros Hgroupable. split; [by apply groupItemsByStatus_Ok|].
  intros. by apply boardOf_lookup.
Qed.

Lemma listed_columns_are_the_stored_items_witness :
  groupItemsByStatus (getItemsByProjectSync "p1" demoData) = Ok (boardOf "p1" demoData)
  ∧ boardOf "p1" demoData !! "backlog"
    = Some (stableSort byPosition (storedIn demoData "p1" "backlog")).
Proof.
  destruct (listed_columns_are_the_stored_items "p1" demoData ltac:(decide_closed))
    as [Hboard Hcolumns].
  split; [exact Hboard|]. apply Hcolumns. decide_closed.
Defined.

(** X3. [groupItemsByStatus], on items none of whose statuses names a
    member of [Object.prototype], returns a board that has the four
    columns, holds every item in the column of its status and nowhere
    else, and keeps the order of its input within each column. On other
    items it throws a [TypeError]: the value found under such a status is
    no array. *)
Theorem groupItemsByStatus_places_every_item l :
  (groupable l →
   ∃ board,
     groupItemsByStatus l = Ok board
     ∧ (∀ status, status ∈ VALID_STATUSES → is_Some (board !! status))
     ∧ (∀ status column,
          board !! status = Some column →
          column = filter (λ item, item_status item = status) l)
     ∧ (∀ item, item ∈ l →
          ∃ column, board !! item_status item = Some column ∧ item ∈ column))
  ∧ (¬ groupable l →
     groupItemsByStatus l = Throw "columns[item.status].push is not a function").
Proof.
  split; [|intros Hnot; by rewrite groupItemsByStatus_grouped, decide_False].
  intros Hgroupable. exists (grouped l). split; [by apply groupItemsByStatus_Ok|].
  assert (∀ status column,
            grouped l !! status = Some column →
            column = filter (λ item, item_status item = status) l) as Hcolumn.
  { intros status column.
    destruct (decide (status ∈ VALID_STATUSES)) as [Hin|Hout].
    - rewrite grouped_lookup by done. congruence.
    - rewrite grouped_lookup_other by done.
      destruct (filter _ l); [done|congruence]. }
  split_and!; [|done|].
  - intros status Hin. by rewrite grouped_lookup.
  - intros item Hin.
    assert (item ∈ filter (λ i, item_status i = item_status item) l) as Hfiltered
      by by apply list_elem_of_filter.
    destruct (decide (item_status item ∈ VALID_STATUSES)) as [Hvalid|Hout].
    + rewrite grouped_lookup by done. eauto.
    + rewrite grouped_lookup_other by done.
      destruct (filter _ l) as [|x rest] eqn:Hf; [by apply elem_of_nil in Hfiltered|].
      eauto.
Qed.

Lemma groupItemsByStatus_places_every_item_witness :
  (∃ board column,
     groupItemsByStatus (items demoData) = Ok board
     ∧ board !! "backlog" = Some column ∧ taskB ∈ column)
  ∧ groupItemsByStatus [withStatusPosition taskA "constructor" 1]
    = Throw "columns[item.status].push is not a function".
Proof.
  split.
  - destruct (proj1 (groupItemsByStatus_places_every_item (items demoData))
                ltac:(decide_closed)) as (board & Hboard & _ & _ & Hplaced).
    destruct (Hplaced taskB ltac:(decide_closed)) as (column & Hcolumn & Hin).
    exists board, column. split_and!; [exact Hboard|exact Hcolumn|exact Hin].
  - apply (proj2 (groupItemsByStatus_places_every_item
                    [withStatusPosition taskA "constructor" 1])).
    decide_closed.
Defined.

(** ** Where a created item shows *)

Lemma createItemSync_storedIn uuid now projectId title description status data data' item :
  createItemSync uuid now projectId title description status data = Ok (data', item) →
  ∀ projectId' status',
    storedIn data' projectId' status'
    = storedIn data projectId' status'
      ++ (if decide (projectId' = projectId ∧ status' = item_status item)
          then [item] else []).
Proof.
  intros (_ & Hitem & ->)%createItemSync_Ok projectId' status'.
  unfold storedIn. simpl. rewrite filter_app. f_equal.
  rewrite filter_cons, filter_nil. rewrite Hitem. simpl.
  destruct (decide (projectId = projectId' ∧ _)) as [[-> ->]|Hne];
    [by rewrite decide_True|].
  rewrite decide_False; [done|]. intros [-> ->]. by apply Hne.
Qed.

Lemma createItemSync_columnOf
    uuid now projectId title description status data data' item :
  createItemSync uuid now projectId title description status data = Ok (data', item) →
  columnOf data' projectId (item_status item)
  = columnOf data projectId (item_status item) ++ [item]
  ∧ ∀ projectId' status',
      ¬ (projectId' = projectId ∧ status' = item_status item) →
      columnOf data' projectId' status' = columnOf data projectId' status'.
Proof.
  intros Hcreate.
  pose proof (createItemSync_storedIn _ _ _ _ _ _ _ _ _ Hcreate) as Hstored.
  pose proof Hcreate as (_ & Hitem & _)%createItemSync_Ok.
  split.
  - rewrite !columnOf_storedIn, Hstored, decide_True by done.
    apply stableSort_snoc, Forall_forall.
    intros x [[Hp Hs] Hin]%list_elem_of_filter. unfold byPosition.
    pose proof (nextPositionForStatus_above data projectId (item_status item) x
                  Hin Hp Hs) as Hlt.
    rewrite Hitem in Hlt |- *. simpl in *. lia.
  - intros projectId' status' Hother.
    by rewrite !columnOf_storedIn, Hstored, decide_False, app_nil_r.
Qed.

(** X4. A created item shows at the end of the column of its project and
    status; every other column of every project is as before. *)
Theorem created_item_shows_last
    uuid now projectId title description status data data' item :
  createItemSync uuid now projectId title description status data = Ok (data', item) →
  columnOf data' projectId (item_status item)
  = columnOf data projectId (item_status item) ++ [item]
  ∧ ∀ projectId' status',
      ¬ (projectId' = projectId ∧ status' = item_status item) →
      columnOf data' projectId' status' = columnOf data projectId' status'.
Proof. apply createItemSync_columnOf. Qed.

Lemma created_item_shows_last_witness :
  ∃ data' item,
    createItemSync "c" "t3" "p1" (Some "Task 3") None None demoData = Ok (data', item)
    ∧ columnOf data' "p1" (item_status item)
      = columnOf demoData "p1" (item_status item) ++ [item].
Proof.
  do 2 eexists. split; [reflexivity|].
  exact (proj1 (created_item_shows_last "c" "t3" "p1" (Some "Task 3") None None
                  demoData _ _ eq_refl)).
Defined.


(** ** What a call stores *)

Lemma perform_createProject uuid now name secretKey data data' project :
  createProjectSync uuid now name secretKey data = Ok (data', project) →
  perform uuid now (CallCreateProject name secretKey) data = data'.
Proof. intros H. unfold perform, createProject. cbn [fst]. by rewrite H. Qed.

Lemma perform_createItem uuid now projectId title description status data data' item :
  createItemSync uuid now projectId title description status data = Ok (data', item) →
  perform uuid now (CallCreateItem projectId title description status) data = data'.
Proof. intros H. unfold perform, createItem. cbn [fst from_option]. by rewrite H. Qed.

Lemma perform_updateItem uuid now projectId itemId updates data data' updated :
  updateItemSync now projectId itemId updates data = Ok (data', updated) →
  perform uuid now (CallUpdateItem projectId itemId updates) data = data'.
Proof. intros H. unfold perform, updateItem. cbn [fst from_option]. by rewrite H. Qed.

Lemma perform_deleteItem uuid now projectId itemId data data' removed :
  deleteItemSync projectId itemId data = Ok (data', removed) →
  perform uuid now (CallDeleteItem projectId itemId) data = data'.
Proof. intros H. unfold perform, deleteItem. cbn [fst from_option]. by rewrite H. Qed.

Lemma perform_reorderItems uuid now projectId columns data data' response :
  reorderItemsSync now projectId columns data = Ok (data', response) →
  perform uuid now (CallReorderItems projectId columns) data = data'.
Proof. intros H. unfold perform, reorderItems. cbn [fst from_option]. by rewrite H. Qed.

(** What a creation checked before it stored the item. *)
Lemma createItemSync_checks uuid now projectId title description status data data' item :
  createItemSync uuid now projectId title description status data = Ok (data', item) →
  Js.truthy (Js.trim (Js.orEmpty title)) = true
  ∧ Exists (λ project, project_id project = projectId) (projects data).
Proof.
  unfold createItemSync. intros H.
  apply bind_Ok in H as ([] & Htitle%throwUnless_Ok & H).
  apply bind_Ok in H as ([] & _ & H).
  apply bind_Ok in H as ([] & Hproject%throwUnless_Ok & _).
  split; [done|]. apply bool_decide_eq_true in Hproject.
  destruct (list_find _ _) as [[k p]|] eqn:Hfind; [|done].
  apply list_find_Some in Hfind as (Hk & Hp & _).
  apply Exists_exists. exists p. split; [by eapply list_elem_of_lookup_2|done].
Qed.

(** The item a successful PATCH stores, field by field. *)
Lemma updateItemSync_fields now projectId itemId updates data data' updated :
  updateItemSync now projectId itemId updates data = Ok (data', updated) →
  ∃ k item,
    findItem projectId itemId (items data) = Some (k, item)
    ∧ data' = {| projects := projects data; items := <[k := updated]> (items data) |}
    ∧ (∀ title, updates_title updates = Some title → Js.truthy (Js.trim title) = true)
    ∧ (∀ status, updates_status updates = Some status → status ∈ VALID_STATUSES)
    ∧ updated =
        {| item_id := item_id item;
           item_projectId := item_projectId item;
           item_title := from_option Js.trim (item_title item) (updates_title updates);
           item_description :=
             from_option Js.trim (item_description item) (updates_description updates);
           item_status := default (item_status item) (updates_status updates);
           item_position :=
             match updates_status updates with
             | Some status =>
                 if decide (status = item_status item) then item_position item
                 else nextPositionForStatus data projectId status
             | None => item_position item
             end;
           item_createdAt := item_createdAt item;
           item_updatedAt := now |}.
Proof.
  unfold updateItemSync. destruct (findItem _ _ _) as [[k item]|]; [|done].
  intros H. exists k, item. split; [done|].
  apply bind_Ok in H as (item1 & H1 & H).
  apply bind_Ok in H as (item2 & H2 & H).
  injection H as <- <-. split; [done|].
  destruct item as [i p t d s pos c u].
  destruct (updates_title updates) as [title|];
    [apply bind_Ok in H1 as ([] & Htitle%throwUnless_Ok & [= <-])|injection H1 as <-];
  (destruct (updates_status updates) as [status|];
    [apply bind_Ok in H2 as ([] & Hvalid%throwUnless_Ok & H2);
     apply bool_decide_eq_true in Hvalid;
     case_bool_decide as Hs; injection H2 as <-|injection H2 as <-]);
  destruct (updates_description updates); simpl in *;
  (split_and!; [by intros ? [= <-] || done|by intros ? [= <-] || done|]);
  repeat case_decide; by simplify_eq.
Qed.

(** ** Stores the exports build *)

Lemma itemWellFormed_projects data data' item :
  (∀ projectId, Exists (λ p, project_id p = projectId) (projects data) →
                Exists (λ p, project_id p = projectId) (projects data')) →
  itemWellFormed data item → itemWellFormed data' item.
Proof. intros Hmono (? & ? & ? & ?). split_and!; auto. Qed.

Lemma nextPositionForStatus_from_one data projectId status :
  Forall (λ item, 1 ≤ item_position item) (items data) →
  1 ≤ nextPositionForStatus data projectId status.
Proof.
  intros Hall.
  destruct (nextPositionForStatus_appended data projectId status)
    as [[_ ->]|(m & [Hin _] & ->)]; [done|].
  unfold positionsIn in Hin.
  apply list_elem_of_fmap in Hin as (x & -> & [_ Hx]%list_elem_of_filter).
  rewrite Forall_forall in Hall. specialize (Hall x Hx). lia.
Qed.

(** What a sequence of writes leaves at an index: the item that was
    there, or that item as an entry of the sequence writes it. *)
Lemma runEntries_lookup now projectId entries l k x' :
  runEntries now projectId l entries !! k = Some x' →
  ∃ x, l !! k = Some x
       ∧ (x' = x
          ∨ ∃ entry, entry ∈ entries ∧ aimsAt projectId l k entry
                     ∧ x' = placed now entry.1.1 entry.1.2 x).
Proof.
  intros Hk'.
  destruct (l !! k) as [x|] eqn:Hk.
  - exists x. split; [done|].
    destruct (decide (Exists (aimsAt projectId l k) entries)) as [Hex|Hnone].
    + destruct (runEntries_written now projectId _ _ _ _ Hex Hk)
        as (entry & Hin & Haim & Hresult).
      right. exists entry. split_and!; [done..|]. congruence.
    + left. rewrite runEntries_untouched in Hk' by
        (apply Forall_forall; intros e Hin Haim; apply Hnone, Exists_exists; eauto).
      congruence.
  - apply lookup_ge_None in Hk. apply lookup_lt_Some in Hk'.
    rewrite runEntries_length in Hk'. lia.
Qed.

Lemma perform_wellFormed uuid now call data :
  wellFormed data → wellFormed (perform uuid now call data).
Proof.
  intros [Hitems Hprojects]. apply perform_keeps; [done|..].
  - intros name secretKey data' project Hcreate.
    apply createProjectSync_Ok in Hcreate as (Hname & Hkey & _ & Hp & ->).
    split; simpl.
    + eapply Forall_impl; [done|]. intros item. apply itemWellFormed_projects.
      simpl. intros pid Hex. apply Exists_app. by left.
    + apply Forall_app. split; [done|]. apply Forall_singleton. by rewrite Hp.
  - intros projectId data' Hdelete.
    unfold deleteProjectSync in Hdelete.
    destruct (list_find _ _) as [[k p]|] eqn:Hfind; [|done].
    injection Hdelete as Hdata. rewrite <- Hdata.
    apply list_find_Some in Hfind as (Hk & Hp & _).
    split; simpl; [|by apply Forall_delete].
    apply Forall_forall. intros item [Hne Hitem]%list_elem_of_filter.
    rewrite Forall_forall in Hitems.
    destruct (Hitems item Hitem) as (? & ? & ? & Hex). split_and!; [done..|].
    simpl. apply Exists_exists in Hex as (q & [j Hj]%list_elem_of_lookup & Hq).
    apply Exists_exists. exists q. split; [|done].
    assert (j ≠ k) as Hjk by (intros ->; congruence).
    apply list_elem_of_lookup.
    destruct (decide (j < k)%nat).
    + exists j. by rewrite list_lookup_delete_lt.
    + exists (pred j). rewrite list_lookup_delete_ge by lia.
      by replace (S (pred j)) with j by lia.
  - intros projectId title description status data' item Hcreate.
    pose proof (createItemSync_checks _ _ _ _ _ _ _ _ _ Hcreate) as [Htitle Hex].
    pose proof Hcreate as (Hvalid & Hitem & ->)%createItemSync_Ok.
    split; simpl; [|done]. apply Forall_app. split; [done|].
    apply Forall_singleton. rewrite Hitem. split_and!; simpl; [done| |done..].
    apply nextPositionForStatus_from_one.
    eapply Forall_impl; [done|]. by intros ? (? & ? & _).
  - intros projectId itemId updates data' item Hupdate.
    apply updateItemSync_fields in Hupdate
      as (k & old & Hfind & -> & Htitle & Hstatus & Hupdated).
    apply findItem_Some in Hfind as (Hk & _ & _).
    rewrite Forall_lookup in Hitems.
    destruct (Hitems k old Hk) as (Hs & Hpos & Ht & Hex).
    split; simpl; [|done]. apply Forall_insert; [by apply Forall_lookup|].
    rewrite Hupdated. split_and!; simpl.
    + destruct (updates_status updates); [by apply Hstatus|done].
    + destruct (updates_status updates); [|done]. case_decide; [done|].
      apply nextPositionForStatus_from_one, Forall_lookup.
      intros j y Hj. by destruct (Hitems j y Hj) as (_ & ? & _).
    + destruct (updates_title updates); [by apply Htitle|done].
    + done.
  - intros projectId itemId data' item Hdelete.
    apply deleteItemSync_Ok in Hdelete as (k & _ & ->).
    split; simpl; [by apply Forall_delete|done].
  - intros projectId columns data' items' _ Hreorder.
    apply reorderItemsSync_items in Hreorder as (Hitems' & Hprojects' & _).
    split; [|by rewrite Hprojects'].
    apply Forall_lookup. intros k x' Hk'. rewrite Hitems' in Hk'.
    apply runEntries_lookup in Hk' as (x & Hk & Hx').
    rewrite Forall_lookup in Hitems.
    destruct (Hitems k x Hk) as (Hs & Hpos & Ht & Hex).
    destruct Hx' as [->|([[status index] itemId] & Hentry & _ & ->)].
    + split_and!; [done..|]. by rewrite Hprojects'.
    + apply elem_of_payloadEntries in Hentry as [Hvalid _].
      split_and!; simpl; [done|lia|done|]. by rewrite Hprojects'.
Qed.

Lemma reachable_wellFormed data : reachable data → wellFormed data.
Proof.
  apply reachable_ind; [split; constructor|]. intros. by apply perform_wellFormed.
Qed.

(** X5. Every store built from the empty document is well formed: each
    item has one of the four statuses, a position from 1 on, a title that
    is not empty and a project that exists, and each project has a name and
    a secret that are not empty. No request breaks this, and no call of an
    export. *)
Theorem stores_stay_well_formed :
  (∀ uuid now request data,
     wellFormed data → wellFormed (handle uuid now request data).1)
  ∧ (∀ data, reachable data → wellFormed data)
  ∧ (∀ uuid now call data, wellFormed data → wellFormed (perform uuid now call data)).
Proof.
  split_and!; [|apply reachable_wellFormed|apply perform_wellFormed].
  intros uuid now request data. apply handle_keeps. intros. by apply perform_wellFormed.
Qed.

Lemma stores_stay_well_formed_witness : wellFormed demoData.
Proof.
  exact (proj1 (proj2 stores_stay_well_formed) demoData (ex_intro _ demoCalls eq_refl)).
Defined.

(** X6. On a store the exports have built, a project-scoped request that
    carries no secret, or only white space, is never let through: it is
    answered 404 or 403 and changes nothing. No project of such a store has
    the secret the middleware would compare with. *)
Theorem blank_secret_is_never_admitted uuid now projectId secretHeader route data :
  reachable data →
  Js.trim (Js.orEmpty secretHeader) = EmptyString →
  let answer := handle uuid now (OnProject projectId secretHeader route) data in
  (statusCode answer.2 = 404 ∨ statusCode answer.2 = 403) ∧ answer.1 = data
  ∧ ∀ project, project ∈ projects data →
      project_secretKey project ≠ Js.trim (Js.orEmpty secretHeader).
Proof.
  intros [_ Hprojects]%reachable_wellFormed Hblank. cbv zeta.
  rewrite handle_answers. split_and!; [by right|done|].
  intros project Hin. rewrite Forall_forall in Hprojects.
  destruct (Hprojects project Hin) as [_ Hsecret].
  rewrite Hblank. by destruct (project_secretKey project).
Qed.

Lemma blank_secret_is_never_admitted_witness :
  statusCode (handle "u" "t3" (OnProject "p1" None (DeleteItem "a")) demoData).2 = 403
  ∧ (handle "u" "t3" (OnProject "p1" None (DeleteItem "a")) demoData).1 = demoData.
Proof.
  destruct (blank_secret_is_never_admitted "u" "t3" "p1" None (DeleteItem "a") demoData
              (ex_intro _ demoCalls eq_refl) eq_refl) as (_ & Hsame & _).
  split; [reflexivity|exact Hsame].
Defined.

(** X7. A request that is answered with an error status, and a request that
    only reads, leave the store exactly as it was. *)
Theorem errors_and_reads_keep_the_store uuid now request data :
  400 ≤ statusCode (handle uuid now request data).2 ∨ readsOnly request = true →
  (handle uuid now request data).1 = data.
Proof.
  rewrite handle_answers. destruct request; simpl; [|done..].
  intros [?|?]; [lia|done].
Qed.

Lemma errors_and_reads_keep_the_store_witness :
  (handle "u" "t3" (OnProject "p1" (Some "order-me")
                      (PostItem (Some "   ") None (Some "done"))) demoData).1
  = demoData.
Proof.
  apply errors_and_reads_keep_the_store. left. vm_compute. discriminate.
Defined.


(** ** Projects apart *)

Lemma filter_insert_same {A} (P : A → Prop) `{!∀ x, Decision (P x)} (l : list A) k x y :
  l !! k = Some x → ¬ P x → ¬ P y → filter P (<[k := y]> l) = filter P l.
Proof.
  intros Hk Hx Hy. rewrite <- (take_drop_middle l k x Hk) at 2.
  rewrite insert_take_drop by (by eapply lookup_lt_Some).
  rewrite !filter_app, !filter_cons. by rewrite !decide_False.
Qed.

Lemma filter_delete_same {A} (P : A → Prop) `{!∀ x, Decision (P x)} (l : list A) k x :
  l !! k = Some x → ¬ P x → filter P (delete k l) = filter P l.
Proof.
  intros Hk Hx. rewrite <- (take_drop_middle l k x Hk) at 2.
  rewrite delete_take_drop, !filter_app, filter_cons. by rewrite decide_False.
Qed.

Lemma runEntries_filter_other now projectId entries l (P : Item → Prop)
    `{!∀ x, Decision (P x)} :
  (∀ x, P x → item_projectId x ≠ projectId) →
  filter P (runEntries now projectId l entries) = filter P l.
Proof.
  intros HP. apply filter_agree, Forall2_same_length_lookup.
  split; [apply runEntries_length|].
  intros k x' x Hk' Hk Hsel.
  apply runEntries_lookup in Hk' as (x0 & Hk0 & Hx').
  assert (x0 = x) as -> by congruence.
  destruct Hx' as [->|(entry & _ & Haim & ->)]; [done|].
  apply (aimsAt_item _ _ _ _ x) in Haim as [_ Hp]; [|done].
  destruct Hsel as [Hsel|Hsel]; by apply HP in Hsel.
Qed.

(** The cases of [handle_store], for a request whose answer is named. *)
(** X8. A request made on one project leaves the items of every other
    project as they are, as well as every other project; a request that is
    not made on a project leaves all items as they are. So it is for the
    calls of the exports. *)
Theorem requests_stay_within_their_project uuid now data :
  (∀ request,
     let data' := (handle uuid now request data).1 in
     match request with
     | OnProject projectId _ _ =>
         filter (λ item, item_projectId item ≠ projectId) (items data')
         = filter (λ item, item_projectId item ≠ projectId) (items data)
         ∧ filter (λ project, project_id project ≠ projectId) (projects data')
           = filter (λ project, project_id project ≠ projectId) (projects data)
     | _ => items data' = items data
     end)
  ∧ (∀ call,
       let data' := perform uuid now call data in
       match callProject call with
       | Some projectId =>
           filter (λ item, item_projectId item ≠ projectId) (items data')
           = filter (λ item, item_projectId item ≠ projectId) (items data)
           ∧ filter (λ project, project_id project ≠ projectId) (projects data')
             = filter (λ project, project_id project ≠ projectId) (projects data)
       | None => items data' = items data
       end).
Proof.
  assert (∀ name secretKey,
            items (perform uuid now (CallCreateProject name secretKey) data) = items data)
    as Hcreated.
  { intros name secretKey. unfold perform, createProject. cbn [fst].
    destruct (createProjectSync _ _ _ _ _) as [[data' project]|] eqn:Hcreate; [|done].
    by apply createProjectSync_Ok in Hcreate as (_ & _ & _ & _ & ->). }
  split.
  - intros request. cbv zeta. rewrite handle_answers.
    destruct request; cbn [fst]; by auto.
  - intros call. cbv zeta.
    destruct call as [| | |name secretKey|projectId| |projectId title description status
                     |projectId itemId updates|projectId itemId|projectId columns];
      cbn [callProject]; try done; try apply Hcreated;
      unfold perform, deleteProject, createItem, updateItem, deleteItem, reorderItems;
      cbn [fst from_option].
    + unfold deleteProjectSync.
      destruct (list_find _ _) as [[k p]|] eqn:Hfind; [|done]. simpl.
      apply list_find_Some in Hfind as (Hk & Hp & _). split.
      * rewrite list_filter_filter. apply list_filter_iff. tauto.
      * by apply (filter_delete_same _ _ _ p); [|intros []].
    + destruct (createItemSync _ _ _ _ _ _ _) as [[data' item]|] eqn:Hcreate; [|done].
      apply createItemSync_Ok in Hcreate as (_ & Hitem & ->). simpl.
      split; [|done]. rewrite filter_app, filter_cons, decide_False, filter_nil.
      * apply app_nil_r.
      * rewrite Hitem. simpl. by intros [].
    + destruct (updateItemSync _ _ _ _ _) as [[data' item]|] eqn:Hupdate; [|done].
      apply updateItemSync_fields in Hupdate
        as (k & old & Hfind & -> & _ & _ & Hupdated).
      apply findItem_Some in Hfind as (Hk & _ & Hp). simpl. split; [|done].
      apply (filter_insert_same _ _ _ old); [done|by intros []|].
      rewrite Hupdated. simpl. by intros [].
    + destruct (deleteItemSync _ _ _) as [[data' item]|] eqn:Hdelete; [|done].
      apply deleteItemSync_Ok in Hdelete as (k & Hfind & ->).
      apply findItem_Some in Hfind as (Hk & _ & Hp). simpl. split; [|done].
      by apply (filter_delete_same _ _ _ item); [|intros []].
    + destruct (reorderItemsSync _ _ _ _) as [[data' items']|] eqn:Hreorder; [|done].
      cbn [written].
      apply reorderItemsSync_items in Hreorder as (-> & -> & _).
      split; [|done]. by apply runEntries_filter_other.
Qed.

(** ** Identifiers *)

Lemma runEntries_ids now projectId entries l :
  item_id <$> runEntries now projectId l entries = item_id <$> l.
Proof.
  change item_id with ((λ frame : string * string * string * string * string,
                          frame.1.1.1.1) ∘ itemFrame).
  by rewrite !list_fmap_compose, runEntries_frame.
Qed.

(** The identifiers after a request: those before, less the deleted ones,
    and the drawn one when a project or an item was created. *)
(** The identifiers after a call: those before, less the deleted ones,
    and the drawn one when a project or an item was created. *)
Lemma perform_ids uuid now call data :
  let data' := perform uuid now call data in
  (item_id <$> items data' = (item_id <$> items data) ++ [uuid]
   ∨ item_id <$> items data' `sublist_of` item_id <$> items data)
  ∧ (project_id <$> projects data' = (project_id <$> projects data) ++ [uuid]
     ∨ project_id <$> projects data' `sublist_of` project_id <$> projects data).
Proof.
  cbv zeta. apply perform_keeps.
  - split; by right.
  - intros name secretKey data' project Hcreate.
    apply createProjectSync_Ok in Hcreate as (_ & _ & _ & -> & ->). simpl.
    split; [by right|left]. by rewrite fmap_app.
  - intros projectId data' Hdelete. unfold deleteProjectSync in Hdelete.
    destruct (list_find _ _) as [[k p]|] eqn:Hfind; [|done].
    injection Hdelete as <-. simpl.
    split; right; apply fmap_sublist; [apply sublist_filter|apply sublist_delete].
  - intros projectId title description status data' item Hcreate.
    apply createItemSync_Ok in Hcreate as (_ & -> & ->). simpl.
    split; [left|by right]. by rewrite fmap_app.
  - intros projectId itemId updates data' item Hupdate.
    apply updateItemSync_fields in Hupdate as (k & old & Hfind & -> & _ & _ & ->).
    apply findItem_Some in Hfind as (Hk & _ & _). simpl.
    split; [right|by right]. rewrite list_fmap_insert. simpl.
    rewrite list_insert_id; [done|]. by rewrite list_lookup_fmap, Hk.
  - intros projectId itemId data' item Hdelete.
    apply deleteItemSync_Ok in Hdelete as (k & _ & ->). simpl.
    split; [right|by right]. apply fmap_sublist, sublist_delete.
  - intros projectId columns data' items' _ Hreorder.
    apply reorderItemsSync_items in Hreorder as (-> & -> & _).
    split; [right|by right]. by rewrite runEntries_ids.
Qed.

Lemma perform_idsUnique uuid now call data :
  uuid ∉ allIds data → idsUnique data → idsUnique (perform uuid now call data).
Proof.
  unfold allIds, idsUnique. intros Hfresh [Hitems Hprojects].
  rewrite not_elem_of_app in Hfresh. destruct Hfresh as [Hi Hp].
  assert (∀ ids ids' : list string,
            uuid ∉ ids → NoDup ids →
            ids' = ids ++ [uuid] ∨ ids' `sublist_of` ids → NoDup ids') as Hstep.
  { intros ids ids' Hnew Hnd [->|Hsub]; [|by eapply sublist_NoDup].
    apply NoDup_app. split_and!; [done| |apply NoDup_singleton].
    by intros x Hx ->%list_elem_of_singleton. }
  destruct (perform_ids uuid now call data) as [Hitems' Hprojects'].
  split; [exact (Hstep _ _ Hi Hitems Hitems')|exact (Hstep _ _ Hp Hprojects Hprojects')].
Qed.

Lemma perform_allIds uuid now call data x :
  x ∈ allIds (perform uuid now call data) → x = uuid ∨ x ∈ allIds data.
Proof.
  unfold allIds. rewrite !elem_of_app.
  assert (∀ ids ids' : list string,
            ids' = ids ++ [uuid] ∨ ids' `sublist_of` ids →
            x ∈ ids' → x = uuid ∨ x ∈ ids) as Hstep.
  { intros ids ids' [->|Hsub] Hx.
    - apply elem_of_app in Hx as [?|?%list_elem_of_singleton]; auto.
    - right. by eapply sublist_subseteq. }
  destruct (perform_ids uuid now call data) as [Hitems' Hprojects'].
  intros [Hx|Hx]; [apply (Hstep _ _ Hitems') in Hx|apply (Hstep _ _ Hprojects') in Hx];
    tauto.
Qed.

(** X9. As long as each created project or item draws an identifier that
    is in use nowhere in the store, item identifiers stay pairwise distinct
    and so do project identifiers, under every request and every call of
    an export; calls made one after the other from the empty document
    that draw pairwise distinct identifiers have them so. *)
Theorem fresh_identifiers_stay_unique :
  (∀ uuid now request data,
     uuid ∉ allIds data → idsUnique data →
     idsUnique (handle uuid now request data).1)
  ∧ (∀ calls, NoDup ((λ call, call.1.1) <$> calls) →
              idsUnique (serve DEFAULT_DATA calls))
  ∧ (∀ uuid now call data,
       uuid ∉ allIds data → idsUnique data → idsUnique (perform uuid now call data)).
Proof.
  split_and!; [| |apply perform_idsUnique].
  { intros uuid now request data Hfresh. apply handle_keeps.
    intros. by apply perform_idsUnique. }
  intros calls Hnd. unfold serve.
  assert (idsUnique DEFAULT_DATA) as Hinit by (split; constructor).
  assert (∀ x, x ∈ allIds DEFAULT_DATA → x ∉ (λ call, call.1.1) <$> calls) as Hfresh
    by (by intros x ?%elem_of_nil).
  revert Hinit Hfresh. generalize DEFAULT_DATA.
  induction calls as [|[[uuid now] call] calls IH]; intros data Hdata Hfresh; [done|].
  simpl in *. apply NoDup_cons in Hnd as [Hhead Hnd]. apply IH; [done|..].
  - apply perform_idsUnique; [|done]. intros Hin. apply (Hfresh uuid Hin). by left.
  - intros x [->|Hx]%perform_allIds; [done|].
    intros Hin. apply (Hfresh x Hx). by right.
Qed.

Lemma fresh_identifiers_stay_unique_witness : idsUnique demoData.
Proof.
  refine (proj1 (proj2 fresh_identifiers_stay_unique) demoCalls _). decide_closed.
Defined.


(** ** Finding a project *)

Lemma getProjectByIdSync_head projectId data :
  getProjectByIdSync projectId data
  = head (filter (λ project, project_id project = projectId) (projects data)).
Proof.
  unfold getProjectByIdSync. induction (projects data) as [|p l IH]; [done|].
  simpl. rewrite filter_cons. case_decide; [done|].
  rewrite <- IH. by destruct (list_find _ l) as [[]|].
Qed.

(** X10. A project that has just been created is found by the secret it
    was created with, as it was typed, and holds that secret trimmed; when
    its identifier was not in use, it is found by that identifier. *)
Theorem created_project_is_found uuid now name secretKey data data' project :
  createProjectSync uuid now name secretKey data = Ok (data', project) →
  getProjectBySecretSync secretKey data' = Some project
  ∧ project_secretKey project = Js.trim (Js.orEmpty secretKey)
  ∧ (uuid ∉ project_id <$> projects data →
     getProjectByIdSync uuid data' = Some project).
Proof.
  intros (_ & Hkey & Hfree & Hp & ->)%createProjectSync_Ok. split_and!.
  - unfold getProjectBySecretSync. rewrite Hkey. simpl.
    rewrite list_find_app_r by by apply list_find_None.
    simpl. rewrite decide_True; [done|]. by rewrite Hp.
  - by rewrite Hp.
  - intros Hfresh.
    unfold getProjectByIdSync. simpl. rewrite list_find_app_r.
    + simpl. rewrite decide_True; [done|]. by rewrite Hp.
    + apply list_find_None, Forall_forall. intros q Hq Hid. apply Hfresh.
      rewrite <- Hid. by apply list_elem_of_fmap_2.
Qed.

Lemma created_project_is_found_witness :
  ∃ data' project,
    createProjectSync "p2" "t3" (Some " Second ") (Some " 2nd key ") demoData
    = Ok (data', project)
    ∧ getProjectBySecretSync (Some " 2nd key ") data' = Some project
    ∧ getProjectByIdSync "p2" data' = Some project.
Proof.
  do 2 eexists. split; [reflexivity|].
  destruct (created_project_is_found "p2" "t3" (Some " Second ") (Some " 2nd key ")
              demoData _ _ eq_refl) as (Hsecret & _ & Hid).
  split; [exact Hsecret|]. apply Hid. decide_closed.
Defined.

Lemma filter_none {A} (P : A → Prop) `{!∀ x, Decision (P x)} (l : list A) :
  Forall (λ x, ¬ P x) l → filter P l = [].
Proof.
  induction 1 as [|x l Hx _ IH]; [done|]. by rewrite filter_cons, decide_False.
Qed.

Lemma getProjectByIdSync_None projectId data :
  getProjectByIdSync projectId data = None
  ↔ projectId ∉ project_id <$> projects data.
Proof.
  unfold getProjectByIdSync. rewrite fmap_None, list_find_None, Forall_forall.
  rewrite list_elem_of_fmap. split.
  - intros Hall (p & -> & Hp). by apply (Hall p).
  - intros Hnot p Hp Hid. apply Hnot. eauto.
Qed.

(** X11. Deleting a project takes the first project with that identifier
    out of the store together with every item of it, and nothing else:
    the items of the other projects stay, and the other projects are found
    as before. With pairwise distinct project identifiers the project is
    then no longer found. When no project has the identifier, the answer
    is [false] and the store is untouched. *)
Theorem deleted_project_takes_its_items projectId data :
  let answer := deleteProjectSync projectId data in
  (answer.2 = false ↔ getProjectByIdSync projectId data = None)
  ∧ (answer.2 = false → answer.1 = data)
  ∧ (answer.2 = true →
     projectItems projectId answer.1 = []
     ∧ (∀ other, other ≠ projectId →
          projectItems other answer.1 = projectItems other data
          ∧ getProjectByIdSync other answer.1 = getProjectByIdSync other data)
     ∧ (NoDup (project_id <$> projects data) →
        getProjectByIdSync projectId answer.1 = None)).
Proof.
  cbv zeta. unfold deleteProjectSync.
  destruct (list_find _ (projects data)) as [[k p]|] eqn:Hfind; simpl.
  - pose proof Hfind as (Hk & Hp & _)%list_find_Some.
    split_and!; [|done|intros _; split_and!].
    + unfold getProjectByIdSync. by rewrite Hfind.
    + unfold projectItems. simpl. rewrite list_filter_filter.
      apply filter_none, Forall_forall. tauto.
    + intros other Hother. split.
      * unfold projectItems. simpl. rewrite list_filter_filter.
        apply list_filter_iff. intros x. split; [tauto|]. intros Hx. split; congruence.
      * rewrite !getProjectByIdSync_head. simpl.
        rewrite (filter_delete_same _ _ _ p); [done..|congruence].
    + intros Hnd. apply getProjectByIdSync_None. simpl.
      rewrite <- (take_drop_middle _ _ _ Hk) in Hnd.
      rewrite fmap_app, fmap_cons, Hp in Hnd.
      apply NoDup_app in Hnd as (_ & Hleft & [Hright _]%NoDup_cons).
      rewrite delete_take_drop, fmap_app, not_elem_of_app. split; [|done].
      intros Hin. apply (Hleft _ Hin). by left.
  - split_and!; [|done..]. unfold getProjectByIdSync. by rewrite Hfind.
Qed.

Lemma deleted_project_takes_its_items_witness :
  projectItems "p1" (deleteProjectSync "p1" demoData).1 = []
  ∧ getProjectByIdSync "p1" (deleteProjectSync "p1" demoData).1 = None.
Proof.
  destruct (deleted_project_takes_its_items "p1" demoData) as (_ & _ & Hdone).
  destruct (Hdone eq_refl) as (Hitems & _ & Hgone).
  split; [exact Hitems|]. apply Hgone. decide_closed.
Defined.

(** ** One card among the stored items *)

Lemma filter_all {A} (P : A → Prop) `{!∀ x, Decision (P x)} (l : list A) :
  Forall P l → filter P l = l.
Proof.
  induction 1 as [|x l Hx _ IH]; [done|]. by rewrite filter_cons, decide_True, IH.
Qed.

Lemma filter_fmap_on {A} (P : A → Prop) `{!∀ x, Decision (P x)} (f : A → A) (l : list A) :
  Forall (λ x, P (f x) ↔ P x) l → filter P (f <$> l) = f <$> filter P l.
Proof.
  induction 1 as [|x l Hx _ IH]; [done|].
  rewrite fmap_cons, !filter_cons, IH.
  destruct (decide (P x)) as [Px|Px]; [by rewrite decide_True by by apply Hx|].
  rewrite decide_False; [done|]. by rewrite Hx.
Qed.

Section stableSort_maps.
Context {A : Type} (cmp : A → A → Z).

Lemma insertSorted_fmap_on (f : A → A) x l :
  Forall (λ y, cmp (f x) (f y) = cmp x y) l →
  insertSorted cmp (f x) (f <$> l) = f <$> insertSorted cmp x l.
Proof.
  induction 1 as [|y l Hy _ IH]; [done|].
  rewrite fmap_cons. cbn [insertSorted]. rewrite Hy.
  destruct (0 <? cmp x y); [|done]. by rewrite fmap_cons, IH.
Qed.

(** Sorting commutes with a map that keeps the comparisons of the list. *)
Lemma stableSort_fmap_on (f : A → A) l :
  (∀ x y, x ∈ l → y ∈ l → cmp (f x) (f y) = cmp x y) →
  stableSort cmp (f <$> l) = f <$> stableSort cmp l.
Proof.
  induction l as [|x l IH]; intros Hcmp; [done|].
  unfold stableSort in *. rewrite fmap_cons. cbn [foldr]. rewrite IH.
  - apply insertSorted_fmap_on, Forall_forall. intros y Hy.
    apply Hcmp; [by left|]. right.
    fold (stableSort cmp l) in Hy. by rewrite stableSort_Permutation in Hy.
  - intros y z Hy Hz. apply Hcmp; by right.
Qed.

Lemma insertSorted_last x l :
  Forall (λ y, 0 < cmp x y) l → insertSorted cmp x l = l ++ [x].
Proof.
  induction 1 as [|y l Hy _ IH]; [done|]. simpl.
  by rewrite (proj2 (Z.ltb_lt _ _) Hy), IH.
Qed.

(** An element that has to follow every other one goes last, wherever it
    stands in the list. *)
Lemma stableSort_greatest before x after :
  Forall (λ y, cmp y x ≤ 0 ∧ 0 < cmp x y) (before ++ after) →
  stableSort cmp (before ++ x :: after) = stableSort cmp (before ++ after) ++ [x].
Proof.
  intros Hall. apply Forall_app in Hall as [Hbefore Hafter].
  induction Hbefore as [|y before [Hy _] _ IH].
  - unfold stableSort. simpl. apply insertSorted_last.
    apply Forall_forall. intros y Hy.
    fold (stableSort cmp after) in Hy. rewrite stableSort_Permutation in Hy.
    rewrite Forall_forall in Hafter. by apply Hafter.
  - unfold stableSort in *. simpl. rewrite IH. by apply insertSorted_snoc.
Qed.

End stableSort_maps.

Lemma byPosition_trans a b c :
  byPosition a b ≤ 0 → byPosition b c ≤ 0 → byPosition a c ≤ 0.
Proof. unfold byPosition. lia. Qed.

Lemma byPosition_total a b : 0 < byPosition a b → byPosition b a ≤ 0.
Proof. unfold byPosition. lia. Qed.

Lemma filter_byPosition (P : Item → Prop) `{!∀ x, Decision (P x)} l :
  filter P (stableSort byPosition l) = stableSort byPosition (filter P l).
Proof. apply filter_stableSort; [apply byPosition_trans|apply byPosition_total]. Qed.

Section one_card.
Context (l : list Item) (k : nat) (old : Item).
Hypothesis Hunique : NoDup (item_id <$> l).
Hypothesis Hk : l !! k = Some old.

Lemma unique_id_at j x : l !! j = Some x → item_id x = item_id old → j = k.
Proof.
  intros Hj Hid. apply (NoDup_lookup (item_id <$> l) j k (item_id old)); [done|..].
  - by rewrite list_lookup_fmap, Hj, <- Hid.
  - by rewrite list_lookup_fmap, Hk.
Qed.

Lemma unique_id_elem x : x ∈ l → item_id x = item_id old → x = old.
Proof.
  intros [j Hj]%list_elem_of_lookup Hid.
  assert (j = k) as -> by by eapply unique_id_at. congruence.
Qed.

Lemma others_before : Forall (λ x, item_id x ≠ item_id old) (take k l).
Proof.
  apply Forall_lookup. intros j x Hj Hid.
  apply lookup_take_Some in Hj as [Hj Hlt].
  assert (j = k) by by eapply unique_id_at. lia.
Qed.

Lemma others_after : Forall (λ x, item_id x ≠ item_id old) (drop (S k) l).
Proof.
  apply Forall_lookup. intros j x Hj Hid. rewrite lookup_drop in Hj.
  assert (S k + j = k)%nat by by eapply unique_id_at. lia.
Qed.

(** Removing the card at an index is removing the card of that identifier. *)
Lemma delete_as_filter :
  delete k l = filter (λ x, item_id x ≠ item_id old) l.
Proof.
  rewrite <- (take_drop_middle l k old Hk) at 2.
  rewrite delete_take_drop, filter_app, filter_cons, decide_False by by intros [].
  by rewrite !filter_all by (apply others_before || apply others_after).
Qed.

(** Writing a card at an index is replacing the card of that identifier. *)
Lemma insert_as_fmap new :
  <[k := new]> l = (λ x, if decide (item_id x = item_id old) then new else x) <$> l.
Proof.
  apply list_eq. intros j. rewrite list_lookup_fmap.
  destruct (decide (j = k)) as [->|Hne].
  - rewrite list_lookup_insert_eq by by eapply lookup_lt_Some.
    rewrite Hk. simpl. by rewrite decide_True.
  - rewrite list_lookup_insert_ne by done.
    destruct (l !! j) as [x|] eqn:Hj; [|done]. simpl.
    rewrite decide_False; [done|]. intros Hid. apply Hne. by eapply unique_id_at.
Qed.

End one_card.

Lemma storedIn_insert data data' projectId status k old new :
  items data !! k = Some old →
  items data' = <[k := new]> (items data) →
  let selected item := item_projectId item = projectId ∧ item_status item = status in
  storedIn data projectId status
  = filter selected (take k (items data))
    ++ (if decide (selected old) then [old] else [])
    ++ filter selected (drop (S k) (items data))
  ∧ storedIn data' projectId status
    = filter selected (take k (items data))
      ++ (if decide (selected new) then [new] else [])
      ++ filter selected (drop (S k) (items data)).
Proof.
  intros Hk Hitems. cbv zeta. unfold storedIn. rewrite Hitems. split.
  - rewrite <- (take_drop_middle _ _ _ Hk) at 1.
    rewrite filter_app, filter_cons. by case_decide.
  - rewrite insert_take_drop by by eapply lookup_lt_Some.
    rewrite filter_app, filter_cons. by case_decide.
Qed.

(** ** The board after one card is deleted, moved or edited *)

Lemma deleteItemSync_columnOf projectId itemId data data' removed :
  deleteItemSync projectId itemId data = Ok (data', removed) →
  NoDup (item_id <$> items data) →
  items data' = filter (λ item, item_id item ≠ itemId) (items data)
  ∧ ∀ projectId' status,
      columnOf data' projectId' status
      = filter (λ item, item_id item ≠ itemId) (columnOf data projectId' status).
Proof.
  intros (k & Hfind & ->)%deleteItemSync_Ok Hunique.
  apply findItem_Some in Hfind as (Hk & <- & Hp).
  assert (delete k (items data)
          = filter (λ x, item_id x ≠ item_id removed) (items data)) as Hdelete
    by by apply delete_as_filter.
  split; [done|].
  intros projectId' status. rewrite !columnOf_storedIn, filter_byPosition.
  unfold storedIn. simpl. rewrite Hdelete, !list_filter_filter.
  f_equal. apply list_filter_iff. tauto.
Qed.

(** X12. With pairwise distinct item identifiers, deleting an item takes
    its card out of its column and leaves every column of every project
    otherwise as it was, order included; the item is then no longer found,
    so that deleting it again fails. *)
Theorem deleted_item_leaves_the_board projectId itemId data data' removed :
  deleteItemSync projectId itemId data = Ok (data', removed) →
  NoDup (item_id <$> items data) →
  (∀ projectId' status,
     columnOf data' projectId' status
     = filter (λ item, item_id item ≠ itemId) (columnOf data projectId' status))
  ∧ deleteItemSync projectId itemId data' = Throw "Item not found.".
Proof.
  intros Hdelete Hunique.
  destruct (deleteItemSync_columnOf _ _ _ _ _ Hdelete Hunique) as [Hitems Hcolumns].
  split; [done|].
  unfold deleteItemSync, findItem.
  destruct (list_find _ _) as [[j x]|] eqn:Hfound; [|done].
  apply list_find_Some in Hfound as (Hj & [Hid _] & _).
  apply list_elem_of_lookup_2 in Hj. rewrite Hitems in Hj.
  by apply list_elem_of_filter in Hj as [? _].
Qed.

Lemma deleted_item_leaves_the_board_witness :
  ∃ data', deleteItemSync "p1" "a" demoData = Ok (data', taskA)
           ∧ columnOf data' "p1" "backlog" = [taskB].
Proof.
  eexists. split; [reflexivity|].
  destruct (deleted_item_leaves_the_board "p1" "a" demoData _ taskA eq_refl
              ltac:(decide_closed)) as [Hcolumns _].
  rewrite Hcolumns. reflexivity.
Defined.

(** X13. With pairwise distinct item identifiers, an update that changes
    the status of an item shows the updated card at the end of the
    destination column, takes the card out of the source column, and leaves
    every other column of every project as it was. *)
Theorem moved_item_shows_last
    now projectId itemId updates data data' updated k old status :
  updateItemSync now projectId itemId updates data = Ok (data', updated) →
  findItem projectId itemId (items data) = Some (k, old) →
  updates_status updates = Some status →
  status ≠ item_status old →
  NoDup (item_id <$> items data) →
  columnOf data' projectId status = columnOf data projectId status ++ [updated]
  ∧ columnOf data' projectId (item_status old)
    = filter (λ item, item_id item ≠ itemId) (columnOf data projectId (item_status old))
  ∧ ∀ projectId' status',
      ¬ (projectId' = projectId ∧ (status' = status ∨ status' = item_status old)) →
      columnOf data' projectId' status' = columnOf data projectId' status'.
Proof.
  intros Hupdate Hfind Hstatus Hmoves Hunique.
  apply updateItemSync_fields in Hupdate as (k' & old' & Hfind' & Hdata' & _ & _ & Hupdated).
  rewrite Hfind in Hfind'. injection Hfind' as <- <-.
  apply findItem_Some in Hfind as (Hk & Hid & Hp).
  rewrite Hstatus in Hupdated. simpl in Hupdated. rewrite decide_False in Hupdated by done.
  assert (items data' = <[k := updated]> (items data)) as Hitems by by rewrite Hdata'.
  assert (item_projectId updated = projectId ∧ item_status updated = status
          ∧ item_position updated = nextPositionForStatus data projectId status)
    as (Hp' & Hs' & Hpos') by (by rewrite Hupdated).
  pose proof (others_before _ _ _ Hunique Hk) as Hbefore.
  pose proof (others_after _ _ _ Hunique Hk) as Hafter.
  rewrite Hid in Hbefore, Hafter.
  split_and!.
  - destruct (storedIn_insert data data' projectId status k old updated Hk Hitems)
      as [Hwas Hnow].
    rewrite !columnOf_storedIn, Hwas, Hnow.
    repeat case_decide; try (exfalso; intuition congruence). simpl.
    apply stableSort_greatest. rewrite <- filter_app. apply Forall_forall.
    intros x [[Hxp Hxs] Hx]%list_elem_of_filter.
    assert (x ∈ items data) as Hin.
    { rewrite <- (take_drop_middle _ _ _ Hk).
      apply elem_of_app in Hx as [?|?]; apply elem_of_app; [by left|right; by right]. }
    pose proof (nextPositionForStatus_above data projectId status x Hin Hxp Hxs).
    unfold byPosition. lia.
  - destruct (storedIn_insert data data' projectId (item_status old) k old updated
                Hk Hitems) as [Hwas Hnow].
    rewrite !columnOf_storedIn, filter_byPosition, Hwas, Hnow.
    repeat case_decide; try (exfalso; intuition congruence).
    simpl. f_equal.
    assert (∀ (P : Item → Prop) `{!∀ x, Decision (P x)} (l : list Item),
              Forall (λ x, item_id x ≠ itemId) l →
              filter (λ x, item_id x ≠ itemId) (filter P l) = filter P l) as Hkeep.
    { intros P ? l Hl. apply filter_all, Forall_forall.
      intros x [_ Hx]%list_elem_of_filter. rewrite Forall_forall in Hl. by apply Hl. }
    rewrite filter_app, filter_cons, decide_False by (by intros []).
    by rewrite !Hkeep.
  - intros projectId' status' Hother.
    destruct (storedIn_insert data data' projectId' status' k old updated Hk Hitems)
      as [Hwas Hnow].
    rewrite !columnOf_storedIn, Hwas, Hnow.
    repeat case_decide; try done; exfalso; apply Hother; destruct_and?;
      (split; [congruence|]); ((left; congruence) || (right; congruence)).
Qed.

Lemma moved_item_shows_last_witness :
  ∃ data' updated,
    updateItemSync "t3" "p1" "a"
      {| updates_title := None; updates_description := None;
         updates_status := Some "done" |} demoData = Ok (data', updated)
    ∧ columnOf data' "p1" "done" = columnOf demoData "p1" "done" ++ [updated].
Proof.
  do 2 eexists. split; [reflexivity|].
  refine (proj1 (moved_item_shows_last "t3" "p1" "a"
                   {| updates_title := None; updates_description := None;
                      updates_status := Some "done" |}
                   demoData _ _ 0%nat taskA "done" eq_refl eq_refl eq_refl _ _)).
  - discriminate.
  - decide_closed.
Defined.

Lemma updateItemSync_columnOf now projectId itemId updates data data' updated k old :
  updateItemSync now projectId itemId updates data = Ok (data', updated) →
  findItem projectId itemId (items data) = Some (k, old) →
  item_status updated = item_status old →
  NoDup (item_id <$> items data) →
  ∀ projectId' status,
    columnOf data' projectId' status
    = (λ item, if decide (item_id item = itemId) then updated else item)
        <$> columnOf data projectId' status.
Proof.
  intros Hupdate Hfind Hstays Hunique projectId' status.
  apply updateItemSync_fields in Hupdate as (k' & old' & Hfind' & Hdata' & _ & _ & Hupdated).
  rewrite Hfind in Hfind'. injection Hfind' as <- <-.
  apply findItem_Some in Hfind as (Hk & Hid & Hp).
  assert (item_projectId updated = item_projectId old
          ∧ item_position updated = item_position old) as [Hp' Hpos'].
  { rewrite Hupdated in Hstays |- *. simpl in *. split; [done|].
    destruct (updates_status updates); [|done]. by rewrite decide_True. }
  set (f := λ item, if decide (item_id item = itemId) then updated else item).
  assert (∀ x, x ∈ items data →
               item_projectId (f x) = item_projectId x
               ∧ item_status (f x) = item_status x
               ∧ item_position (f x) = item_position x) as Hsame.
  { intros x Hx. unfold f. case_decide as Hx'; [|done].
    rewrite <- Hid in Hx'.
    by rewrite (unique_id_elem _ _ _ Hunique Hk x Hx Hx'). }
  rewrite !columnOf_storedIn. unfold storedIn. rewrite Hdata'. simpl.
  rewrite (insert_as_fmap _ _ _ Hunique Hk), Hid. fold f.
  rewrite filter_fmap_on.
  - apply stableSort_fmap_on.
    intros x y [_ Hx]%list_elem_of_filter [_ Hy]%list_elem_of_filter.
    unfold byPosition.
    destruct (Hsame x Hx) as (_ & _ & ->). by destruct (Hsame y Hy) as (_ & _ & ->).
  - apply Forall_forall. intros x Hx. by destruct (Hsame x Hx) as (-> & -> & _).
Qed.

(** X14. With pairwise distinct item identifiers, an update that keeps the
    status of an item shows the updated card where the card stood: every
    column of every project is the column as it was, with the card of that
    identifier replaced by the updated item. *)
Theorem edited_item_keeps_its_place
    now projectId itemId updates data data' updated k old :
  updateItemSync now projectId itemId updates data = Ok (data', updated) →
  findItem projectId itemId (items data) = Some (k, old) →
  item_status updated = item_status old →
  NoDup (item_id <$> items data) →
  ∀ projectId' status,
    columnOf data' projectId' status
    = (λ item, if decide (item_id item = itemId) then updated else item)
        <$> columnOf data projectId' status.
Proof. apply updateItemSync_columnOf. Qed.

Lemma edited_item_keeps_its_place_witness :
  ∃ data' updated,
    updateItemSync "t3" "p1" "a"
      {| updates_title := Some "Task one"; updates_description := None;
         updates_status := None |} demoData = Ok (data', updated)
    ∧ columnOf data' "p1" "backlog" = [updated; taskB].
Proof.
  do 2 eexists. split; [reflexivity|].
  rewrite (edited_item_keeps_its_place "t3" "p1" "a"
             {| updates_title := Some "Task one"; updates_description := None;
                updates_status := None |}
             demoData _ _ 0%nat taskA eq_refl eq_refl eq_refl ltac:(decide_closed)).
  reflexivity.
Defined.


(** ** Outcomes of the calls *)

(** X15. On a project that exists, the outcome of a call is fixed by what
    it is handed and by whether the item it names is found. The creation
    of an item throws for a blank title or an unknown status, and returns
    the item otherwise. The update and the deletion of an item throw
    [Item not found.] exactly when the project has no item of that
    identifier; an update of an item that is found throws for a blank
    title or an unknown status, and returns the item otherwise; a deletion
    returns the item found. A reorder returns, and the deletion of the
    project answers [true]. *)
Theorem calls_on_a_project_outcomes uuid now projectId data :
  Exists (λ project, project_id project = projectId) (projects data) →
  (∀ title description status,
     if refusedItem title status
     then ∃ message,
            createItemSync uuid now projectId title description status data
            = Throw message
     else ∃ data' item,
            createItemSync uuid now projectId title description status data
            = Ok (data', item))
  ∧ (∀ itemId updates,
       match findItem projectId itemId (items data) with
       | None =>
           updateItemSync now projectId itemId updates data = Throw "Item not found."
       | Some _ =>
           if refusedUpdates updates
           then ∃ message,
                  updateItemSync now projectId itemId updates data = Throw message
                  ∧ message ≠ "Item not found."
           else ∃ data' updated,
                  updateItemSync now projectId itemId updates data = Ok (data', updated)
       end)
  ∧ (∀ itemId,
       match findItem projectId itemId (items data) with
       | None => deleteItemSync projectId itemId data = Throw "Item not found."
       | Some (_, item) =>
           ∃ data', deleteItemSync projectId itemId data = Ok (data', item)
       end)
  ∧ (∀ columns, ∃ data' response,
       reorderItemsSync now projectId columns data = Ok (data', response))
  ∧ (deleteProjectSync projectId data).2 = true.
Proof.
  intros Hex.
  assert (list_find (λ p, project_id p = projectId) (projects data) ≠ None) as Hsome.
  { apply Exists_exists in Hex as (p & Hin & Hid).
    intros Hnone%list_find_None. rewrite Forall_forall in Hnone. by apply (Hnone p). }
  split_and!.
  - intros title description status.
    unfold createItemSync, refusedItem, validateStatus.
    destruct (Js.truthy _); simpl; [|by eexists].
    destruct (decide (default "backlog" status ∈ VALID_STATUSES)) as [Hvalid|Hvalid].
    + rewrite (bool_decide_eq_true_2 _ Hvalid).
      rewrite (bool_decide_eq_false_2 (_ ∉ _)) by (by intros []). simpl.
      rewrite (bool_decide_eq_true_2 _ Hsome). simpl. by do 2 eexists.
    + rewrite (bool_decide_eq_false_2 _ Hvalid).
      rewrite (bool_decide_eq_true_2 (_ ∉ _)) by done. simpl. by eexists.
  - intros itemId updates. unfold updateItemSync, refusedUpdates, validateStatus.
    destruct (findItem _ _ _) as [[k item]|]; [|done].
    assert (∀ status : string, "Invalid status: " +:+ status ≠ "Item not found.")
      as Hmessage by (intros status; simpl; discriminate).
    destruct (updates_title updates) as [title|]; simpl;
      [destruct (Js.truthy _); simpl; [|by eexists]|];
      (destruct (updates_status updates) as [status|]; simpl; [|by do 2 eexists]);
      (destruct (decide (status ∈ VALID_STATUSES)) as [Hvalid|Hvalid];
       [rewrite (bool_decide_eq_true_2 _ Hvalid),
          (bool_decide_eq_false_2 (_ ∉ _)) by (by intros []);
        simpl; case_bool_decide; simpl; by do 2 eexists
       |rewrite (bool_decide_eq_false_2 _ Hvalid),
          (bool_decide_eq_true_2 (_ ∉ _)) by done;
        simpl; eexists; split; [done|apply Hmessage]]).
  - intros itemId. unfold deleteItemSync.
    destruct (findItem _ _ _) as [[k item]|]; [by eexists|done].
  - intros columns. by apply reorderItemsSync_exists.
  - unfold deleteProjectSync. by destruct (list_find _ _) as [[]|].
Qed.

Lemma calls_on_a_project_outcomes_witness :
  deleteItemSync "p1" "ghost" demoData = Throw "Item not found."
  ∧ (∃ data', deleteItemSync "p1" "b" demoData = Ok (data', taskB))
  ∧ (∃ message,
       createItemSync "c" "t3" "p1" (Some "  ") None None demoData = Throw message).
Proof.
  destruct (calls_on_a_project_outcomes "c" "t3" "p1" demoData ltac:(decide_closed))
    as (Hcreate & _ & Hdelete & _).
  split_and!.
  - exact (Hdelete "ghost").
  - exact (Hdelete "b").
  - exact (Hcreate (Some "  ") None None).
Defined.

(** X16. On a store the exports have built, the project a secret finds is
    the one project that holds the secret sent, trimmed: a project holding
    it is the project found, and when no project holds it none is found.
    The handler of POST /access does not wait for what is found: it
    answers 200 with an empty project in either case, and the store is not
    touched. *)
Theorem secret_finds_the_holder uuid now secretKey data :
  reachable data →
  (∀ project,
     project ∈ projects data →
     project_secretKey project = Js.trim (Js.orEmpty secretKey) →
     getProjectBySecretSync secretKey data = Some project)
  ∧ (Forall (λ project, project_secretKey project ≠ Js.trim (Js.orEmpty secretKey))
            (projects data) →
     getProjectBySecretSync secretKey data = None)
  ∧ handle uuid now (PostAccess secretKey) data
    = (data, respond 200 (BodyProject (Some ∅))).
Proof.
  intros Hreach. pose proof (reachable_secretsUnique _ Hreach) as Hunique.
  apply reachable_wellFormed in Hreach as [_ Hprojects]. split_and!; [| |done].
  - intros project Hin Hkey.
    destruct (getProjectBySecretSync secretKey data) as [found|] eqn:Hfound.
    + pose proof (getProjectBySecretSync_Some _ _ _ Hfound) as [_ Hkey'].
      rewrite (secretsUnique_lookup data secretKey found project); try done.
      congruence.
    + exfalso. unfold getProjectBySecretSync in Hfound.
      rewrite Forall_forall in Hprojects. destruct (Hprojects project Hin) as [_ Htruthy].
      rewrite <- Hkey, Htruthy in Hfound.
      apply fmap_None, list_find_None in Hfound.
      rewrite Forall_forall in Hfound. by apply (Hfound project).
  - intros Hnone.
    destruct (getProjectBySecretSync secretKey data) as [found|] eqn:Hfound; [|done].
    apply getProjectBySecretSync_Some in Hfound as [Hin Hkey].
    rewrite Forall_forall in Hnone. by destruct (Hnone found Hin).
Qed.

Lemma secret_finds_the_holder_witness :
  getProjectBySecretSync (Some "  order-me ") demoData = Some demoProject
  ∧ getProjectBySecretSync (Some "order-you") demoData = None.
Proof.
  split.
  - refine (proj1 (secret_finds_the_holder "u" "t3" (Some "  order-me ") demoData
                     (ex_intro _ demoCalls eq_refl)) demoProject _ eq_refl).
    decide_closed.
  - refine (proj1 (proj2 (secret_finds_the_holder "u" "t3" (Some "order-you") demoData
                            (ex_intro _ demoCalls eq_refl))) _).
    decide_closed.
Defined.

(** ** The next position in the two stores *)

Lemma maxPosition_maxOf first others :
  Postgres.maxPosition (first :: others)
  = Some (maxOf (item_position first) (item_position <$> others)).
Proof.
  assert (∀ m l, Z.max m (default m (Postgres.maxPosition l))
                 = maxOf m (item_position <$> l)) as Hmax.
  { intros m l. revert m. unfold maxOf.
    induction l as [|x l IH]; intros m; simpl; [lia|].
    rewrite <- IH. specialize (IH (item_position x)).
    destruct (Postgres.maxPosition l) as [n|]; simpl in *; lia. }
  simpl. f_equal. rewrite <- Hmax.
  destruct (Postgres.maxPosition others); simpl; lia.
Qed.

(** X17. The relational store and the JSON document give the same next
    position for a project and status holding the same items: one more
    than the greatest position there, and 1 when there is none. *)
Theorem next_position_is_the_same_in_both_stores data projectId status :
  Postgres.computeNextPosition (items data) projectId status
  = nextPositionForStatus data projectId status.
Proof.
  unfold Postgres.computeNextPosition, nextPositionForStatus.
  destruct (filter _ _) as [|first others]; [done|].
  by rewrite maxPosition_maxOf.
Qed.

(** ** The columns the client keeps *)

Section client_columns.
Import Client.

Lemma ensureColumns_None_lookup status :
  ensureColumns None !! status
  = if decide (status ∈ COLUMN_ORDER) then Some [] else None.
Proof.
  unfold ensureColumns, createEmptyColumns, COLUMN_ORDER, VALID_STATUSES. simpl.
  case_decide as Hin.
  - repeat (apply elem_of_cons in Hin as [->|Hin]; [by simplify_map_eq|]).
    by apply elem_of_nil in Hin.
  - rewrite !lookup_insert_ne, lookup_empty; [done|..];
      intros <-; apply Hin; repeat constructor.
Qed.

Lemma ensureColumns_lookup' incoming status :
  ensureColumns incoming !! status
  = if decide (status ∈ COLUMN_ORDER)
    then Some (default [] (incoming ≫= (.!! status))) else None.
Proof.
  destruct incoming as [incoming|]; simpl.
  - apply ensureColumns_lookup.
  - apply ensureColumns_None_lookup.
Qed.

Lemma columnsToIds_lookup (columns : gmap string (list Item)) status :
  columnsToIds columns !! status
  = if decide (status ∈ COLUMN_ORDER)
    then Some (item_id <$> default [] (columns !! status)) else None.
Proof.
  unfold columnsToIds, COLUMN_ORDER, VALID_STATUSES. simpl.
  case_decide as Hin.
  - repeat (apply elem_of_cons in Hin as [->|Hin]; [by simplify_map_eq|]).
    by apply elem_of_nil in Hin.
  - rewrite !lookup_insert_ne, lookup_empty; [done|..];
      intros <-; apply Hin; repeat constructor.
Qed.

(** X18. Whatever it is given, [ensureColumns] yields a board with exactly
    the four columns, each holding what was given for it, or nothing;
    applying it again, or cloning its result, changes nothing. *)
Theorem ensureColumns_yields_the_four_columns incoming :
  dom (ensureColumns incoming) = (list_to_set COLUMN_ORDER : gset string)
  ∧ (∀ status, status ∈ COLUMN_ORDER →
       ensureColumns incoming !! status
       = Some (default [] (incoming ≫= (.!! status))))
  ∧ ensureColumns (Some (ensureColumns incoming)) = ensureColumns incoming
  ∧ cloneColumns (ensureColumns incoming) = ensureColumns incoming.
Proof.
  split_and!.
  - apply set_eq. intros status. rewrite elem_of_dom, elem_of_list_to_set.
    rewrite ensureColumns_lookup'. case_decide; [|by split; [intros []|]].
    split; [done|]. by eexists.
  - intros status Hin. by rewrite ensureColumns_lookup', decide_True.
  - apply map_eq. intros status. rewrite ensureColumns_lookup.
    rewrite ensureColumns_lookup'. by case_decide.
  - apply map_eq. intros status. rewrite cloneColumns_lookup.
    rewrite ensureColumns_lookup'. by case_decide.
Qed.

Lemma ensureColumns_yields_the_four_columns_witness :
  ensureColumns None !! "review" = Some [].
Proof.
  refine (proj1 (proj2 (ensureColumns_yields_the_four_columns None)) "review" _).
  decide_closed.
Defined.

End client_columns.

(** ** A drop that finds its card *)

Section columns_of_a_map.
Context {A : Type}.
Implicit Types m : gmap string (list A).

Lemma bind_columns_ext (ss : list string) m m' :
  (∀ s, s ∈ ss → default [] (m !! s) = default [] (m' !! s)) →
  (s ← ss; default [] (m !! s)) = (s ← ss; default [] (m' !! s)).
Proof.
  induction ss as [|s ss IH]; intros Hext; [done|].
  cbn. rewrite (Hext s) by by left. f_equal. apply IH.
  intros s' Hs'. apply Hext. by right.
Qed.

(** The columns of a map, one key rewritten: the same cards but for those
    of that key. *)
Lemma bind_columns_insert (ss : list string) m k v0 v :
  NoDup ss → k ∈ ss → m !! k = Some v0 →
  ∃ rest, (s ← ss; default [] (m !! s)) ≡ₚ v0 ++ rest
          ∧ (s ← ss; default [] (<[k := v]> m !! s)) ≡ₚ v ++ rest.
Proof.
  intros Hnd Hk Hv0. induction ss as [|s ss IH]; [by apply elem_of_nil in Hk|].
  apply NoDup_cons in Hnd as [Hs Hnd]. cbn.
  destruct (decide (s = k)) as [->|Hne].
  - exists (s ← ss; default [] (m !! s)).
    rewrite Hv0, lookup_insert_eq. simpl. split; [done|].
    f_equiv. rewrite (bind_columns_ext ss (<[k := v]> m) m); [done|].
    intros s Hin. rewrite lookup_insert_ne; [done|]. by intros ->.
  - apply elem_of_cons in Hk as [->|Hk]; [done|].
    destruct (IH Hnd Hk) as (rest & Hwas & Hnow).
    exists (default [] (m !! s) ++ rest).
    rewrite lookup_insert_ne by done. rewrite Hwas, Hnow.
    split; apply Permutation_app_swap_app.
Qed.

End columns_of_a_map.

Section drop.
Import Client.

Lemma COLUMN_ORDER_NoDup : NoDup COLUMN_ORDER.
Proof. decide_closed. Qed.

Lemma cardsOf_insert (m : gmap string (list Item)) k v0 v :
  k ∈ COLUMN_ORDER → m !! k = Some v0 →
  ∃ rest, cardsOf m ≡ₚ v0 ++ rest ∧ cardsOf (<[k := v]> m) ≡ₚ v ++ rest.
Proof. apply bind_columns_insert, COLUMN_ORDER_NoDup. Qed.

Lemma cardsOf_activeColumns board :
  cardsOf (activeColumns board) = cardsOf (columns board).
Proof.
  apply bind_columns_ext. intros s Hs. unfold activeColumns.
  by rewrite ensureColumns_lookup, decide_True.
Qed.

Lemma snapshot_is_the_board_shown board :
  cloneColumns (activeColumns board) = activeColumns board.
Proof.
  apply map_eq. intros status. rewrite snapshot_lookup. unfold activeColumns.
  by rewrite ensureColumns_lookup.
Qed.

(** What a drop that finds its card does. *)
Lemma handleDragEnd_moves board result projectId place moved :
  project board = Some projectId →
  Js.truthy (secretKey board) = true →
  destination result = Some place →
  ¬ (droppableId place = droppableId (source result)
     ∧ index place = index (source result)) →
  droppableId (source result) ∈ COLUMN_ORDER →
  droppableId place ∈ COLUMN_ORDER →
  default [] (columns board !! droppableId (source result)) !! index (source result)
  = Some moved →
  let shown status := default [] (columns board !! status) in
  let left := delete (index (source result)) (shown (droppableId (source result))) in
  let target :=
    if decide (droppableId place = droppableId (source result)) then left
    else shown (droppableId place) in
  let card := withStatusPosition moved (droppableId place) (item_position moved) in
  let optimistic :=
    <[droppableId place := take (index place) target ++ card :: drop (index place) target]>
      (<[droppableId (source result) := left]> (activeColumns board)) in
  handleDragEnd board result
  = ([SetColumns optimistic; SetError EmptyString;
      ApiReorderItems projectId (secretKey board) (columnsToIds optimistic)],
     Awaiting (activeColumns board)).
Proof.
  intros Hproject Hsecret Hdest Hmoves Hsrc Hdst Hmoved. cbv zeta.
  unfold handleDragEnd. rewrite Hproject, Hsecret, Hdest.
  rewrite bool_decide_eq_false_2 by done.
  rewrite snapshot_is_the_board_shown.
  unfold activeColumns at 1. rewrite ensureColumns_lookup, decide_True by done.
  rewrite Hmoved.
  destruct (decide (droppableId place = droppableId (source result))) as [Heq|Hne].
  - rewrite Heq, lookup_insert_eq. done.
  - rewrite lookup_insert_ne by done.
    unfold activeColumns at 1. rewrite ensureColumns_lookup, decide_True by done.
    done.
Qed.

Lemma handleDragEnd_cards board result place moved :
  droppableId (source result) ∈ COLUMN_ORDER →
  droppableId place ∈ COLUMN_ORDER →
  default [] (columns board !! droppableId (source result)) !! index (source result)
  = Some moved →
  let shown status := default [] (columns board !! status) in
  let left := delete (index (source result)) (shown (droppableId (source result))) in
  let target :=
    if decide (droppableId place = droppableId (source result)) then left
    else shown (droppableId place) in
  let card := withStatusPosition moved (droppableId place) (item_position moved) in
  let optimistic :=
    <[droppableId place := take (index place) target ++ card :: drop (index place) target]>
      (<[droppableId (source result) := left]> (activeColumns board)) in
  (∀ status, status ∈ COLUMN_ORDER → is_Some (optimistic !! status))
  ∧ ∃ others, cardsOf (columns board) ≡ₚ moved :: others
              ∧ cardsOf optimistic ≡ₚ card :: others.
Proof.
  intros Hsrc Hdst Hmoved. cbv zeta.
  set (shown status := default [] (columns board !! status)).
  set (left := delete (index (source result)) (shown (droppableId (source result)))).
  set (target := if decide (droppableId place = droppableId (source result)) then left
                 else shown (droppableId place)).
  set (card := withStatusPosition moved (droppableId place) (item_position moved)).
  assert (∀ status, status ∈ COLUMN_ORDER →
                    activeColumns board !! status = Some (shown status)) as Hshown.
  { intros status Hin. unfold activeColumns.
    by rewrite ensureColumns_lookup, decide_True. }
  split.
  - intros status Hin.
    destruct (decide (status = droppableId place)) as [->|Hd];
      [by rewrite lookup_insert_eq|rewrite lookup_insert_ne by done].
    destruct (decide (status = droppableId (source result))) as [->|Hs];
      [by rewrite lookup_insert_eq|rewrite lookup_insert_ne by done].
    rewrite Hshown by done. by eexists.
  - destruct (cardsOf_insert (activeColumns board) (droppableId (source result))
                (shown (droppableId (source result))) left Hsrc (Hshown _ Hsrc))
      as (rest1 & Hwas1 & Hnow1).
    assert (<[droppableId (source result) := left]> (activeColumns board)
              !! droppableId place = Some target) as Htarget.
    { unfold target. case_decide as Hsame.
      - by rewrite Hsame, lookup_insert_eq.
      - rewrite lookup_insert_ne by done. by apply Hshown. }
    destruct (cardsOf_insert _ (droppableId place) target
                (take (index place) target ++ card :: drop (index place) target)
                Hdst Htarget) as (rest2 & Hwas2 & Hnow2).
    exists (target ++ rest2). split.
    + assert (shown (droppableId (source result)) ≡ₚ moved :: left) as Hperm
        by apply delete_Permutation, Hmoved.
      rewrite <- cardsOf_activeColumns, Hwas1, Hperm. simpl.
      f_equiv. by rewrite <- Hnow1, Hwas2.
    + rewrite Hnow2. rewrite <- Permutation_middle. simpl. f_equiv.
      by rewrite take_drop.
Qed.

(** X19. A drop on a column of the board, elsewhere than where the card
    was taken, that finds a card at its source index: the card leaves the
    source column and enters the destination column at the index of the
    drop (at the end when the index is beyond it) with the status of that
    column; the other columns are shown as before, and the board holds the
    same cards. The identifiers of exactly that board are sent to the bulk
    reorder, and the board as it was shown is kept for the rollback. *)
Theorem drop_moves_one_card board result projectId place moved :
  project board = Some projectId →
  Js.truthy (secretKey board) = true →
  destination result = Some place →
  ¬ (droppableId place = droppableId (source result)
     ∧ index place = index (source result)) →
  droppableId (source result) ∈ COLUMN_ORDER →
  droppableId place ∈ COLUMN_ORDER →
  default [] (columns board !! droppableId (source result)) !! index (source result)
  = Some moved →
  let shown status := default [] (columns board !! status) in
  let left := delete (index (source result)) (shown (droppableId (source result))) in
  let target :=
    if decide (droppableId place = droppableId (source result)) then left
    else shown (droppableId place) in
  let card := withStatusPosition moved (droppableId place) (item_position moved) in
  ∃ optimistic,
    handleDragEnd board result
    = ([SetColumns optimistic; SetError EmptyString;
        ApiReorderItems projectId (secretKey board) (columnsToIds optimistic)],
       Awaiting (activeColumns board))
    ∧ optimistic !! droppableId place
      = Some (take (index place) target ++ card :: drop (index place) target)
    ∧ (droppableId place ≠ droppableId (source result) →
       optimistic !! droppableId (source result) = Some left)
    ∧ (∀ status, status ∈ COLUMN_ORDER →
                 status ≠ droppableId (source result) → status ≠ droppableId place →
                 optimistic !! status = Some (shown status))
    ∧ ∃ others, cardsOf (columns board) ≡ₚ moved :: others
                ∧ cardsOf optimistic ≡ₚ card :: others.
Proof.
  intros Hproject Hsecret Hdest Hmoves Hsrc Hdst Hmoved. cbv zeta.
  eexists. split; [by eapply handleDragEnd_moves|].
  set (shown status := default [] (columns board !! status)).
  set (left := delete (index (source result)) (shown (droppableId (source result)))).
  set (target := if decide (droppableId place = droppableId (source result)) then left
                 else shown (droppableId place)).
  set (card := withStatusPosition moved (droppableId place) (item_position moved)).
  assert (∀ status, status ∈ COLUMN_ORDER →
                    activeColumns board !! status = Some (shown status)) as Hshown.
  { intros status Hin. unfold activeColumns.
    by rewrite ensureColumns_lookup, decide_True. }
  split_and!.
  - by rewrite lookup_insert_eq.
  - intros Hne. by rewrite lookup_insert_ne, lookup_insert_eq.
  - intros status Hin Hs Hd. rewrite !lookup_insert_ne by done. by apply Hshown.
  - exact (proj2 (handleDragEnd_cards board result place moved Hsrc Hdst Hmoved)).
Qed.

End drop.

Lemma drop_moves_one_card_witness :
  ∃ optimistic,
    Client.handleDragEnd demoBoard moveDrop
    = ([Client.SetColumns optimistic; Client.SetError EmptyString;
        Client.ApiReorderItems "p1" "order-me" (Client.columnsToIds optimistic)],
       Client.Awaiting (Client.activeColumns demoBoard))
    ∧ optimistic !! "backlog" = Some [taskB].
Proof.
  destruct (drop_moves_one_card demoBoard moveDrop "p1"
              {| Client.droppableId := "in_progress"; Client.index := 0 |} taskA
              eq_refl eq_refl eq_refl
              ltac:(by intros [? _]) ltac:(decide_closed) ltac:(decide_closed)
              ltac:(vm_compute; reflexivity))
    as (optimistic & Hdrag & _ & Hsource & _).
  exists optimistic. split; [exact Hdrag|].
  exact (Hsource ltac:(discriminate)).
Defined.


(** ** The board the server sends, on the client *)

Lemma wellFormed_statuses data :
  wellFormed data → Forall (λ item, item_status item ∈ VALID_STATUSES) (items data).
Proof. intros [Hitems _]. eapply Forall_impl; [done|]. by intros item [? _]. Qed.

Lemma boardOf_lookup_total projectId data status :
  wellFormed data →
  boardOf projectId data !! status
  = if decide (status ∈ VALID_STATUSES) then Some (columnOf data projectId status)
    else None.
Proof.
  intros Hvalid%wellFormed_statuses. unfold boardOf. case_decide as Hin.
  - by apply board_column.
  - rewrite grouped_lookup_other by done.
    rewrite filter_none; [done|]. apply Forall_forall. intros x Hx Hs.
    unfold getItemsByProjectSync in Hx. rewrite sortItems_Permutation in Hx.
    apply list_elem_of_filter in Hx as [_ Hx].
    rewrite Forall_forall in Hvalid. apply Hin. rewrite <- Hs. by apply Hvalid.
Qed.

Lemma boardOf_ensured projectId data :
  wellFormed data →
  Client.ensureColumns (Some (boardOf projectId data)) = boardOf projectId data.
Proof.
  intros Hdata. apply map_eq. intros status.
  rewrite ensureColumns_lookup, boardOf_lookup_total by done.
  unfold Client.COLUMN_ORDER. by case_decide.
Qed.

Lemma bind_ext_in {A B} (f g : A → list B) (l : list A) :
  (∀ x, x ∈ l → f x = g x) → l ≫= f = l ≫= g.
Proof.
  induction l as [|x l IH]; intros Hext; [done|].
  cbn. rewrite (Hext x) by by left. f_equal. apply IH. intros y Hy. apply Hext. by right.
Qed.

(** Items whose statuses are among distinct ones, taken status by status. *)
Lemma columns_partition (ss : list string) (l : list Item) :
  NoDup ss → Forall (λ item, item_status item ∈ ss) l →
  (s ← ss; filter (λ item, item_status item = s) l) ≡ₚ l.
Proof.
  intros Hnd. revert l. induction Hnd as [|s ss Hs Hnd IH]; intros l Hl.
  - destruct l as [|x l]; [done|]. apply Forall_cons in Hl as [Hx _].
    by apply elem_of_nil in Hx.
  - cbn.
    rewrite (bind_ext_in _ (λ s', filter (λ item, item_status item = s')
                                    (filter (λ item, item_status item ≠ s) l))).
    + rewrite IH.
      * rewrite <- (filter_app_complement (λ item, item_status item = s) l) at 3. done.
      * apply Forall_forall. intros x [Hne Hx]%list_elem_of_filter.
        rewrite Forall_forall in Hl. specialize (Hl x Hx).
        by apply elem_of_cons in Hl as [?|?].
    + intros s' Hs'. rewrite list_filter_filter. apply list_filter_iff.
      intros x. split; [|tauto]. intros ->. split; [done|]. by intros ->.
Qed.

Lemma cardsOf_boardOf projectId data :
  wellFormed data → cardsOf (boardOf projectId data) ≡ₚ projectItems projectId data.
Proof.
  intros Hdata. unfold cardsOf, Client.COLUMN_ORDER.
  rewrite (bind_ext_in _ (λ s, filter (λ item, item_status item = s)
                                 (getItemsByProjectSync projectId data))).
  - rewrite columns_partition.
    + apply sortItems_Permutation.
    + decide_closed.
    + apply Forall_forall. intros x Hx.
      unfold getItemsByProjectSync in Hx. rewrite sortItems_Permutation in Hx.
      apply list_elem_of_filter in Hx as [_ Hx].
      pose proof (wellFormed_statuses _ Hdata) as Hvalid.
      rewrite Forall_forall in Hvalid. by apply Hvalid.
  - intros s Hs. by rewrite boardOf_lookup_total, decide_True.
Qed.

Lemma payloadIds_columnsToIds (columns : gmap string (list Item)) :
  payloadIds (Client.columnsToIds columns) = item_id <$> cardsOf columns.
Proof.
  unfold payloadIds, cardsOf, Client.COLUMN_ORDER.
  assert (∀ ss, ss ⊆ VALID_STATUSES →
                (s ← ss; orderedIdsOf (Client.columnsToIds columns) s)
                = item_id <$> (s ← ss; default [] (columns !! s))) as Hall; [|by apply Hall].
  induction ss as [|s ss IH]; intros Hsub; [done|].
  rewrite !bind_cons, fmap_app, IH by set_solver. f_equal.
  unfold orderedIdsOf. rewrite columnsToIds_lookup, decide_True; [done|].
  apply Hsub. by left.
Qed.

Section confirmed.
Import Client.

(** A drag-end that reaches its [await] found its card. *)
Lemma handleDragEnd_Awaiting board result effects previous :
  handleDragEnd board result = (effects, Awaiting previous) →
  ∃ projectId place moved,
    project board = Some projectId
    ∧ Js.truthy (secretKey board) = true
    ∧ destination result = Some place
    ∧ ¬ (droppableId place = droppableId (source result)
         ∧ index place = index (source result))
    ∧ droppableId (source result) ∈ COLUMN_ORDER
    ∧ droppableId place ∈ COLUMN_ORDER
    ∧ default [] (columns board !! droppableId (source result)) !! index (source result)
      = Some moved.
Proof.
  unfold handleDragEnd.
  destruct (project board) as [projectId|]; [|done].
  destruct (Js.truthy (secretKey board)); [|done].
  destruct (destination result) as [place|]; [|done].
  case_bool_decide as Hsame; [done|].
  rewrite snapshot_lookup. case_decide as Hsrc; [|done].
  destruct (default [] _ !! index (source result)) as [moved|] eqn:Hmoved; [|done].
  destruct (decide (droppableId place ∈ COLUMN_ORDER)) as [Hdst|Hdst].
  - intros _. by exists projectId, place, moved.
  - rewrite lookup_insert_ne by (intros Heq; by rewrite <- Heq in Hdst).
    by rewrite snapshot_lookup, decide_False.
Qed.
(** X20. A client that shows the board of a project as the store holds
    it, on a well-formed store with distinct item identifiers: whenever
    its drag-end handler submits a reorder, the snapshot it keeps is that
    board; the reorder of the project with the payload submitted returns,
    and grouping what it returns by status gives the new board of the
    project; the client, once it is handed that board, shows it as it is;
    and each column of that board lists the cards of the optimistic
    column, in the same order, at the positions 1, 2, ... and with the
    status of the column. *)
Theorem drop_is_confirmed_by_the_server
    now board result projectId data optimistic payload previous :
  wellFormed data →
  NoDup (item_id <$> projectItems projectId data) →
  inSync board projectId data →
  Exists (λ project, project_id project = projectId) (projects data) →
  handleDragEnd board result
  = ([SetColumns optimistic; SetError EmptyString;
      ApiReorderItems projectId (secretKey board) payload], Awaiting previous) →
  previous = boardOf projectId data
  ∧ ∃ data' response,
      reorderItemsSync now projectId payload data = Ok (data', response)
      ∧ groupItemsByStatus response = Ok (boardOf projectId data')
      ∧ handleDragEndSettled previous (Ok (boardOf projectId data'))
        = [SetColumns (boardOf projectId data')]
      ∧ ∀ status, status ∈ VALID_STATUSES →
          ∃ shown column,
            optimistic !! status = Some shown
            ∧ boardOf projectId data' !! status = Some column
            ∧ item_id <$> column = item_id <$> shown
            ∧ item_position <$> column = oneTo (length shown)
            ∧ Forall (λ item, item_status item = status) column.
Proof.
  intros Hdata Hunique [Hproject Hcolumns] Hexists Hdrag.
  destruct (handleDragEnd_Awaiting _ _ _ _ Hdrag)
    as (projectId' & place & moved & Hp & Hsecret & Hdest & Hmoves & Hsrc & Hdst & Hmoved).
  pose proof (handleDragEnd_moves board result projectId' place moved
                Hp Hsecret Hdest Hmoves Hsrc Hdst Hmoved) as Hexplicit.
  cbv zeta in Hexplicit. rewrite Hexplicit in Hdrag.
  injection Hdrag as Hoptimistic _ Hpayload Hprevious.
  destruct (handleDragEnd_cards board result place moved Hsrc Hdst Hmoved)
    as (Hkeys & others & Hwas & Hnow).
  cbv zeta in Hkeys, Hnow. rewrite Hoptimistic in Hkeys, Hnow, Hpayload.
  clear Hexplicit Hoptimistic.
  assert (previous = boardOf projectId data) as Hsnapshot.
  { rewrite <- Hprevious. unfold activeColumns. rewrite Hcolumns.
    by apply boardOf_ensured. }
  split; [done|].
  destruct (reorderItemsSync_exists now projectId payload data Hexists)
    as (data' & response & Hreorder).
  pose proof (reorderItemsSync_items _ _ _ _ _ _ Hreorder) as (_ & _ & Hresponse).
  assert (wellFormed data') as Hdata'.
  { rewrite <- (perform_reorderItems "u" _ _ _ _ _ _ Hreorder).
    by apply perform_wellFormed. }
  exists data', response. split_and!; [done| | |].
  - rewrite Hresponse. apply groupItemsByStatus_Ok, groupable_valid.
    unfold getItemsByProjectSync. rewrite sortItems_Permutation.
    apply Forall_forall. intros x [_ Hx]%list_elem_of_filter.
    pose proof (wellFormed_statuses _ Hdata') as Hvalid.
    rewrite Forall_forall in Hvalid. by apply Hvalid.
  - unfold handleDragEndSettled. by rewrite boardOf_ensured.
  - intros status Hstatus.
    destruct (Hkeys status Hstatus) as [shown Hshown].
    assert (payloadIds payload ≡ₚ item_id <$> projectItems projectId data) as Hperm.
    { rewrite <- Hpayload, payloadIds_columnsToIds, Hnow.
      rewrite <- cardsOf_boardOf, <- Hcolumns, Hwas by done. done. }
    destruct (reorder_full_board _ _ _ _ _ _ status Hreorder Hunique Hperm Hstatus)
      as (column & Hcolumn & Hids & Hpositions & Hstatuses).
    assert (orderedIdsOf payload status = item_id <$> shown) as Hordered.
    { rewrite <- Hpayload. unfold orderedIdsOf.
      rewrite columnsToIds_lookup, decide_True by done. simpl. by rewrite Hshown. }
    exists shown, column. split_and!; [done| | | |done].
    + unfold boardOf. by rewrite <- Hresponse.
    + by rewrite Hids, Hordered.
    + by rewrite Hpositions, Hordered, length_fmap.
Qed.

End confirmed.

Lemma drop_is_confirmed_by_the_server_witness :
  ∃ optimistic payload previous,
    Client.handleDragEnd demoBoard moveDrop
    = ([Client.SetColumns optimistic; Client.SetError EmptyString;
        Client.ApiReorderItems "p1" "order-me" payload], Client.Awaiting previous)
    ∧ previous = boardOf "p1" demoData.
Proof.
  do 3 eexists. split; [reflexivity|].
  refine (proj1 (drop_is_confirmed_by_the_server "t3" demoBoard moveDrop "p1"
                   demoData _ _ _ _ _ _ _ eq_refl)).
  - exact (reachable_wellFormed demoData (ex_intro _ demoCalls eq_refl)).
  - decide_closed.
  - split; reflexivity.
  - decide_closed.
Defined.

(** ** The client's board after a card is added, edited or deleted *)

Lemma foldl_alter_lookup {A} (f : A → A) (ss : list string) (m : gmap string A) k :
  NoDup ss →
  foldl (λ m s, alter f s m) m ss !! k
  = if decide (k ∈ ss) then f <$> m !! k else m !! k.
Proof.
  intros Hnd. revert m. induction Hnd as [|s ss Hs Hnd IH]; intros m.
  - by destruct (decide (k ∈ [])) as [?%elem_of_nil|].
  - cbn [foldl]. rewrite IH. destruct (decide (k = s)) as [->|Hne].
    + rewrite (decide_False _ _ Hs), decide_True by (by left).
      by rewrite lookup_alter_eq.
    + rewrite lookup_alter_ne by done.
      destruct (decide (k ∈ ss)) as [Hin|Hin].
      * by rewrite decide_True by (by right).
      * rewrite decide_False; [done|]. by intros [?|?]%elem_of_cons.
Qed.

Lemma handleDeleteItem_lookup itemId (prev : gmap string (list Item)) status :
  Updaters.handleDeleteItem itemId prev !! status
  = if decide (status ∈ Client.COLUMN_ORDER)
    then Some (filter (λ item, item_id item ≠ itemId) (default [] (prev !! status)))
    else None.
Proof.
  unfold Updaters.handleDeleteItem.
  rewrite foldl_alter_lookup by apply COLUMN_ORDER_NoDup.
  rewrite cloneColumns_lookup. by case_decide.
Qed.

(** X21. On a well-formed store, when the creation of an item for a
    status returns, the client's update of a board that showed the project
    as stored, made with the item returned, gives exactly the board of the
    project as the store now holds it: the created card at the end of the
    column of that status. *)
Theorem added_card_matches_the_server
    uuid now projectId title description status data data' created :
  wellFormed data →
  createItemSync uuid now projectId title description (Some status) data
  = Ok (data', created) →
  Updaters.handleAddItem status created (boardOf projectId data)
  = Some (boardOf projectId data').
Proof.
  intros Hdata Hcreate.
  assert (wellFormed data') as Hdata'.
  { rewrite <- (perform_createItem _ _ _ _ _ _ _ _ _ Hcreate).
    by apply perform_wellFormed. }
  pose proof (createItemSync_Ok _ _ _ _ _ _ _ _ _ Hcreate) as (Hvalid & Hitem & _).
  assert (item_status created = status) as Hstatus by by rewrite Hitem.
  simpl in Hvalid.
  destruct (createItemSync_columnOf _ _ _ _ _ _ _ _ _ Hcreate) as [Hlast Hothers].
  rewrite Hstatus in Hlast, Hothers.
  unfold Updaters.handleAddItem.
  rewrite cloneColumns_lookup, decide_True by done. simpl. f_equal.
  apply map_eq. intros s. rewrite (boardOf_lookup_total _ data') by done.
  destruct (decide (s = status)) as [->|Hne].
  - rewrite lookup_insert_eq, decide_True by done.
    by rewrite Hlast, boardOf_lookup_total, decide_True.
  - rewrite lookup_insert_ne by done. rewrite cloneColumns_lookup.
    unfold Client.COLUMN_ORDER. case_decide; [|done].
    rewrite boardOf_lookup_total, decide_True by done. simpl.
    rewrite Hothers; [done|]. by intros [_ ?].
Qed.

Lemma added_card_matches_the_server_witness :
  ∃ data' created,
    createItemSync "c" "t3" "p1" (Some "Task 3") (Some EmptyString) (Some "review")
                   demoData
    = Ok (data', created)
    ∧ Updaters.handleAddItem "review" created (boardOf "p1" demoData)
      = Some (boardOf "p1" data').
Proof.
  do 2 eexists. split; [reflexivity|].
  exact (added_card_matches_the_server "c" "t3" "p1"
           (Some "Task 3") (Some EmptyString) "review" demoData _ _
           (reachable_wellFormed demoData (ex_intro _ demoCalls eq_refl)) eq_refl).
Defined.

(** X22. On a well-formed store with pairwise distinct item identifiers,
    when the deletion of an item returns, the client's update of a board
    that showed the project as stored gives exactly the board of the
    project as the store now holds it. *)
Theorem deleted_card_matches_the_server projectId itemId data data' removed :
  wellFormed data →
  NoDup (item_id <$> items data) →
  deleteItemSync projectId itemId data = Ok (data', removed) →
  Updaters.handleDeleteItem itemId (boardOf projectId data) = boardOf projectId data'.
Proof.
  intros Hdata Hunique Hdelete.
  assert (wellFormed data') as Hdata'.
  { rewrite <- (perform_deleteItem "u" "t" _ _ _ _ _ Hdelete).
    by apply perform_wellFormed. }
  destruct (deleteItemSync_columnOf _ _ _ _ _ Hdelete Hunique) as [_ Hcolumns].
  apply map_eq. intros s.
  rewrite handleDeleteItem_lookup, !boardOf_lookup_total by done.
  unfold Client.COLUMN_ORDER. case_decide; [|done]. simpl. by rewrite Hcolumns.
Qed.

Lemma deleted_card_matches_the_server_witness :
  ∃ data',
    deleteItemSync "p1" "a" demoData = Ok (data', taskA)
    ∧ Updaters.handleDeleteItem "a" (boardOf "p1" demoData) = boardOf "p1" data'.
Proof.
  eexists. split; [reflexivity|].
  exact (deleted_card_matches_the_server "p1" "a" demoData _ _
           (reachable_wellFormed demoData (ex_intro _ demoCalls eq_refl))
           ltac:(decide_closed) eq_refl).
Defined.

(** X23. On a well-formed store with pairwise distinct item identifiers,
    when an update that carries no status returns, the client's update of
    a board that showed the project as stored, made with the item
    returned, gives exactly the board of the project as the store now
    holds it: the updated card where the card stood. *)
Theorem edited_card_matches_the_server
    now projectId itemId updates data data' updated :
  wellFormed data →
  NoDup (item_id <$> items data) →
  updates_status updates = None →
  updateItemSync now projectId itemId updates data = Ok (data', updated) →
  Updaters.handleUpdateItem itemId updated (boardOf projectId data)
  = Some (boardOf projectId data').
Proof.
  intros Hdata Hunique Hnone Hupdate.
  assert (wellFormed data') as Hdata'.
  { rewrite <- (perform_updateItem "u" _ _ _ _ _ _ _ Hupdate).
    by apply perform_wellFormed. }
  pose proof (updateItemSync_fields _ _ _ _ _ _ _ Hupdate)
    as (k & old & Hfind & _ & _ & _ & Hupdated).
  assert (item_status updated = item_status old) as Hstays
    by (by rewrite Hupdated, Hnone).
  pose proof (updateItemSync_columnOf _ _ _ _ _ _ _ _ _ Hupdate Hfind Hstays Hunique)
    as Hcolumns.
  pose proof (findItem_Some _ _ _ _ _ Hfind) as (Hk & Hold & Hp).
  assert (item_status old ∈ VALID_STATUSES) as Hvalid.
  { apply wellFormed_statuses in Hdata. rewrite Forall_lookup in Hdata. eauto. }
  unfold Updaters.handleUpdateItem.
  rewrite cloneColumns_lookup, Hstays, decide_True by done. simpl. f_equal.
  apply map_eq. intros s. rewrite (boardOf_lookup_total _ data') by done.
  rewrite Hcolumns.
  destruct (decide (s = item_status old)) as [->|Hne].
  - rewrite lookup_insert_eq, decide_True by done.
    by rewrite boardOf_lookup_total, decide_True.
  - rewrite lookup_insert_ne by done. rewrite cloneColumns_lookup.
    unfold Client.COLUMN_ORDER. case_decide; [|done].
    rewrite boardOf_lookup_total, decide_True by done. simpl. f_equal.
    rewrite <- (list_fmap_id (columnOf data projectId s)) at 1.
    apply list_fmap_ext. intros i x Hx. rewrite decide_False; [done|].
    intros Hsame. apply list_elem_of_lookup_2 in Hx.
    unfold columnOf in Hx. apply list_elem_of_filter in Hx as [Hs Hx].
    unfold getItemsByProjectSync in Hx. rewrite sortItems_Permutation in Hx.
    apply list_elem_of_filter in Hx as [_ Hx].
    rewrite <- Hold in Hsame.
    rewrite (unique_id_elem _ _ _ Hunique Hk x Hx Hsame) in Hs. by apply Hne.
Qed.

Lemma edited_card_matches_the_server_witness :
  ∃ data' updated,
    updateItemSync "t3" "p1" "b"
      {| updates_title := Some "Task two"; updates_description := Some "soon";
         updates_status := None |} demoData
    = Ok (data', updated)
    ∧ Updaters.handleUpdateItem "b" updated (boardOf "p1" demoData)
      = Some (boardOf "p1" data').
Proof.
  do 2 eexists. split; [reflexivity|].
  exact (edited_card_matches_the_server "t3" "p1" "b"
           {| updates_title := Some "Task two"; updates_description := Some "soon";
              updates_status := None |} demoData _ _
           (reachable_wellFormed demoData (ex_intro _ demoCalls eq_refl))
           ltac:(decide_closed) eq_refl eq_refl).
Defined.

(** ** Undoing and repeating *)

(** X24. An item that was created under an identifier no stored item
    had is found by that identifier, and deleting it gives back the store
    as it was before the creation. *)
Theorem created_item_can_be_deleted
    uuid now projectId title description status data data' item :
  createItemSync uuid now projectId title description status data = Ok (data', item) →
  uuid ∉ item_id <$> items data →
  deleteItemSync projectId uuid data' = Ok (data, item).
Proof.
  intros (_ & Hitem & ->)%createItemSync_Ok Hfresh.
  unfold deleteItemSync, findItem. simpl.
  rewrite list_find_app_r.
  - simpl. rewrite decide_True by (by rewrite Hitem). simpl.
    replace (length (items data) + 0)%nat with (length (items data)) by lia.
    rewrite delete_middle. rewrite app_nil_r. by destruct data.
  - apply list_find_None, Forall_forall. intros x Hx [Hid _]. apply Hfresh.
    rewrite <- Hid. by apply list_elem_of_fmap_2.
Qed.

Lemma created_item_can_be_deleted_witness :
  ∃ data' item,
    createItemSync "c" "t3" "p1" (Some "Task 3") None None demoData = Ok (data', item)
    ∧ deleteItemSync "p1" "c" data' = Ok (demoData, item).
Proof.
  do 2 eexists. split; [reflexivity|].
  refine (created_item_can_be_deleted "c" "t3" "p1" (Some "Task 3") None None demoData
            _ _ eq_refl _).
  decide_closed.
Defined.

(** X25. On a well-formed store, a project that was created under an
    identifier no stored project had can be deleted again, and that gives
    back the store as it was before the creation. *)
Theorem created_project_can_be_deleted uuid now name secretKey data data' project :
  createProjectSync uuid now name secretKey data = Ok (data', project) →
  wellFormed data →
  uuid ∉ project_id <$> projects data →
  deleteProjectSync uuid data' = (data, true).
Proof.
  intros (_ & _ & _ & Hproject & ->)%createProjectSync_Ok [Hitems _] Hfresh.
  unfold deleteProjectSync. simpl.
  rewrite list_find_app_r.
  - simpl. rewrite decide_True by (by rewrite Hproject). simpl.
    replace (length (projects data) + 0)%nat with (length (projects data)) by lia.
    rewrite delete_middle, app_nil_r.
    rewrite filter_all; [by destruct data|].
    eapply Forall_impl; [done|]. intros item (_ & _ & _ & Hex) Hp.
    apply Exists_exists in Hex as (p & Hin & Hid). apply Hfresh.
    rewrite <- Hp, <- Hid. by apply list_elem_of_fmap_2.
  - apply list_find_None, Forall_forall. intros p Hin Hid. apply Hfresh.
    rewrite <- Hid. by apply list_elem_of_fmap_2.
Qed.

Lemma created_project_can_be_deleted_witness :
  ∃ data' project,
    createProjectSync "p2" "t3" (Some "Second") (Some "2nd key") demoData
    = Ok (data', project)
    ∧ deleteProjectSync "p2" data' = (demoData, true).
Proof.
  do 2 eexists. split; [reflexivity|].
  refine (created_project_can_be_deleted "p2" "t3" (Some "Second") (Some "2nd key")
            demoData _ _ eq_refl
            (reachable_wellFormed demoData (ex_intro _ demoCalls eq_refl)) _).
  decide_closed.
Defined.

Lemma findItem_insert projectId itemId l k old new :
  findItem projectId itemId l = Some (k, old) →
  item_id new = item_id old → item_projectId new = item_projectId old →
  findItem projectId itemId (<[k := new]> l) = Some (k, new).
Proof.
  unfold findItem. intros (Hk & [Hid Hp] & Hfirst)%list_find_Some Hid' Hp'.
  apply list_find_Some. split_and!.
  - apply list_lookup_insert_eq. by eapply lookup_lt_Some.
  - congruence.
  - congruence.
  - intros j y Hj Hlt. rewrite list_lookup_insert_ne in Hj by lia. by eapply Hfirst.
Qed.

(** X26. Sending the same PATCH a second time changes nothing but the
    modification time: it succeeds, and the item it answers with, like
    the stored one, is the item of the first answer with the new time. *)
Theorem update_twice_is_update_once
    now now' projectId itemId updates data data1 updated :
  updateItemSync now projectId itemId updates data = Ok (data1, updated) →
  ∃ k, items data1 !! k = Some updated
       ∧ updateItemSync now' projectId itemId updates data1
         = Ok ({| projects := projects data1;
                  items := <[k := withUpdatedAt updated now']> (items data1) |},
               withUpdatedAt updated now').
Proof.
  intros Hupdate.
  pose proof (updateItemSync_fields _ _ _ _ _ _ _ Hupdate)
    as (k & old & Hfind & Hdata1 & Htitle & Hstatus & Hupdated).
  pose proof (findItem_Some _ _ _ _ _ Hfind) as (Hk & _ & _).
  assert (findItem projectId itemId (items data1) = Some (k, updated)) as Hfind1.
  { rewrite Hdata1. simpl. eapply findItem_insert; [done|by rewrite Hupdated..]. }
  exists k. split; [by apply findItem_Some in Hfind1 as [? _]|].
  unfold updateItemSync. rewrite Hfind1. unfold validateStatus.
  destruct (updates_title updates) as [title|] eqn:Ht;
    [rewrite (Htitle title eq_refl)|]; simpl;
  (destruct (updates_status updates) as [status|] eqn:Hs;
    [rewrite (bool_decide_eq_true_2 _ (Hstatus status eq_refl)); simpl;
     rewrite bool_decide_eq_false_2 by (rewrite Hupdated; simpl; by intros [])|]);
  simpl; destruct (updates_description updates) eqn:Hd; rewrite Hupdated; simpl;
  reflexivity.
Qed.

Lemma update_twice_is_update_once_witness :
  ∃ data1 updated data2,
    updateItemSync "t3" "p1" "a"
      {| updates_title := Some " Task one "; updates_description := None;
         updates_status := Some "done" |} demoData = Ok (data1, updated)
    ∧ updateItemSync "t4" "p1" "a"
        {| updates_title := Some " Task one "; updates_description := None;
           updates_status := Some "done" |} data1
      = Ok (data2, withUpdatedAt updated "t4").
Proof.
  do 2 eexists.
  destruct (update_twice_is_update_once "t3" "t4" "p1" "a"
              {| updates_title := Some " Task one "; updates_description := None;
                 updates_status := Some "done" |} demoData _ _ eq_refl)
    as (k & _ & Hagain).
  eexists. split; [reflexivity|exact Hagain].
Defined.

(** ** What a bulk reorder can write *)

(** X27. A bulk reorder, whatever its payload, neither adds nor removes
    items and keeps the identifier, the project, the title, the
    description and the creation time of each; an item is either left as
    it is, or it is an item of the project that a sequence of one of the
    four statuses names, and it ends with that status, the position of
    that place in the sequence and the time of the reorder. *)
Theorem reorder_rewrites_status_and_position_only
    now projectId columns data data' response :
  reorderItemsSync now projectId columns data = Ok (data', response) →
  itemFrame <$> items data' = itemFrame <$> items data
  ∧ ∀ k item', items data' !! k = Some item' →
      ∃ item, items data !! k = Some item
        ∧ (item' = item
           ∨ (item_projectId item = projectId
              ∧ ∃ status index,
                  status ∈ VALID_STATUSES
                  ∧ orderedIdsOf columns status !! index = Some (item_id item)
                  ∧ item' = placed now status index item)).
Proof.
  intros (Hitems & _ & _)%reorderItemsSync_items. rewrite Hitems. split.
  - apply runEntries_frame.
  - intros k item' Hk'.
    apply runEntries_lookup in Hk' as (item & Hk & Hitem'). exists item.
    split; [done|].
    destruct Hitem' as [->|([[status index] itemId] & Hentry & Haim & ->)]; [by left|].
    right. apply (aimsAt_item _ _ _ _ item) in Haim as [Hid Hp]; [|done].
    split; [done|]. exists status, index. simpl in *.
    apply elem_of_payloadEntries in Hentry as [Hvalid Hindex].
    split_and!; [done| |done]. by rewrite Hid.
Qed.

Lemma reorder_rewrites_status_and_position_only_witness :
  ∃ data' response,
    reorderItemsSync "t3" "p1" swapColumns demoData = Ok (data', response)
    ∧ itemFrame <$> items data' = itemFrame <$> items demoData.
Proof.
  do 2 eexists. split; [reflexivity|].
  exact (proj1 (reorder_rewrites_status_and_position_only "t3" "p1" swapColumns demoData
                  _ _ eq_refl)).
Defined.
